(** * Tanjun: command dispatch, lifecycle and ID parsing

    A shallow embedding of the parts of [tanjun/clients.py],
    [tanjun/components.py] and [tanjun/conversion.py] that the
    specification speaks about, followed by the theorems that relate the
    specification's sentences to the code.

    Conventions used throughout.
    - Python [str] values are modelled by [string], a character standing
      for the code point of the same number: the development speaks
      about text over the code points 0 to 255.  On these the character
      functions ([str.isdigit], [str.isspace], [str.lower], the regex
      classes [\d] and [\w]) are the Python ones.
    - An exception of the model is an instance of [Exception]; what a
      handler [except Exception] lets through ([asyncio.CancelledError],
      [SystemExit], [KeyboardInterrupt]) is not represented, and no
      coroutine of the model ends in one.
    - A Python [set] is iterated in an order the language leaves
      unspecified.  Sets of objects (components, checks, callbacks) are
      lists in their iteration order; every statement quantifies over the
      list, hence over every order.  Sets of strings are [gset string].
    - A coroutine is a finite script of effects and suspension points, run
      by a model of asyncio's FIFO ready queue (module [Loop]).
    - A raising call returns [Err e]; effects on collaborators (responses,
      lifecycle firings, subscriptions) are recorded in a trace. *)

From Stdlib Require Import String Ascii List ZArith QArith Lia Bool.
From Stdlib Require Import DecimalString Decimal DecimalN DecimalFacts.
From stdpp Require Import gmap strings list.
Import ListNotations.

Local Open Scope string_scope.
Local Open Scope list_scope.
Local Open Scope nat_scope.

(** ** Exceptions and results *)

(** The instances of [Exception] the code raises or handles;
    [OtherError] stands for any other subclass of [Exception].
    Exceptions that derive from [BaseException] only are not values of
    this type. *)
Inductive exn : Type :=
| RuntimeError (msg : string)
| ValueError (msg : string)
| HaltExecution
| CommandError (msg : string)
| RateLimitedError (retry_after : Q)
| InternalServerError
| KeyError (msg : string)
| LookupError (msg : string)
| OtherError (name : string).

Inductive result (A : Type) : Type :=
| Ok (a : A)
| Err (e : exn).

Arguments Ok {A} a.
Arguments Err {A} e.

(** ** Python string primitives, on the code points 0 to 255 *)

Module Py.

(** [str.isspace] on one character: TAB, LF, VT, FF, CR, the four
    separators 0x1c-0x1f, the space, NEL (0x85) and the no-break space
    (0xa0). *)
Definition isspace (c : ascii) : bool :=
  let n := nat_of_ascii c in
  ((9 <=? n) && (n <=? 13)) || ((28 <=? n) && (n <=? 31)) || (n =? 32)
  || (n =? 133) || (n =? 160).

(** The decimal digits, [str.isdecimal] on one character and the regex
    class [\d]: below 256 these are the digits 0 to 9. *)
Definition isdigit_char (c : ascii) : bool :=
  let n := nat_of_ascii c in (48 <=? n) && (n <=? 57).

(** [str.isdigit] on one character: the decimal digits and the
    superscripts two, three (0xb2, 0xb3) and one (0xb9). *)
Definition isdigit_str_char (c : ascii) : bool :=
  let n := nat_of_ascii c in
  isdigit_char c || (n =? 178) || (n =? 179) || (n =? 185).

(** The regex class [\w]: the underscore and what [str.isalnum]
    accepts, that is the ASCII letters and digits, the letters of 0xaa,
    0xb5, 0xba, 0xc0-0xd6, 0xd8-0xf6 and 0xf8-0xff, the superscript digits
    and the fractions 0xbc-0xbe. *)
Definition isword_char (c : ascii) : bool :=
  let n := nat_of_ascii c in
  isdigit_char c || ((65 <=? n) && (n <=? 90)) || ((97 <=? n) && (n <=? 122))
  || (n =? 95)
  || (n =? 170) || (n =? 178) || (n =? 179) || (n =? 181) || (n =? 185)
  || (n =? 186) || ((188 <=? n) && (n <=? 190))
  || ((192 <=? n) && (n <=? 214)) || ((216 <=? n) && (n <=? 246))
  || (248 <=? n).

Fixpoint all_chars (p : ascii -> bool) (s : string) : bool :=
  match s with
  | EmptyString => true
  | String c s' => p c && all_chars p s'
  end.

(** [str.isdecimal]: false on the empty string. *)
Definition isdecimal (s : string) : bool :=
  match s with
  | EmptyString => false
  | _ => all_chars isdigit_char s
  end.

(** [str.isdigit]: false on the empty string. *)
Definition isdigit (s : string) : bool :=
  match s with
  | EmptyString => false
  | _ => all_chars isdigit_str_char s
  end.

Fixpoint lstrip (s : string) : string :=
  match s with
  | EmptyString => EmptyString
  | String c s' => if isspace c then lstrip s' else s
  end.

Definition rev_string (s : string) : string :=
  string_of_list_ascii (List.rev (list_ascii_of_string s)).

Definition rstrip (s : string) : string := rev_string (lstrip (rev_string s)).

Definition strip (s : string) : string := rstrip (lstrip s).

(** [s.startswith(p)]. *)
Definition startswith (s p : string) : bool := String.prefix p s.

(** [s[n:]]. *)
Fixpoint drop (n : nat) (s : string) : string :=
  match n, s with
  | O, _ => s
  | S n', String _ s' => drop n' s'
  | S _, EmptyString => EmptyString
  end.

(** [s[:n]]. *)
Fixpoint take (n : nat) (s : string) : string :=
  match n, s with
  | S n', String c s' => String c (take n' s')
  | _, _ => EmptyString
  end.

(** [str.lower] on one character: the ASCII capitals and the capitals
    0xc0-0xde, the multiplication sign 0xd7 apart. *)
Definition lower_char (c : ascii) : ascii :=
  let n := nat_of_ascii c in
  if ((65 <=? n) && (n <=? 90))
     || ((192 <=? n) && (n <=? 222) && negb (n =? 215))
  then ascii_of_nat (n + 32) else c.

Fixpoint lower (s : string) : string :=
  match s with
  | EmptyString => EmptyString
  | String c s' => String (lower_char c) (lower s')
  end.

Definition digit_value (c : ascii) : N := N.of_nat (nat_of_ascii c - 48).

(** The digits of an [int] literal: a digit, then digits each optionally
    preceded by one underscore.  [prev_digit] tells whether the previous
    character was a digit (an underscore must sit between two digits). *)
Fixpoint int_digits (acc : N) (prev_digit : bool) (s : string) : option N :=
  match s with
  | EmptyString => if prev_digit then Some acc else None
  | String c s' =>
      if isdigit_char c then int_digits (10 * acc + digit_value c)%N true s'
      else if (nat_of_ascii c =? 95) && prev_digit then int_digits acc false s'
      else None
  end.

(** [int(s)] for a string argument in base ten: surrounding whitespace is
    dropped, one sign is accepted; [None] stands for [ValueError].  The
    interpreter's limit on the number of digits
    ([sys.int_max_str_digits], 4300 unless configured otherwise, above
    which [int] raises [ValueError] as well) is not modelled: this is
    [int] with the limit switched off, and it agrees with [int] under
    every setting of the limit on texts of at most 4300 characters. *)
Definition int (s : string) : option Z :=
  match strip s with
  | String "+" r => option_map Z.of_N (int_digits 0 false r)
  | String "-" r => option_map (fun n => Z.opp (Z.of_N n)) (int_digits 0 false r)
  | r => option_map Z.of_N (int_digits 0 false r)
  end.

(** The value of a string of decimal digits. *)
Fixpoint decimal_value (acc : N) (s : string) : N :=
  match s with
  | EmptyString => acc
  | String c s' => decimal_value (10 * acc + digit_value c)%N s'
  end.

(** [str(n)] for a non-negative integer. *)
Definition str_of_N (n : N) : string := NilEmpty.string_of_uint (N.to_uint n).

End Py.

(** ** conversion.py: snowflake parsers *)

Module Conversion.

(** The four mention patterns of the module are sequences of quantified
    character classes with one capture group around one of them; [atom]
    is one such item: a class, its repetition bounds ([None] for no upper
    bound) and whether it is the captured group. *)
Record atom : Type := {
  cls : ascii -> bool;
  lo : nat;
  hi : option nat;
  captured : bool
}.

Definition pattern : Type := list atom.

Definition lit (c : ascii) : atom :=
  {| cls := fun x => Ascii.eqb x c; lo := 1; hi := Some 1; captured := false |}.

Definition one_of (cs : list ascii) (x : ascii) : bool :=
  existsb (Ascii.eqb x) cs.

(** Length of the longest run of characters of class [p] at the head of
    [s], cut at [limit] when there is one. *)
Fixpoint run_length (p : ascii -> bool) (limit : option nat) (s : string) : nat :=
  match limit with
  | Some O => O
  | _ =>
      match s with
      | String c s' =>
          if p c then S (run_length p (option_map Nat.pred limit) s') else O
      | EmptyString => O
      end
  end.

(** The backtracking of one atom: with [k] characters taken, try the
    rest of the pattern on what follows; on failure give one character
    back, as long as the lower bound allows. *)
Fixpoint give_back (a : atom) (rest_match : string -> option (string * string))
  (s : string) (k : nat) : option (string * string) :=
  match (if k <? lo a then None else rest_match (Py.drop k s)) with
  | Some (cap, rest) =>
      Some (if captured a then Py.take k s +:+ cap else cap, rest)
  | None =>
      match k with
      | O => None
      | S k' => give_back a rest_match s k'
      end
  end.

(** Greedy matching with backtracking, anchored at the head of [s]:
    each atom first takes the longest run it can.  The result is the
    captured text and the unconsumed input. *)
Fixpoint match_here (p : pattern) (s : string) : option (string * string) :=
  match p with
  | [] => Some (EmptyString, s)
  | a :: p' => give_back a (match_here p') s (run_length (cls a) (hi a) s)
  end.

(** [Pattern.search]: the leftmost position at which the pattern matches. *)
Fixpoint search (p : pattern) (s : string) : option (string * string) :=
  match match_here p s with
  | Some r => Some r
  | None =>
      match s with
      | EmptyString => None
      | String _ s' => search p s'
      end
  end.

(** [Pattern.findall] for a pattern with one group: the captured text of
    the successive non-overlapping matches, left to right.  The patterns
    of this module start with a literal, so a match is never empty; the
    scan stops if a match leaves the input untouched. *)
Fixpoint findall_from (fuel : nat) (p : pattern) (s : string) : list string :=
  match fuel with
  | O => []
  | S fuel' =>
      match search p s with
      | None => []
      | Some (cap, rest) =>
          cap :: (if String.length rest <? String.length s
                  then findall_from fuel' p rest else [])
      end
  end.

Definition findall (p : pattern) (s : string) : list string :=
  findall_from (S (String.length s)) p s.

(** The group of a pattern captures a non-empty run of digits. *)
Definition captures_digits (p : pattern) : Prop :=
  (forall a, In a p -> captured a = true ->
             forall c, cls a c = true -> Py.isdigit_char c = true)
  /\ exists a, In a p /\ captured a = true /\ 1 <= lo a.

(** [_BaseSnowflakeParser]: the abstract class method [regex]. *)
Class SnowflakeParser : Type := { regex : pattern }.

Definition digits_group : atom :=
  {| cls := Py.isdigit_char; lo := 1; hi := None; captured := true |}.

(** [<[@&?!#]{1,3}(\d+)>] *)
Definition _SnowflakeParser : SnowflakeParser :=
  {| regex :=
       [ lit "<";
         {| cls := one_of ["@"; "&"; "?"; "!"; "#"]%char; lo := 1; hi := Some 3;
            captured := false |};
         digits_group;
         lit ">" ] |}.

(** [<#(\d+)>] *)
Definition _ChannelIDParser : SnowflakeParser :=
  {| regex := [ lit "<"; lit "#"; digits_group; lit ">" ] |}.

(** [<a?:\w+:(\d+)>] *)
Definition _EmojiIDParser : SnowflakeParser :=
  {| regex :=
       [ lit "<";
         {| cls := fun x => Ascii.eqb x "a"; lo := 0; hi := Some 1;
            captured := false |};
         lit ":";
         {| cls := Py.isword_char; lo := 1; hi := None; captured := false |};
         lit ":";
         digits_group;
         lit ">" ] |}.

(** [<@!?(\d+)>] *)
Definition _UserIDParser : SnowflakeParser :=
  {| regex :=
       [ lit "<"; lit "@";
         {| cls := fun x => Ascii.eqb x "!"; lo := 0; hi := Some 1;
            captured := false |};
         digits_group;
         lit ">" ] |}.

(** [snowflakes.Snowflake(value)]: an [int] built from a string. *)
Definition Snowflake (value : string) : result Z :=
  match Py.int value with
  | Some n => Ok n
  | None => Err (ValueError "invalid literal for int() with base 10")
  end.

(** [_BaseSnowflakeParser.match_id]. *)
Definition match_id (P : SnowflakeParser) (value : string) : result Z :=
  if Py.isdigit value then Snowflake value
  else
    match findall (@regex P) value with
    | r :: _ => Snowflake r
    | [] => Err (ValueError "No valid mention or ID found")
    end.

End Conversion.


(** ** asyncio: coroutines, the ready queue and [gather] *)

Module Loop.

Section WithEvents.

(** The effects a coroutine can have on the outside world. *)
Context {E : Type}.

(** A coroutine that terminates, as the script of what it does: it
    returns ([Ret None]) or raises ([Ret (Some e)]), performs an effect, or
    reaches a suspension point that hands control back to the event loop
    (what [await asyncio.sleep(0)] does). *)
Inductive coro : Type :=
| Ret (r : option exn)
| Yield (k : coro)
| Emit (e : E) (k : coro).

(** What one [Task.__step] makes of a coroutine: it runs up to the next
    suspension point or to the end. *)
Inductive progress : Type :=
| Suspended (k : coro)
| Finished (r : option exn).

Fixpoint advance (c : coro) : list E * progress :=
  match c with
  | Ret r => ([], Finished r)
  | Yield k => ([], Suspended k)
  | Emit e k => let '(es, p) := advance k in (e :: es, p)
  end.

(** The handles of the loop's ready queue while a caller awaits
    [asyncio.gather]: a step of child task [i], the done-callback
    that [gather] attached to child [i] (scheduled with [call_soon] when
    the child finishes with [r]), and the wake-up of the awaiting caller
    (scheduled when the outer future gets its result or exception). *)
Inductive handle : Type :=
| Step (i : nat) (c : coro)
| DoneCallback (i : nat) (r : option exn)
| Wake.

(** The state of [gather]'s outer future and its [nfinished] counter. *)
Record gathering : Type := {
  outer : option (option exn);
  nfinished : nat
}.

(** What the caller of [await gather(...)] observes when it is resumed:
    the exception raised into it, the handles still in the ready queue at
    that moment, and the effects performed so far. *)
Record settled : Type := {
  raised : option exn;
  pending : list handle;
  effects : list E
}.

(** [gather._done_callback] for a child that finished with [r]; the
    second component tells whether the caller's wake-up gets scheduled. *)
Definition _done_callback (nfuts : nat) (r : option exn) (g : gathering)
  : gathering * bool :=
  let n := S (nfinished g) in
  match outer g with
  | Some _ => ({| outer := outer g; nfinished := n |}, false)
  | None =>
      match r with
      | Some e => ({| outer := Some (Some e); nfinished := n |}, true)
      | None =>
          if n =? nfuts
          then ({| outer := Some None; nfinished := n |}, true)
          else ({| outer := None; nfinished := n |}, false)
      end
  end.

(** [BaseEventLoop._run_once], repeated: handles run in FIFO order and
    whatever they schedule goes to the back of the queue.  [None] means
    that the fuel ran out or that nothing is ready while the caller still
    waits. *)
Fixpoint run (fuel nfuts : nat) (q : list handle) (g : gathering)
  (t : list E) : option settled :=
  match fuel with
  | O => None
  | S fuel' =>
      match q with
      | [] => None
      | Step i c :: q' =>
          match advance c with
          | (es, Suspended k) => run fuel' nfuts (q' ++ [Step i k]) g (t ++ es)
          | (es, Finished r) =>
              run fuel' nfuts (q' ++ [DoneCallback i r]) g (t ++ es)
          end
      | DoneCallback i r :: q' =>
          match _done_callback nfuts r g with
          | (g', true) => run fuel' nfuts (q' ++ [Wake]) g' t
          | (g', false) => run fuel' nfuts q' g' t
          end
      | Wake :: q' =>
          match outer g with
          | Some r => Some {| raised := r; pending := q'; effects := t |}
          | None => None
          end
      end
  end.

Fixpoint yields (c : coro) : nat :=
  match c with
  | Ret _ => 0
  | Yield k => S (yields k)
  | Emit _ k => yields k
  end.

(** Number of loop iterations a handle can still cause. *)
Definition weight (h : handle) : nat :=
  match h with
  | Step _ c => S (S (yields c))
  | DoneCallback _ _ => 1
  | Wake => 0
  end.

Definition total_weight (q : list handle) : nat :=
  list_sum (List.map weight q).

Fixpoint tasks_from (i : nat) (aws : list coro) : list handle :=
  match aws with
  | [] => []
  | c :: aws' => Step i c :: tasks_from (S i) aws'
  end.

(** [await asyncio.gather] with the default
    [return_exceptions=False]: every awaitable becomes a task, in order;
    with no awaitable the result is ready at once. *)
Definition gather (aws : list coro) : option settled :=
  match aws with
  | [] => Some {| raised := None; pending := []; effects := [] |}
  | _ =>
      let q := tasks_from 0 aws in
      run (S (total_weight q)) (List.length aws) q
          {| outer := None; nfinished := 0 |} []
  end.

(** Every effect a coroutine performs when it is run to its end. *)
Fixpoint all_effects (c : coro) : list E :=
  match c with
  | Ret _ => []
  | Yield k => all_effects k
  | Emit e k => e :: all_effects k
  end.

(** How a coroutine ends when it is run to its end. *)
Fixpoint outcome (c : coro) : option exn :=
  match c with
  | Ret r => r
  | Yield k => outcome k
  | Emit _ k => outcome k
  end.


(** A handle that stands for a child whose completion [gather] has not
    counted yet. *)
Definition live (h : handle) : bool :=
  match h with
  | Wake => false
  | _ => true
  end.

Fixpoint live_count (q : list handle) : nat :=
  match q with
  | [] => 0
  | h :: q' => (if live h then 1 else 0) + live_count q'
  end.

(** The exception a handle carries to [gather], now or once its
    coroutine has run to its end. *)
Definition failure (h : handle) : option exn :=
  match h with
  | Step _ c => outcome c
  | DoneCallback _ r => r
  | Wake => None
  end.

(** The invariant of the ready queue while the caller waits: as long as
    the outer future is pending no wake-up is scheduled and the children
    not counted yet are all in the queue; once it is done the wake-up is
    in the queue. *)
Definition waiting (nfuts : nat) (q : list handle) (g : gathering) : Prop :=
  match outer g with
  | None => ~ In Wake q /\ nfinished g + live_count q = nfuts /\ 0 < live_count q
  | Some _ => In Wake q
  end.







End WithEvents.

Arguments coro : clear implicits.
Arguments handle : clear implicits.
Arguments settled : clear implicits.
Arguments progress : clear implicits.

End Loop.

(** ** components.py: [Component] *)

Module Components.

(** [traits.Context] as far as [Component.execute] reads and writes it;
    the resolved command is kept by its identity. *)
Record Context : Type := {
  content : string;
  triggering_name : option string;
  command : option nat
}.

(** A [traits.Hooks] object, by identity. *)
Definition Hooks : Type := nat.

(** What [Component] observably does to its collaborators: it calls a
    check, asks a command for its matches, executes a command. *)
Inductive event : Type :=
| CheckCalled (check : nat)
| CommandAsked (cmd : nat)
| CommandExecuted (cmd : nat) (hooks : option (list Hooks)).

Record Check : Type := {
  check_id : nat;
  check_fn : Context -> bool
}.

(** The executable end of a [traits.FoundCommand]: [execute] returns or
    raises. *)
Record Executable : Type := {
  exec_id : nat;
  exec_fn : Context -> option (list Hooks) -> option exn
}.

Record FoundCommand : Type := {
  name : string;
  found : Executable
}.

(** A [traits.ExecutableCommand] of the component: [check_context] is the
    sequence of matches its asynchronous iterator produces for a context. *)
Record ExecutableCommand : Type := {
  command_id : nat;
  check_context_of : Context -> list FoundCommand
}.

(** An entry of [_listeners]: the event type and the callback, both by
    identity. *)
Definition Listener : Type := (nat * nat)%type.

Record Component : Type := {
  _checks : list Check;
  _client : option nat;
  _commands : list ExecutableCommand;
  hooks : option Hooks;
  _listeners : list Listener;
  started : bool
}.

Definition set_started (b : bool) (self : Component) : Component :=
  {| _checks := _checks self; _client := _client self;
     _commands := _commands self; hooks := hooks self;
     _listeners := _listeners self; started := b |}.

(** Modelled from the spec: [utilities.gather_checks] is not among the
    sources; the specification describes the gate as AND-combined, all
    checks being evaluated.  The checks are called in iteration order. *)
Definition gather_checks (ctx : Context) (checks : list Check)
  : list event * bool :=
  (List.map (fun c => CheckCalled (check_id c)) checks,
   forallb (fun c => check_fn c ctx) checks).

(** [utilities.async_chain] over the commands' [check_context], consumed
    up to its first item: commands are asked in iteration order until one
    of them produces a match. *)
Fixpoint first_match (ctx : Context) (cmds : list ExecutableCommand)
  : list event * option FoundCommand :=
  match cmds with
  | [] => ([], None)
  | c :: cmds' =>
      match check_context_of c ctx with
      | f :: _ => ([CommandAsked (command_id c)], Some f)
      | [] =>
          let '(es, r) := first_match ctx cmds' in
          (CommandAsked (command_id c) :: es, r)
      end
  end.

(** [Component.check_context], as far as [execute] consumes it: the
    component's checks first, then the first match of its commands. *)
Definition check_context (self : Component) (ctx : Context)
  : list event * option FoundCommand :=
  let '(es, passed) := gather_checks ctx (_checks self) in
  if passed then
    let '(es', r) := first_match ctx (_commands self) in (es ++ es', r)
  else (es, None).

(** The [hooks] argument after the component's own hooks are merged in.
    An empty set is falsy, like [None]. *)
Definition merge_hooks (own : option Hooks) (given : option (list Hooks))
  : option (list Hooks) :=
  match own, given with
  | Some h, Some (g :: gs) =>
      Some (if existsb (Nat.eqb h) (g :: gs) then g :: gs else (g :: gs) ++ [h])
  | Some h, _ => Some [h]
  | None, _ => given
  end.

(** What a call of [Component.execute] leaves behind: the calls it made,
    the context as it mutated it, and the value it returned or the
    exception it raised. *)
Record execution : Type := {
  calls : list event;
  context : Context;
  returned : result bool
}.

(** [Component.execute]. *)
Definition execute (self : Component) (ctx : Context)
  (given : option (list Hooks)) : execution :=
  if negb (started self) then
    {| calls := []; context := ctx; returned := Ok false |}
  else
    match check_context self ctx with
    | (es, Some command_) =>
        let ctx' :=
          {| content :=
               Py.lstrip (Py.drop (String.length (name command_)) (content ctx));
             triggering_name := Some (name command_);
             command := Some (exec_id (found command_)) |} in
        let hooks' := merge_hooks (hooks self) given in
        {| calls := es ++ [CommandExecuted (exec_id (found command_)) hooks'];
           context := ctx';
           returned :=
             match exec_fn (found command_) ctx' hooks' with
             | None => Ok true
             | Some e => Err e
             end |}
    | (es, None) => {| calls := es; context := ctx; returned := Ok false |}
    end.

Section WithDispatcher.

(** The event dispatcher reached through
    [self._client.dispatch_service.dispatcher] is a collaborator: its
    state and its two operations are parameters; [unsubscribe] may raise. *)
Variable Dispatcher : Type.
Variable subscribe : Listener -> Dispatcher -> Dispatcher.
Variable unsubscribe : Listener -> Dispatcher -> result Dispatcher.

(** The exceptions [open] swallows around [unsubscribe]. *)
Definition is_lookup_failure (e : exn) : bool :=
  match e with
  | KeyError _ | ValueError _ | LookupError _ => true
  | _ => false
  end.

(** The loop of [open]: unsubscribe then subscribe each listener; a
    listener whose [unsubscribe] fails with a lookup failure is skipped by
    the [continue]. *)
Fixpoint resubscribe (ls : list Listener) (d : Dispatcher)
  : Dispatcher * option exn :=
  match ls with
  | [] => (d, None)
  | l :: ls' =>
      match unsubscribe l d with
      | Ok d' => resubscribe ls' (subscribe l d')
      | Err e => if is_lookup_failure e then resubscribe ls' d else (d, Some e)
      end
  end.

(** The loop of [close]. *)
Fixpoint unsubscribe_all (ls : list Listener) (d : Dispatcher)
  : Dispatcher * option exn :=
  match ls with
  | [] => (d, None)
  | l :: ls' =>
      match unsubscribe l d with
      | Ok d' => unsubscribe_all ls' d'
      | Err e => (d, Some e)
      end
  end.

(** [Component.open]: the component and the dispatcher afterwards, and
    the exception raised if any. *)
Definition open (self : Component) (d : Dispatcher)
  : Component * Dispatcher * option exn :=
  if started self then (self, d, None)
  else
    match _client self with
    | Some _ =>
        match resubscribe (_listeners self) d with
        | (d', None) => (set_started true self, d', None)
        | (d', Some e) => (self, d', Some e)
        end
    | None => (set_started true self, d, None)
    end.

(** [Component.close]. *)
Definition close (self : Component) (d : Dispatcher)
  : Component * Dispatcher * option exn :=
  if negb (started self) then (self, d, None)
  else
    match _client self with
    | Some _ =>
        let '(d', r) := unsubscribe_all (_listeners self) d in
        (set_started false self, d', r)
    | None => (set_started false self, d, None)
    end.

End WithDispatcher.

End Components.

(** ** clients.py: [Client] *)

Module Clients.

(** A [traits.Hooks] object, by identity. *)
Definition Hooks : Type := nat.

(** [context.MessageContext] as far as the client reads and writes it. *)
Record MessageContext : Type := {
  content : string;
  triggering_prefix : option string
}.

Definition set_content (text : string) (ctx : MessageContext) : MessageContext :=
  {| content := text; triggering_prefix := triggering_prefix ctx |}.

Definition set_triggering_prefix (p : string) (ctx : MessageContext)
  : MessageContext :=
  {| content := content ctx; triggering_prefix := Some p |}.

(** [context.SlashContext] as the client builds it. *)
Record SlashContext : Type := {
  interaction : nat;
  not_found_message : option string
}.

(** The methods of [SlashContext] the client calls. *)
Inductive context_call : Type :=
| StartDeferTimer (after : Q)
| GetResponseFuture
| Respond (message : string)
| MarkNotFound
| CancelDefer.

Inductive MessageAcceptsEnum : Type := ALL | DM_ONLY | GUILD_ONLY | NONE.

Inductive event_type : Type :=
| MessageCreateEvent
| DMMessageCreateEvent
| GuildMessageCreateEvent
| InteractionCreateEvent.

(** [_ACCEPTS_EVENT_TYPE_MAPPING]. *)
Definition get_event_type (accepts : MessageAcceptsEnum) : option event_type :=
  match accepts with
  | ALL => Some MessageCreateEvent
  | DM_ONLY => Some DMMessageCreateEvent
  | GUILD_ONLY => Some GuildMessageCreateEvent
  | NONE => None
  end.

(** Everything the client does to its collaborators, in order.  A call
    that hands a value back to the client ([check], [execute_message],
    [execute_interaction]) is recorded with that value when it completes,
    after the effects the callee had. *)
Inductive event : Type :=
| CheckCalled (check : nat)
| Checked (passed : bool)
| ComponentEffect (component tag : nat)
| ExecuteMessage (component : nat) (r : result bool)
| ExecuteInteraction (component : nat) (r : result bool)
| Responded (message : string)
| Dispatched (event_name : string) (suppress_exceptions : bool)
| Called (callback : nat)
| CallbackEffect (callback tag : nat)
| Logged (callback : nat) (e : exn)
| Subscribed (t : event_type)
| Unsubscribed (t : event_type)
| ListenerSet (installed : bool)
| CacheAsked
| Fetched
| NextBackoff (retry_after : Q)
| OnContext (c : context_call)
| NeverAwaited.

(** A registered lifecycle callback: its identity and what calling it
    (and awaiting the result, when it is awaitable) does.  The effects of
    a callback are opaque tags. *)
Record Callback : Type := {
  callback_id : nat;
  body : Loop.coro nat
}.

Record Check : Type := {
  check_id : nat;
  check_fn : MessageContext -> bool
}.

(** What a component's [execute_message] or [execute_interaction] does:
    opaque effects, then a truth value or an exception. *)
Record Component : Type := {
  component_id : nat;
  execute_message :
    MessageContext -> option (list Hooks) -> list nat * result bool;
  execute_interaction :
    SlashContext -> option (list Hooks) -> list nat * result bool
}.

(** An answer of [rest.fetch_my_user]. *)
Inductive fetch_reply : Type :=
| User (id : N)
| RateLimited (retry_after : Q)
| ServerError
| Failure (e : exn).

(** The collaborators of [Client.open]: the REST client, as the sequence
    of its answers to successive [fetch_my_user] calls, and the number of
    times the asynchronous iterator of
    [backoff.Backoff(max_retries=4, maximum=30)] yields before it is
    exhausted (the [yuyo] library is not part of the sources). *)
Record Environment : Type := {
  fetch_my_user : nat -> fetch_reply;
  backoff_iterations : nat
}.

Record Client : Type := {
  _accepts : MessageAcceptsEnum;
  _auto_defer_after : option Q;
  _cache : option (option N);
  _checks : list Check;
  _client_callbacks : gmap string (list Callback);
  _components : list Component;
  _events : bool;
  _grab_mention_prefix : bool;
  _hooks : option Hooks;
  _interaction_not_found : option string;
  _slash_hooks : option Hooks;
  _is_alive : bool;
  _message_hooks : option Hooks;
  _prefix_getter : option (MessageContext -> list string);
  _prefixes : gset string;
  _server : bool
}.

Definition set__is_alive (b : bool) (self : Client) : Client :=
  {| _accepts := _accepts self; _auto_defer_after := _auto_defer_after self;
     _cache := _cache self; _checks := _checks self;
     _client_callbacks := _client_callbacks self;
     _components := _components self; _events := _events self;
     _grab_mention_prefix := _grab_mention_prefix self; _hooks := _hooks self;
     _interaction_not_found := _interaction_not_found self;
     _slash_hooks := _slash_hooks self; _is_alive := b;
     _message_hooks := _message_hooks self;
     _prefix_getter := _prefix_getter self; _prefixes := _prefixes self;
     _server := _server self |}.

Definition set__prefixes (ps : gset string) (self : Client) : Client :=
  {| _accepts := _accepts self; _auto_defer_after := _auto_defer_after self;
     _cache := _cache self; _checks := _checks self;
     _client_callbacks := _client_callbacks self;
     _components := _components self; _events := _events self;
     _grab_mention_prefix := _grab_mention_prefix self; _hooks := _hooks self;
     _interaction_not_found := _interaction_not_found self;
     _slash_hooks := _slash_hooks self; _is_alive := _is_alive self;
     _message_hooks := _message_hooks self;
     _prefix_getter := _prefix_getter self; _prefixes := ps;
     _server := _server self |}.

Definition set__grab_mention_prefix (b : bool) (self : Client) : Client :=
  {| _accepts := _accepts self; _auto_defer_after := _auto_defer_after self;
     _cache := _cache self; _checks := _checks self;
     _client_callbacks := _client_callbacks self;
     _components := _components self; _events := _events self;
     _grab_mention_prefix := b; _hooks := _hooks self;
     _interaction_not_found := _interaction_not_found self;
     _slash_hooks := _slash_hooks self; _is_alive := _is_alive self;
     _message_hooks := _message_hooks self;
     _prefix_getter := _prefix_getter self; _prefixes := _prefixes self;
     _server := _server self |}.

Definition set__client_callbacks (m : gmap string (list Callback))
  (self : Client) : Client :=
  {| _accepts := _accepts self; _auto_defer_after := _auto_defer_after self;
     _cache := _cache self; _checks := _checks self;
     _client_callbacks := m;
     _components := _components self; _events := _events self;
     _grab_mention_prefix := _grab_mention_prefix self; _hooks := _hooks self;
     _interaction_not_found := _interaction_not_found self;
     _slash_hooks := _slash_hooks self; _is_alive := _is_alive self;
     _message_hooks := _message_hooks self;
     _prefix_getter := _prefix_getter self; _prefixes := _prefixes self;
     _server := _server self |}.

Definition set__auto_defer_after (t : option Q) (self : Client) : Client :=
  {| _accepts := _accepts self; _auto_defer_after := t;
     _cache := _cache self; _checks := _checks self;
     _client_callbacks := _client_callbacks self;
     _components := _components self; _events := _events self;
     _grab_mention_prefix := _grab_mention_prefix self; _hooks := _hooks self;
     _interaction_not_found := _interaction_not_found self;
     _slash_hooks := _slash_hooks self; _is_alive := _is_alive self;
     _message_hooks := _message_hooks self;
     _prefix_getter := _prefix_getter self; _prefixes := _prefixes self;
     _server := _server self |}.

(** [Client.__init__] for a client built around a REST client alone:
    no cache, no event manager, no server. *)
Definition new_client : Client :=
  {| _accepts := NONE; _auto_defer_after := Some (26 # 10);
     _cache := None; _checks := [];
     _client_callbacks := ∅; _components := []; _events := false;
     _grab_mention_prefix := false; _hooks := None;
     _interaction_not_found := Some "Command not found";
     _slash_hooks := None; _is_alive := false; _message_hooks := None;
     _prefix_getter := None; _prefixes := ∅; _server := false |}.

(** Modelled from the spec: [traits.ClientCallbackNames] is not among the
    sources; the names are the ones the specification lists. *)
Definition STARTING : string := "STARTING".
Definition STARTED : string := "STARTED".
Definition CLOSING : string := "CLOSING".
Definition CLOSED : string := "CLOSED".
Definition MESSAGE_COMMAND_NOT_FOUND : string := "MESSAGE_COMMAND_NOT_FOUND".
Definition SLASH_COMMAND_NOT_FOUND : string := "SLASH_COMMAND_NOT_FOUND".

(** A Python callable handed to [add_done_callback]: calling a plain
    function runs its body; calling a coroutine function ([async def])
    only builds a coroutine object, whose body runs when it is awaited. *)
Inductive callable : Type :=
| Function (calls : list context_call)
| CoroutineFunction (calls : list context_call).

(** The tasks the client starts with [asyncio.create_task]. *)
Inductive task : Type :=
| DispatchTask (event_name : string) (suppress_exceptions : bool)
    (done_callbacks : list callable)
| RespondTask (message : string).

(** The state the methods of [Client] act on: the client object, the
    trace of what was done so far, the tasks created and not yet run. *)
Record state : Type := {
  client : Client;
  trace : list event;
  tasks : list task
}.

(** How a coroutine of the client stands when the model stops following
    it: it returned a value, raised, or is suspended on a future. *)
Inductive completion (A : Type) : Type :=
| Value (a : A)
| Raised (e : exn)
| Suspended.

Arguments Value {A} a.
Arguments Raised {A} e.
Arguments Suspended {A}.

Definition M (A : Type) : Type := state -> state * completion A.

#[global] Instance M_ret : MRet M := fun A a s => (s, Value a).

#[global] Instance M_bind : MBind M := fun A B f m s =>
  match m s with
  | (s', Value a) => f a s'
  | (s', Raised e) => (s', Raised e)
  | (s', Suspended) => (s', Suspended)
  end.

Definition raise {A : Type} (e : exn) : M A := fun s => (s, Raised e).

Definition suspend {A : Type} : M A := fun s => (s, Suspended).

Definition emit (es : list event) : M unit := fun s =>
  ({| client := client s; trace := trace s ++ es; tasks := tasks s |}, Value tt).

Definition create_task (t : task) : M unit := fun s =>
  ({| client := client s; trace := trace s; tasks := tasks s ++ [t] |}, Value tt).

Definition this : M Client := fun s => (s, Value (client s)).

Definition update (f : Client -> Client) : M unit := fun s =>
  ({| client := f (client s); trace := trace s; tasks := tasks s |}, Value tt).

(** The body of a [try] statement, with its completion handed to the
    [except] clauses. *)
Definition attempt {A : Type} (m : M A) : M (completion A) := fun s =>
  let '(s', r) := m s in (s', Value r).

(** [_wrap_client_callback]: the callback is called; an exception it
    raises, at the call or while its result is awaited, reaches the
    handler [except Exception], as every value of [exn] is an instance of
    [Exception]: it is logged when [suppress_exceptions] is set and raised
    again otherwise.  What the handler does not catch
    ([asyncio.CancelledError], [SystemExit], [KeyboardInterrupt]) is not
    a value of [exn]. *)
Fixpoint guarded (suppress_exceptions : bool) (id : nat) (c : Loop.coro nat)
  : Loop.coro event :=
  match c with
  | Loop.Ret None => Loop.Ret None
  | Loop.Ret (Some e) =>
      if suppress_exceptions then Loop.Emit (Logged id e) (Loop.Ret None)
      else Loop.Ret (Some e)
  | Loop.Yield k => Loop.Yield (guarded suppress_exceptions id k)
  | Loop.Emit tag k =>
      Loop.Emit (CallbackEffect id tag) (guarded suppress_exceptions id k)
  end.

Definition _wrap_client_callback (suppress_exceptions : bool) (cb : Callback)
  : Loop.coro event :=
  Loop.Emit (Called (callback_id cb))
    (guarded suppress_exceptions (callback_id cb) (body cb)).

(** The events a wrapped callback can leave in the trace. *)
Definition callback_event (e : event) : bool :=
  match e with
  | Called _ | CallbackEffect _ _ | Logged _ _ => true
  | _ => false
  end.

(** [Client.add_client_callback]; a set keeps one copy of a callback. *)
Definition add_client_callback (event_name : string) (cb : Callback)
  (self : Client) : Client :=
  let event_name := Py.lower event_name in
  match _client_callbacks self !! event_name with
  | Some cbs =>
      if existsb (fun x => callback_id x =? callback_id cb) cbs then self
      else set__client_callbacks
             (<[event_name := cbs ++ [cb]]> (_client_callbacks self)) self
  | None =>
      set__client_callbacks (<[event_name := [cb]]> (_client_callbacks self)) self
  end.

(** [Client.get_client_callbacks]. *)
Definition get_client_callbacks (event_name : string) (self : Client)
  : list Callback :=
  let event_name := Py.lower event_name in
  default [] (_client_callbacks self !! event_name).

(** What the caller of [dispatch_client_callback] observes when it is
    resumed; [None] if it never is. *)
Definition dispatch (event_name : string) (suppress_exceptions : bool)
  (self : Client) : option (Loop.settled event) :=
  let event_name := Py.lower event_name in
  match _client_callbacks self !! event_name with
  | Some (cb :: cbs) =>
      Loop.gather (List.map (_wrap_client_callback suppress_exceptions) (cb :: cbs))
  | _ => Some {| Loop.raised := None; Loop.pending := []; Loop.effects := [] |}
  end.

(** [await self.dispatch_client_callback(event_name, ...)]. *)
Definition dispatch_client_callback (event_name : string)
  (suppress_exceptions : bool) : M unit :=
  emit [Dispatched event_name suppress_exceptions] ;;
  self ← this;
  match dispatch event_name suppress_exceptions self with
  | Some r =>
      emit (Loop.effects r) ;;
      match Loop.raised r with
      | None => mret tt
      | Some e => raise e
      end
  | None => suspend
  end.

(** Modelled from the spec: [utilities.gather_checks] is not among the
    sources; the specification describes the gate as AND-combined.  The
    checks are called in iteration order. *)
Definition gather_checks (ctx : MessageContext) (checks : list Check)
  : list event * bool :=
  (List.map (fun c => CheckCalled (check_id c)) checks,
   forallb (fun c => check_fn c ctx) checks).

(** [Client.check]. *)
Definition check (ctx : MessageContext) : M bool :=
  self ← this;
  let '(es, passed) := gather_checks ctx (_checks self) in
  emit (es ++ [Checked passed]) ;; mret passed.

(** [Client._check_prefix]: the prefixes of the getter first, in the
    order it returns them, then the static set in its iteration order. *)
Definition _check_prefix (self : Client) (ctx : MessageContext) : option string :=
  match
    match _prefix_getter self with
    | Some getter => List.find (Py.startswith (content ctx)) (getter ctx)
    | None => None
    end
  with
  | Some prefix => Some prefix
  | None => List.find (Py.startswith (content ctx)) (elements (_prefixes self))
  end.

(** The [hooks] set built from the client-wide hooks and the hooks of
    one kind of command. *)
Definition combine_hooks (general specific : option Hooks)
  : option (list Hooks) :=
  match general, specific with
  | Some h, Some k => Some (if h =? k then [h] else [h; k])
  | Some h, None => Some [h]
  | None, Some k => Some [k]
  | None, None => None
  end.

(** The [for component in self._components] loop of
    [on_message_create_event]: [true] when the loop was left by [break]. *)
Fixpoint execute_message_loop (cs : list Component) (ctx : MessageContext)
  (hooks : option (list Hooks)) : M bool :=
  match cs with
  | [] => mret false
  | c :: cs' =>
      let '(tags, r) := execute_message c ctx hooks in
      emit (List.map (ComponentEffect (component_id c)) tags
            ++ [ExecuteMessage (component_id c) r]) ;;
      match r with
      | Ok true => mret true
      | Ok false => execute_message_loop cs' ctx hooks
      | Err e => raise e
      end
  end.

(** What one call of [execute_message] adds to the trace. *)
Definition message_events (ctx : MessageContext) (hooks : option (list Hooks))
  (c : Component) : list event :=
  List.map (ComponentEffect (component_id c)) (fst (execute_message c ctx hooks))
  ++ [ExecuteMessage (component_id c) (snd (execute_message c ctx hooks))].

(** The components the loop reaches: all up to the first one that does
    not return [False]. *)
Fixpoint consulted (ctx : MessageContext) (hooks : option (list Hooks))
  (cs : list Component) : list Component :=
  match cs with
  | [] => []
  | c :: cs' =>
      c :: match snd (execute_message c ctx hooks) with
           | Ok false => consulted ctx hooks cs'
           | _ => []
           end
  end.

(** How the loop ends. *)
Fixpoint loop_completion (ctx : MessageContext) (hooks : option (list Hooks))
  (cs : list Component) : completion bool :=
  match cs with
  | [] => Value false
  | c :: cs' =>
      match snd (execute_message c ctx hooks) with
      | Ok true => Value true
      | Ok false => loop_completion ctx hooks cs'
      | Err e => Raised e
      end
  end.

(** The context once the matched prefix is taken off:
    [ctx.set_content(ctx.content.lstrip()[len(prefix):].lstrip())
        .set_triggering_prefix(prefix)]. *)
Definition after_prefix (prefix : string) (ctx : MessageContext) : MessageContext :=
  set_triggering_prefix prefix
    (set_content
       (Py.lstrip (Py.drop (String.length prefix) (Py.lstrip (content ctx))))
       ctx).

(** [Client.on_message_create_event]; the argument is
    [event.message.content]. *)
Definition on_message_create_event (text : option string) : M unit :=
  match text with
  | None => mret tt
  | Some text =>
      self ← this;
      let ctx := {| content := text; triggering_prefix := None |} in
      match _check_prefix self ctx with
      | None => mret tt
      | Some prefix =>
          let ctx := after_prefix prefix ctx in
          passed ← check ctx;
          if negb passed then mret tt
          else
            let hooks := combine_hooks (_hooks self) (_message_hooks self) in
            r ← attempt (execute_message_loop (_components self) ctx hooks);
            match r with
            | Raised (CommandError message) => emit [Responded message]
            | Raised HaltExecution | Value _ =>
                dispatch_client_callback MESSAGE_COMMAND_NOT_FOUND true
            | Raised e => raise e
            | Suspended => suspend
            end
      end
  end.

(** The retry loop of [Client.open] around [rest.fetch_my_user]:
    [iterations] is what the backoff iterator still yields, [k] counts the
    calls made so far.  When the iterator is exhausted the [else] clause
    of the loop makes one last call, outside any [try]. *)
Fixpoint fetch_loop (env : Environment) (iterations k : nat) : M N :=
  match iterations with
  | O =>
      emit [Fetched] ;;
      match fetch_my_user env k with
      | User id => mret id
      | RateLimited retry_after => raise (RateLimitedError retry_after)
      | ServerError => raise InternalServerError
      | Failure e => raise e
      end
  | S iterations' =>
      emit [Fetched] ;;
      match fetch_my_user env k with
      | User id => mret id
      | RateLimited retry_after =>
          if Qle_bool retry_after 30 then
            emit [NextBackoff retry_after] ;;
            fetch_loop env iterations' (S k)
          else raise (RateLimitedError retry_after)
      | ServerError => fetch_loop env iterations' (S k)
      | Failure e => raise e
      end
  end.

(** The answers the loop retries on: a server error, or a rate limit
    whose wait does not exceed the ceiling of thirty seconds. *)
Definition retryable (reply : fetch_reply) : bool :=
  match reply with
  | ServerError => true
  | RateLimited retry_after => Qle_bool retry_after 30
  | _ => false
  end.

(** The exception an answer stands for, if it is an error. *)
Definition reply_error (reply : fetch_reply) : option exn :=
  match reply with
  | User _ => None
  | RateLimited retry_after => Some (RateLimitedError retry_after)
  | ServerError => Some InternalServerError
  | Failure e => Some e
  end.

(** How many calls of [rest.fetch_my_user] a trace holds. *)
Fixpoint fetches (t : list event) : nat :=
  match t with
  | [] => 0
  | Fetched :: t' => S (fetches t')
  | _ :: t' => fetches t'
  end.

(** The two mention prefixes of a user id. *)
Definition mention_prefixes (id : N) : string * string :=
  ("<@" +:+ Py.str_of_N id +:+ ">", "<@!" +:+ Py.str_of_N id +:+ ">").

(** [Client.open]. *)
Definition open (env : Environment) (register_listener : bool) : M unit :=
  self ← this;
  if _is_alive self then raise (RuntimeError "Client is already alive")
  else
    dispatch_client_callback STARTING false ;;
    update (set__is_alive true) ;;
    (if _grab_mention_prefix self then
       user ← match _cache self with
              | Some me => emit [CacheAsked] ;; mret me
              | None => mret None
              end;
       id ← match user with
            | Some id => mret id
            | None => fetch_loop env (backoff_iterations env) 0
            end;
       update (fun c => set__prefixes ({[fst (mention_prefixes id)]} ∪ _prefixes c) c) ;;
       update (fun c => set__prefixes ({[snd (mention_prefixes id)]} ∪ _prefixes c) c) ;;
       update (set__grab_mention_prefix false)
     else mret tt) ;;
    (if register_listener && _events self then
       match get_event_type (_accepts self) with
       | Some event_type => emit [Subscribed event_type]
       | None => mret tt
       end ;;
       emit [Subscribed InteractionCreateEvent]
     else mret tt) ;;
    (if _server self then emit [ListenerSet true] else mret tt) ;;
    create_task (DispatchTask STARTED false []).

(** [Client.close]. *)
Definition close (deregister_listener : bool) : M unit :=
  self ← this;
  if negb (_is_alive self) then raise (RuntimeError "Client isn't active")
  else
    dispatch_client_callback CLOSING true ;;
    (if deregister_listener && _events self then
       match get_event_type (_accepts self) with
       | Some event_type => emit [Unsubscribed event_type]
       | None => mret tt
       end ;;
       emit [Unsubscribed InteractionCreateEvent] ;;
       (if _server self then emit [ListenerSet false] else mret tt)
     else mret tt) ;;
    dispatch_client_callback CLOSED true.

(** [Client.set_auto_defer_after]. *)
Definition set_auto_defer_after (time : option Q) (self : Client) : Client :=
  set__auto_defer_after time self.

(** The [for component in self._components] loop of
    [on_interaction_create_request]: [true] when a component returned a
    truthy value. *)
Fixpoint execute_interaction_loop (cs : list Component) (ctx : SlashContext)
  (hooks : option (list Hooks)) : M bool :=
  match cs with
  | [] => mret false
  | c :: cs' =>
      let '(tags, r) := execute_interaction c ctx hooks in
      emit (List.map (ComponentEffect (component_id c)) tags
            ++ [ExecuteInteraction (component_id c) r]) ;;
      match r with
      | Ok true => mret true
      | Ok false => execute_interaction_loop cs' ctx hooks
      | Err e => raise e
      end
  end.

(** [Client.on_interaction_create_request].  Every [return await future]
    leaves the coroutine suspended on the response future, which only the
    context resolves. *)
Definition on_interaction_create_request (interaction : nat) : M unit :=
  self ← this;
  let ctx := {| interaction := interaction;
                not_found_message := _interaction_not_found self |} in
  match _auto_defer_after self with
  | Some after => emit [OnContext (StartDeferTimer after)]
  | None => mret tt
  end ;;
  let hooks := combine_hooks (_hooks self) (_slash_hooks self) in
  emit [OnContext GetResponseFuture] ;;
  r ← attempt (execute_interaction_loop (_components self) ctx hooks);
  match r with
  | Value true => suspend
  | Raised (CommandError message) =>
      create_task (RespondTask message) ;; suspend
  | Raised HaltExecution | Value false =>
      create_task
        (DispatchTask SLASH_COMMAND_NOT_FOUND true
           [CoroutineFunction [MarkNotFound; CancelDefer]]) ;;
      suspend
  | Raised e => raise e
  | Suspended => suspend
  end.

(** What the event loop does with a done-callback: it calls it and drops
    what the call returns. *)
Definition call_soon (f : callable) : list event :=
  match f with
  | Function calls => List.map OnContext calls
  | CoroutineFunction _ => [NeverAwaited]
  end.

(** Running a task to its end: its own effects, then its done-callbacks. *)
Definition run_task (self : Client) (t : task) : list event :=
  match t with
  | DispatchTask event_name suppress_exceptions done_callbacks =>
      Dispatched event_name suppress_exceptions
      :: match dispatch event_name suppress_exceptions self with
         | Some r => Loop.effects r
         | None => []
         end
      ++ flat_map call_soon done_callbacks
  | RespondTask message => [OnContext (Respond message)]
  end.

(** The trace once the loop has run every task that was created. *)
Definition settle (s : state) : list event :=
  trace s ++ flat_map (run_task (client s)) (tasks s).

(** The state of a client with trace [t] and no task waiting. *)
Definition at_trace (self : Client) (t : list event) : state :=
  {| client := self; trace := t; tasks := [] |}.

(** Running a method on a client from an empty trace. *)
Definition run {A : Type} (m : M A) (self : Client) : state * completion A :=
  m {| client := self; trace := []; tasks := [] |}.

(** Modelled from the spec: [context.SlashContext] is not among the
    sources.  The calls that give the response future its result are a
    response, and the not-found response when a not-found message is
    configured; a deferral timer that was started and never cancelled
    gives it the deferred response when it fires. *)
Definition resolves (ctx_not_found : option string) (e : event) : bool :=
  match e with
  | OnContext (Respond _) => true
  | OnContext MarkNotFound => bool_decide (is_Some ctx_not_found)
  | _ => false
  end.

Definition is_start_timer (e : event) : bool :=
  match e with OnContext (StartDeferTimer _) => true | _ => false end.

Definition is_cancel_defer (e : event) : bool :=
  match e with OnContext CancelDefer => true | _ => false end.

Definition future_resolved (ctx_not_found : option string) (t : list event)
  : bool :=
  existsb (resolves ctx_not_found) t
  || (existsb is_start_timer t && negb (existsb is_cancel_defer t)).

End Clients.

(** ** The specification's sentences, as it words them *)

Module Spec.

Import Clients.

(** The trace of one inbound message event. *)
Definition message_trace (self : Client) (text : option string) : list event :=
  trace (fst (run (on_message_create_event text) self)).

(** The lifecycle callback [event_name] was fired. *)
Definition fires (event_name : string) (t : list event) : Prop :=
  exists suppress_exceptions, In (Dispatched event_name suppress_exceptions) t.

(** How many times it was fired. *)
Fixpoint firings (event_name : string) (t : list event) : nat :=
  match t with
  | [] => 0
  | Dispatched n _ :: t' =>
      (if String.eqb n event_name then 1 else 0) + firings event_name t'
  | _ :: t' => firings event_name t'
  end.

(** The client sent a response. *)
Definition responds (t : list event) : Prop := exists message, In (Responded message) t.

(** A component reported that it found and invoked a command. *)
Definition command_executed (t : list event) : Prop :=
  exists component, In (ExecuteMessage component (Ok true)) t.

(** The client's check gate was evaluated and failed. *)
Definition ignored_by_check (t : list event) : Prop := In (Checked false) t.

Definition exactly_one (A B C : Prop) : Prop :=
  (A /\ ~ B /\ ~ C) \/ (~ A /\ B /\ ~ C) \/ (~ A /\ ~ B /\ C).

(** "Exactly one of command executed, not-found callback fired, silently
    ignored by a failing global check occurs per inbound message event",
    and a found command excludes the not-found callback. *)
Definition one_outcome_per_message (self : Client) (text : option string) : Prop :=
  let t := message_trace self text in
  exactly_one (command_executed t) (fires MESSAGE_COMMAND_NOT_FOUND t)
              (ignored_by_check t)
  /\ (command_executed t -> ~ fires MESSAGE_COMMAND_NOT_FOUND t).

(** The content starts with no configured prefix: none the prefix getter
    returns, none of the static set. *)
Definition no_configured_prefix (self : Client) (text : string) : Prop :=
  (forall getter p,
     _prefix_getter self = Some getter ->
     In p (getter {| content := text; triggering_prefix := None |}) ->
     Py.startswith text p = false)
  /\ (forall p, p ∈ _prefixes self -> Py.startswith text p = false).

(** "No prefix match: dispatch a MESSAGE_COMMAND_NOT_FOUND lifecycle
    callback and stop (no response sent)". *)
Definition no_prefix_fires_not_found (self : Client) (text : string) : Prop :=
  no_configured_prefix self text ->
  snd (run (on_message_create_event (Some text)) self) = Value tt
  /\ ~ responds (message_trace self (Some text))
  /\ fires MESSAGE_COMMAND_NOT_FOUND (message_trace self (Some text)).

(** No component of [cs] reports a match. *)
Definition none_matches (ctx : MessageContext) (hooks : option (list Hooks))
  (cs : list Component) : Prop :=
  forall c, In c cs -> snd (execute_message c ctx hooks) = Ok false.

(** The first component of [cs] that does not return [False] ends its
    call with [r]. *)
Definition first_decisive (ctx : MessageContext) (hooks : option (list Hooks))
  (cs : list Component) (r : result bool) : Prop :=
  exists before c after,
    cs = before ++ c :: after /\ none_matches ctx hooks before
    /\ snd (execute_message c ctx hooks) = r /\ r <> Ok false.




End Spec.

(** ** Concrete clients, components and callbacks *)

Module Examples.

Import Clients.

(** A client whose only prefix is the exclamation mark. *)
Definition bang_client : Client := set__prefixes {["!"]} new_client.

(** A component with a [ping] command. *)
Definition ping_component : Component :=
  {| component_id := 1;
     execute_message := fun ctx _ =>
       if String.eqb (content ctx) "ping" then ([0], Ok true) else ([], Ok false);
     execute_interaction := fun _ _ => ([], Ok false) |}.

Definition with_components (cs : list Component) (self : Client) : Client :=
  {| _accepts := _accepts self; _auto_defer_after := _auto_defer_after self;
     _cache := _cache self; _checks := _checks self;
     _client_callbacks := _client_callbacks self;
     _components := cs; _events := _events self;
     _grab_mention_prefix := _grab_mention_prefix self; _hooks := _hooks self;
     _interaction_not_found := _interaction_not_found self;
     _slash_hooks := _slash_hooks self; _is_alive := _is_alive self;
     _message_hooks := _message_hooks self;
     _prefix_getter := _prefix_getter self; _prefixes := _prefixes self;
     _server := _server self |}.

Definition with_checks (cs : list Check) (self : Client) : Client :=
  {| _accepts := _accepts self; _auto_defer_after := _auto_defer_after self;
     _cache := _cache self; _checks := cs;
     _client_callbacks := _client_callbacks self;
     _components := _components self; _events := _events self;
     _grab_mention_prefix := _grab_mention_prefix self; _hooks := _hooks self;
     _interaction_not_found := _interaction_not_found self;
     _slash_hooks := _slash_hooks self; _is_alive := _is_alive self;
     _message_hooks := _message_hooks self;
     _prefix_getter := _prefix_getter self; _prefixes := _prefixes self;
     _server := _server self |}.

Definition ping_client : Client := with_components [ping_component] bang_client.

(** A check that always fails. *)
Definition never : Check := {| check_id := 7; check_fn := fun _ => false |}.

Definition guarded_client : Client := with_checks [never] ping_client.

(** A callback that raises as soon as it is called, and one that
    suspends three times before it does its work. *)
Definition failing_callback : Callback :=
  {| callback_id := 1; body := Loop.Ret (Some (OtherError "boom")) |}.

Definition slow_callback : Callback :=
  {| callback_id := 2;
     body := Loop.Yield (Loop.Yield (Loop.Yield (Loop.Emit 7 (Loop.Ret None)))) |}.

Definition starting_client : Client :=
  add_client_callback "Starting" slow_callback
    (add_client_callback "STARTING" failing_callback new_client).

(** A REST client that always answers with a server error, and a
    backoff iterator that yields five times. *)
Definition failing_rest : Environment :=
  {| fetch_my_user := fun _ => ServerError; backoff_iterations := 5 |}.

(** A client with no command and automatic deferral switched off. *)
Definition undeferred_client : Client := set_auto_defer_after None new_client.

(** A started component with one check and one command. *)
Definition sample_check : Components.Check :=
  {| Components.check_id := 3; Components.check_fn := fun _ => true |}.

Definition sample_command : Components.ExecutableCommand :=
  {| Components.command_id := 4;
     Components.check_context_of := fun ctx =>
       if String.prefix "ping" (Components.content ctx)
       then [ {| Components.name := "ping";
                 Components.found :=
                   {| Components.exec_id := 4;
                      Components.exec_fn := fun _ _ => None |} |} ]
       else [] |}.

Definition sample_component (is_started : bool) : Components.Component :=
  {| Components._checks := [sample_check];
     Components._client := Some 0;
     Components._commands := [sample_command];
     Components.hooks := None;
     Components._listeners := [(0, 0)];
     Components.started := is_started |}.

Definition sample_context : Components.Context :=
  {| Components.content := "ping  me";
     Components.triggering_name := None;
     Components.command := None |}.

(** A client that acquires its mention prefix when it is opened, and a
    REST client that answers with a server error, then a rate limit of
    five seconds, then the user 42. *)
Definition mention_client : Client := set__grab_mention_prefix true new_client.

Definition recovering_rest : Environment :=
  {| fetch_my_user := fun k =>
       match k with
       | 0 => ServerError
       | 1 => RateLimited 5
       | _ => User 42
       end;
     backoff_iterations := 5 |}.

End Examples.

(** ** Decimal numerals *)

Module Numerals.

(** The value of a decimal numeral read from its most significant digit,
    with [acc] the value of the digits already read. *)
Fixpoint uint_value (acc : N) (d : Decimal.uint) : N :=
  match d with
  | Decimal.Nil => acc
  | Decimal.D0 l => uint_value (10 * acc + 0) l
  | Decimal.D1 l => uint_value (10 * acc + 1) l
  | Decimal.D2 l => uint_value (10 * acc + 2) l
  | Decimal.D3 l => uint_value (10 * acc + 3) l
  | Decimal.D4 l => uint_value (10 * acc + 4) l
  | Decimal.D5 l => uint_value (10 * acc + 5) l
  | Decimal.D6 l => uint_value (10 * acc + 6) l
  | Decimal.D7 l => uint_value (10 * acc + 7) l
  | Decimal.D8 l => uint_value (10 * acc + 8) l
  | Decimal.D9 l => uint_value (10 * acc + 9) l
  end%N.

End Numerals.

(** ** What [open] and [close] leave in the trace *)

Module Lifecycle.

Import Clients.

(** The events of subscribing the listeners in [open]. *)
Definition listening (register_listener : bool) (self : Client) : list event :=
  (if register_listener && _events self
   then match get_event_type (_accepts self) with
        | Some t => [Subscribed t]
        | None => []
        end ++ [Subscribed InteractionCreateEvent]
   else [])
  ++ (if _server self then [ListenerSet true] else []).

(** The events of removing them in [close]. *)
Definition unlistening (deregister_listener : bool) (self : Client) : list event :=
  if deregister_listener && _events self
  then match get_event_type (_accepts self) with
       | Some t => [Unsubscribed t]
       | None => []
       end
       ++ [Unsubscribed InteractionCreateEvent]
       ++ (if _server self then [ListenerSet false] else [])
  else [].

(** The events of looking the bot's user up in the cache. *)
Definition cache_lookup (self : Client) : list event :=
  match _cache self with
  | Some _ => [CacheAsked]
  | None => []
  end.


(** The events [open] leaves in the trace before it registers its
    listeners: the STARTING dispatch, what the callbacks do, the cache
    lookup and the retry loop. *)
Definition preparing (ev : event) : bool :=
  match ev with
  | Dispatched _ _ | Called _ | CallbackEffect _ _ | Logged _ _
  | CacheAsked | Fetched | NextBackoff _ => true
  | _ => false
  end.

(** The events of a dispatch: the firing and what the callbacks do. *)
Definition dispatching (ev : event) : bool :=
  match ev with
  | Dispatched _ _ | Called _ | CallbackEffect _ _ | Logged _ _ => true
  | _ => false
  end.

End Lifecycle.

(** ** More concrete clients *)

Module Samples.

Import Clients.

(** A client that acquires its mention prefix and finds its user, 42, in
    the cache. *)
Definition cached_client : Client :=
  {| _accepts := NONE; _auto_defer_after := Some (26 # 10);
     _cache := Some (Some 42%N); _checks := [];
     _client_callbacks := ∅; _components := []; _events := false;
     _grab_mention_prefix := true; _hooks := None;
     _interaction_not_found := Some "Command not found";
     _slash_hooks := None; _is_alive := false; _message_hooks := None;
     _prefix_getter := None; _prefixes := ∅; _server := false |}.

(** A client built around a REST bot: an interaction server and no event
    manager. *)
Definition rest_only_client : Client :=
  {| _accepts := NONE; _auto_defer_after := Some (26 # 10);
     _cache := None; _checks := [];
     _client_callbacks := ∅; _components := []; _events := false;
     _grab_mention_prefix := false; _hooks := None;
     _interaction_not_found := Some "Command not found";
     _slash_hooks := None; _is_alive := false; _message_hooks := None;
     _prefix_getter := None; _prefixes := ∅; _server := true |}.

(** A client built around a gateway bot, already opened. *)
Definition gateway_client : Client :=
  {| _accepts := ALL; _auto_defer_after := Some (26 # 10);
     _cache := None; _checks := [];
     _client_callbacks := ∅; _components := []; _events := true;
     _grab_mention_prefix := false; _hooks := None;
     _interaction_not_found := Some "Command not found";
     _slash_hooks := None; _is_alive := true; _message_hooks := None;
     _prefix_getter := None; _prefixes := ∅; _server := false |}.

(** A REST client that refuses the first call. *)
Definition refusing_rest : Environment :=
  {| fetch_my_user := fun _ => Failure (OtherError "ForbiddenError");
     backoff_iterations := 5 |}.


(** A gateway client that was not opened yet. *)
Definition fresh_gateway_client : Client := set__is_alive false gateway_client.

(** A callback that fails while it is awaited. *)
Definition late_failing_callback : Callback :=
  {| callback_id := 5;
     body := Loop.Yield (Loop.Emit 9 (Loop.Ret (Some (OtherError "late")))) |}.

(** A live gateway client whose CLOSING callback fails. *)
Definition closing_client : Client :=
  add_client_callback "closing" late_failing_callback gateway_client.

End Samples.

(** ** Callbacks, prefixes and accepted messages *)

Module Registry.

Import Clients.

Definition set__accepts (accepts : MessageAcceptsEnum) (self : Client) : Client :=
  {| _accepts := accepts; _auto_defer_after := _auto_defer_after self;
     _cache := _cache self; _checks := _checks self;
     _client_callbacks := _client_callbacks self;
     _components := _components self; _events := _events self;
     _grab_mention_prefix := _grab_mention_prefix self; _hooks := _hooks self;
     _interaction_not_found := _interaction_not_found self;
     _slash_hooks := _slash_hooks self; _is_alive := _is_alive self;
     _message_hooks := _message_hooks self;
     _prefix_getter := _prefix_getter self; _prefixes := _prefixes self;
     _server := _server self |}.

(** Whether a callback is the given one: callbacks are compared by
    identity. *)
Definition same_callback (cb x : Callback) : bool :=
  callback_id x =? callback_id cb.

(** [Client.remove_client_callback]: the subscript raises [KeyError]
    when nothing is registered under the name, [set.remove] raises
    [KeyError] when the callback is not in the set, and a name whose set
    becomes empty is deleted. *)
Definition remove_client_callback (event_name : string) (cb : Callback)
  (self : Client) : result Client :=
  let event_name := Py.lower event_name in
  match _client_callbacks self !! event_name with
  | None => Err (KeyError event_name)
  | Some cbs =>
      if existsb (same_callback cb) cbs then
        let cbs' := List.filter (fun x => negb (same_callback cb x)) cbs in
        Ok (set__client_callbacks
              (match cbs' with
               | [] => delete event_name (_client_callbacks self)
               | _ :: _ => <[event_name := cbs']> (_client_callbacks self)
               end) self)
      else Err (KeyError "callback")
  end.

(** The argument of [Client.add_prefix]: one prefix, or an iterable of
    prefixes. *)
Inductive prefixes_arg : Type :=
| One (prefix : string)
| Many (prefixes : list string).

(** [Client.add_prefix]. *)
Definition add_prefix (prefixes : prefixes_arg) (self : Client) : Client :=
  match prefixes with
  | One prefix => set__prefixes ({[prefix]} ∪ _prefixes self) self
  | Many prefixes => set__prefixes (list_to_set prefixes ∪ _prefixes self) self
  end.

(** [Client.remove_prefix]: [set.remove] raises [KeyError] on a prefix
    that is not in the set. *)
Definition remove_prefix (prefix : string) (self : Client) : result Client :=
  if bool_decide (prefix ∈ _prefixes self)
  then Ok (set__prefixes (_prefixes self ∖ {[prefix]}) self)
  else Err (KeyError prefix).

(** [Client.set_message_accepts]. *)
Definition set_message_accepts (accepts : MessageAcceptsEnum) (self : Client)
  : result Client :=
  match get_event_type accepts with
  | Some _ =>
      if negb (_events self)
      then Err (ValueError
                  "Cannot set accepts level on a client with no event manager")
      else Ok (set__accepts accepts self)
  | None => Ok (set__accepts accepts self)
  end.


(** The prefixes an argument of [add_prefix] stands for. *)
Definition prefixes_of (prefixes : prefixes_arg) : list string :=
  match prefixes with
  | One prefix => [prefix]
  | Many prefixes => prefixes
  end.

End Registry.

(** ** A client with callbacks and prefixes *)

Module RegistrySamples.

Import Clients Registry.

Definition first_callback : Callback :=
  {| callback_id := 11; body := Loop.Emit 1 (Loop.Ret None) |}.

Definition second_callback : Callback :=
  {| callback_id := 12; body := Loop.Ret None |}.

(** A client with one callback registered under CLOSED. *)
Definition one_callback_client : Client :=
  add_client_callback "Closed" first_callback new_client.

(** A live gateway client, opened while it accepted every message. *)
Definition opened_gateway_client : Client :=
  set__is_alive true Samples.fresh_gateway_client.

(** A client with the static prefix [!] and a prefix getter that only
    ever returns [?]. *)
Definition question_getter_client : Client :=
  {| _accepts := NONE; _auto_defer_after := None; _cache := None;
     _checks := []; _client_callbacks := ∅; _components := [];
     _events := false; _grab_mention_prefix := false; _hooks := None;
     _interaction_not_found := None; _slash_hooks := None;
     _is_alive := false; _message_hooks := None;
     _prefix_getter := Some (fun _ => ["?"]);
     _prefixes := {["!"]}; _server := false |}.

End RegistrySamples.

(** ** Interactions received as gateway events *)

Module Interactions.

Import Clients.

Section WithFutures.

(** What awaiting the future that a component's [execute_interaction]
    returned does: opaque effects of the component, then the future
    completes or raises.  The futures are made outside the sources. *)
Variable await_future : Component -> SlashContext -> list nat * option exn.

(** The [for component in self._components] loop of
    [on_interaction_create_event]: [true] when a component returned a
    future, which is awaited inside the [try] before the handler returns. *)
Fixpoint execute_interaction_event_loop (cs : list Component)
  (ctx : SlashContext) (hooks : option (list Hooks)) : M bool :=
  match cs with
  | [] => mret false
  | c :: cs' =>
      let '(tags, r) := execute_interaction c ctx hooks in
      emit (List.map (ComponentEffect (component_id c)) tags
            ++ [ExecuteInteraction (component_id c) r]) ;;
      match r with
      | Ok true =>
          let '(tags', failure) := await_future c ctx in
          emit (List.map (ComponentEffect (component_id c)) tags') ;;
          match failure with
          | None => mret true
          | Some e => raise e
          end
      | Ok false => execute_interaction_event_loop cs' ctx hooks
      | Err e => raise e
      end
  end.

(** [Client.on_interaction_create_event]; the argument is the id of
    [event.interaction] when it is a [CommandInteraction]. *)
Definition on_interaction_create_event (interaction : option nat) : M unit :=
  match interaction with
  | None => mret tt
  | Some interaction =>
      self ← this;
      let ctx := {| interaction := interaction;
                    not_found_message := _interaction_not_found self |} in
      let hooks := combine_hooks (_hooks self) (_slash_hooks self) in
      match _auto_defer_after self with
      | Some after => emit [OnContext (StartDeferTimer after)]
      | None => mret tt
      end ;;
      r ← attempt (execute_interaction_event_loop (_components self) ctx hooks);
      match r with
      | Value true => mret tt
      | Raised (CommandError message) => emit [OnContext (Respond message)]
      | Raised HaltExecution | Value false =>
          dispatch_client_callback SLASH_COMMAND_NOT_FOUND true ;;
          emit [OnContext MarkNotFound] ;;
          emit [OnContext CancelDefer]
      | Raised e => raise e
      | Suspended => suspend
      end
  end.

End WithFutures.

(** The events of the component loop. *)
Definition component_event (e : event) : bool :=
  match e with
  | ComponentEffect _ _ | ExecuteInteraction _ _ => true
  | OnContext (StartDeferTimer _) => true
  | _ => false
  end.

(** A component that finds the command of every interaction, and one
    that never does. *)
Definition finding_component : Component :=
  {| component_id := 21;
     execute_message := fun _ _ => ([], Ok false);
     execute_interaction := fun _ _ => ([1], Ok true) |}.

Definition blind_component : Component :=
  {| component_id := 22;
     execute_message := fun _ _ => ([], Ok false);
     execute_interaction := fun _ _ => ([], Ok false) |}.

Definition slash_client : Client :=
  {| _accepts := NONE; _auto_defer_after := Some (26 # 10);
     _cache := None; _checks := [];
     _client_callbacks := ∅;
     _components := [blind_component; finding_component; blind_component];
     _events := true;
     _grab_mention_prefix := false; _hooks := None;
     _interaction_not_found := Some "Command not found";
     _slash_hooks := None; _is_alive := true; _message_hooks := None;
     _prefix_getter := None; _prefixes := ∅; _server := false |}.

Definition blind_client : Client :=
  {| _accepts := NONE; _auto_defer_after := Some (26 # 10);
     _cache := None; _checks := [];
     _client_callbacks := ∅;
     _components := [blind_component; blind_component];
     _events := true;
     _grab_mention_prefix := false; _hooks := None;
     _interaction_not_found := Some "Command not found";
     _slash_hooks := None; _is_alive := true; _message_hooks := None;
     _prefix_getter := None; _prefixes := ∅; _server := false |}.

(** Futures that complete at once. *)
Definition prompt_future (c : Component) (ctx : SlashContext)
  : list nat * option exn := ([], None).

(** A component that finds the command and returns a future that raises
    a command error, and a client made of it. *)
Definition failing_future (c : Component) (ctx : SlashContext)
  : list nat * option exn := ([2], Some (CommandError "no permission")).

Definition finding_client : Client :=
  {| _accepts := NONE; _auto_defer_after := None;
     _cache := None; _checks := [];
     _client_callbacks := ∅;
     _components := [blind_component; finding_component];
     _events := true;
     _grab_mention_prefix := false; _hooks := None;
     _interaction_not_found := Some "Command not found";
     _slash_hooks := None; _is_alive := true; _message_hooks := None;
     _prefix_getter := None; _prefixes := ∅; _server := false |}.

End Interactions.

(** ** More components *)

Module ComponentSamples.

Import Components.

Definition refusing_check : Check :=
  {| check_id := 5; check_fn := fun _ => false |}.

(** A command that never matches. *)
Definition silent_command : ExecutableCommand :=
  {| command_id := 6; check_context_of := fun _ => [] |}.

(** A started component whose second check refuses every context. *)
Definition guarded_component : Component :=
  {| _checks := [Examples.sample_check; refusing_check];
     _client := Some 0;
     _commands := [Examples.sample_command];
     hooks := None;
     _listeners := [(0, 0)];
     started := true |}.

(** A started component with a command that never matches before, and
    one after, the command that matches. *)
Definition busy_component : Component :=
  {| _checks := [Examples.sample_check];
     _client := Some 0;
     _commands := [silent_command; Examples.sample_command; silent_command];
     hooks := Some 7;
     _listeners := [(0, 0); (1, 1)];
     started := true |}.

(** A dispatcher that keeps the list of subscriptions and refuses to
    unsubscribe what is not subscribed. *)
Definition same_listener (l x : Listener) : bool :=
  (fst x =? fst l) && (snd x =? snd l).

Definition list_subscribe (l : Listener) (d : list Listener) : list Listener :=
  l :: d.

Definition list_unsubscribe (l : Listener) (d : list Listener)
  : result (list Listener) :=
  if existsb (same_listener l) d
  then Ok (List.filter (fun x => negb (same_listener l x)) d)
  else Err (ValueError "not subscribed").

End ComponentSamples.

(** ** conversion.py: converters bound to the cache *)

Module Converters.

Import Conversion.

(** The cache reached through [ctx.client.cache.cache], as far as the
    two converters below query it; the objects it holds are kept by
    identity. *)
Record Cache : Type := {
  get_member : Z -> Z -> option nat;
  get_user : Z -> option nat
}.

(** [traits.Context] as far as the converters read it:
    [ctx.client.cache] and [ctx.message.guild_id]. *)
Record Context : Type := {
  cache : option Cache;
  guild_id : option Z
}.

Definition cacheless : exn :=
  RuntimeError "Cache bound converter cannot be used with a cache-less client.".

Module UserConverter.

(** [UserConverter.convert]. *)
Definition convert (ctx : Context) (argument : string) : result nat :=
  match cache ctx with
  | None => Err cacheless
  | Some c =>
      match match_id _UserIDParser argument with
      | Err e => Err e
      | Ok user_id =>
          match get_user c user_id with
          | Some user => Ok user
          | None => Err (ValueError "Couldn't find user")
          end
      end
  end.

End UserConverter.

Module MemberConverter.

(** [MemberConverter.convert]. *)
Definition convert (ctx : Context) (argument : string) : result nat :=
  match cache ctx with
  | None => Err cacheless
  | Some c =>
      match guild_id ctx with
      | None => Err (ValueError "Cannot get a member from a DM channel")
      | Some guild =>
          match match_id _UserIDParser argument with
          | Err e => Err e
          | Ok member_id =>
              match get_member c guild member_id with
              | Some member => Ok member
              | None => Err (ValueError "Couldn't find member in this guild")
              end
          end
      end
  end.

End MemberConverter.

(** A cache that knows the user 42, and a context in a guild. *)
Definition sample_cache : Cache :=
  {| get_member := fun _ _ => None;
     get_user := fun id => if (id =? 42)%Z then Some 1 else None |}.

Definition sample_context : Context :=
  {| cache := Some sample_cache; guild_id := Some 7%Z |}.

End Converters.

(** ** Declaring the global slash commands *)

Module GlobalCommands.

(** A slash command of a component, as far as [set_global_commands]
    reads it; [build()] gives a builder that is kept by the identity of
    its command. *)
Record SlashCommand : Type := {
  command_id : nat;
  name : string;
  is_global : bool
}.

(** The calls made on the REST client and on the commands. *)
Inductive call : Type :=
| FetchApplication
| FetchAuthorization
| SetApplicationCommands (application : nat) (builders : list nat)
| SetTrackedCommand (command : nat) (tracked : nat).

(** The REST client: its token type and its answers.  A command of the
    answer of [set_application_commands] is its name and its identity. *)
Record Rest : Type := {
  token_type_is_bot : bool;
  fetch_application : result nat;
  fetch_authorization : result nat;
  set_application_commands : nat -> list nat -> result (list (string * nat))
}.

(** What a call leaves behind: [_cached_application_id], the calls made
    and the value returned or the exception raised. *)
Record outcome (A : Type) : Type := {
  cached_application_id : option nat;
  calls : list call;
  returned : result A
}.

Arguments cached_application_id {A} _.
Arguments calls {A} _.
Arguments returned {A} _.

(** The truth value of an optional id: [None] and [0] are falsy. *)
Definition truthy (id : option nat) : option nat :=
  match id with
  | Some (S n) => Some (S n)
  | _ => None
  end.

(** [Client.fetch_rest_application_id]. *)
Definition fetch_rest_application_id (rest : Rest) (cached : option nat)
  : outcome nat :=
  match truthy cached with
  | Some id => {| cached_application_id := cached; calls := []; returned := Ok id |}
  | None =>
      if token_type_is_bot rest then
        match fetch_application rest with
        | Ok application =>
            {| cached_application_id := Some application;
               calls := [FetchApplication]; returned := Ok application |}
        | Err e =>
            {| cached_application_id := cached;
               calls := [FetchApplication]; returned := Err e |}
        end
      else
        match fetch_authorization rest with
        | Ok application =>
            {| cached_application_id := Some application;
               calls := [FetchAuthorization]; returned := Ok application |}
        | Err e =>
            {| cached_application_id := cached;
               calls := [FetchAuthorization]; returned := Err e |}
        end
  end.

(** The first loop of [set_global_commands] over the commands of all
    components: the names seen, the names seen twice, the builders. *)
Fixpoint scan (commands : list SlashCommand)
  (found_top_names conflicts : gset string) (builders : list nat)
  : gset string * gset string * list nat :=
  match commands with
  | [] => (found_top_names, conflicts, builders)
  | command :: rest =>
      if negb (is_global command) then
        scan rest found_top_names conflicts builders
      else
        scan rest ({[name command]} ∪ found_top_names)
          (if bool_decide (name command ∈ found_top_names)
           then {[name command]} ∪ conflicts else conflicts)
          (builders ++ [command_id command])
  end.

(** [sep.join(l)]. *)
Fixpoint join (sep : string) (l : list string) : string :=
  match l with
  | [] => ""
  | [x] => x
  | x :: l' => x +:+ sep +:+ join sep l'
  end.

(** [{command.name: command for command in commands}]: a later command
    replaces an earlier one of the same name. *)
Definition names_to_commands (commands : list (string * nat)) : gmap string nat :=
  fold_left (fun m c => <[fst c := snd c]> m) commands ∅.

(** The second loop: each global command is given the command of the
    answer that bears its name; the subscript raises [KeyError] when
    there is none. *)
Fixpoint track (by_name : gmap string nat) (commands : list SlashCommand)
  : list call * option exn :=
  match commands with
  | [] => ([], None)
  | command :: rest =>
      if is_global command then
        match by_name !! name command with
        | Some tracked =>
            let '(cs, r) := track by_name rest in
            (SetTrackedCommand (command_id command) tracked :: cs, r)
        | None => ([], Some (KeyError (name command)))
        end
      else track by_name rest
  end.

(** [Client.set_global_commands]; [components] holds the
    [slash_commands] of each component. *)
Definition set_global_commands (rest : Rest) (application : option nat)
  (cached : option nat) (components : list (list SlashCommand))
  : outcome (list (string * nat)) :=
  let resolved :=
    match truthy application with
    | Some id => {| cached_application_id := cached; calls := []; returned := Ok id |}
    | None =>
        match truthy cached with
        | Some id =>
            {| cached_application_id := cached; calls := []; returned := Ok id |}
        | None => fetch_rest_application_id rest cached
        end
    end in
  match returned resolved with
  | Err e =>
      {| cached_application_id := cached_application_id resolved;
         calls := calls resolved; returned := Err e |}
  | Ok application =>
      let '(_, conflicts, builders) := scan (concat components) ∅ ∅ [] in
      if negb (bool_decide (conflicts = ∅)) then
        {| cached_application_id := cached_application_id resolved;
           calls := calls resolved;
           returned :=
             Err (RuntimeError
                    ("Couldn't set global commands due to conflicts. The following command names have more than one command registered for them "
                     +:+ join ", " (elements conflicts))) |}
      else
        match set_application_commands rest application builders with
        | Err e =>
            {| cached_application_id := cached_application_id resolved;
               calls := calls resolved
                        ++ [SetApplicationCommands application builders];
               returned := Err e |}
        | Ok commands =>
            let '(tracked, failure) :=
              track (names_to_commands commands) (concat components) in
            {| cached_application_id := cached_application_id resolved;
               calls := calls resolved
                        ++ [SetApplicationCommands application builders]
                        ++ tracked;
               returned :=
                 match failure with
                 | None => Ok commands
                 | Some e => Err e
                 end |}
        end
  end.

(** The global commands of the components, in the order of the loops. *)
Definition global_commands (components : list (list SlashCommand))
  : list SlashCommand :=
  List.filter is_global (concat components).

(** Whether a call reaches Discord's command registry or a command. *)
Definition is_update (c : call) : bool :=
  match c with
  | SetApplicationCommands _ _ | SetTrackedCommand _ _ => true
  | _ => false
  end.

(** A REST client of a bot, application 9, that echoes the builders it
    is given under fixed names. *)
Definition echo_rest : Rest :=
  {| token_type_is_bot := true;
     fetch_application := Ok 9;
     fetch_authorization := Err (OtherError "UnauthorizedError");
     set_application_commands := fun _ builders =>
       Ok (List.map (fun b => (if b =? 1 then "ping" else "pong", 100 + b))
                    builders) |}.

Definition ping : SlashCommand :=
  {| command_id := 1; name := "ping"; is_global := true |}.

Definition pong : SlashCommand :=
  {| command_id := 2; name := "pong"; is_global := true |}.

Definition other_ping : SlashCommand :=
  {| command_id := 3; name := "ping"; is_global := true |}.

Definition guild_ping : SlashCommand :=
  {| command_id := 4; name := "ping"; is_global := false |}.

End GlobalCommands.

(** ** Loading modules *)

Module Loading.

Import Clients.







End Loading.

(** * Properties *)

(** ** Decimal numerals *)

Module NumeralFacts.

Import Numerals.

Lemma of_uint_acc_value d : forall acc,
  Npos (Pos.of_uint_acc d acc) = uint_value (Npos acc) d.
Proof.
  induction d; intros acc; simpl; try reflexivity; rewrite IHd; f_equal; lia.
Qed.

Lemma of_uint_value d : N.of_uint d = uint_value 0 d.
Proof.
  unfold N.of_uint.
  induction d; simpl; try reflexivity; try exact IHd;
    rewrite of_uint_acc_value; reflexivity.
Qed.

Lemma decimal_value_of_uint d : forall acc,
  Py.decimal_value acc (NilEmpty.string_of_uint d) = uint_value acc d.
Proof. induction d; intros acc; simpl; try reflexivity; apply IHd. Qed.

Lemma string_of_uint_digits d :
  Py.all_chars Py.isdigit_char (NilEmpty.string_of_uint d) = true.
Proof. induction d; simpl; auto. Qed.

(** [str(n)] is a non-empty string of digits whose value is [n]. *)
Lemma str_of_N_value n : Py.decimal_value 0 (Py.str_of_N n) = n.
Proof.
  unfold Py.str_of_N. rewrite decimal_value_of_uint, <- of_uint_value.
  apply DecimalN.Unsigned.of_to.
Qed.

Lemma str_of_N_digits n : Py.isdecimal (Py.str_of_N n) = true.
Proof.
  unfold Py.isdecimal, Py.str_of_N.
  destruct (NilEmpty.string_of_uint (N.to_uint n)) eqn:Hs.
  - exfalso. destruct n as [|p]; [discriminate |].
    pose proof (str_of_N_value (Npos p)) as Hv. unfold Py.str_of_N in Hv.
    rewrite Hs in Hv. discriminate.
  - rewrite <- Hs. apply string_of_uint_digits.
Qed.

(** A numeral that normalisation leaves alone has no leading zero. *)
Lemma unorm_fixed d :
  unorm d = d -> d = D0 Nil \/ forall d', d <> D0 d'.
Proof.
  intros H. destruct d as [|d|d|d|d|d|d|d|d|d|d];
    try (right; intros; discriminate).
  assert (Hd : d = Nil \/ d <> Nil) by (destruct d; auto; right; discriminate).
  destruct Hd as [-> | Hn]; [now left |]. exfalso.
  change (unorm (D0 d)) with (unorm d) in H.
  pose proof (nb_digits_unorm d Hn) as Hl. rewrite H in Hl. simpl in Hl. lia.
Qed.

(** [str(n)] has no leading zero. *)
Lemma str_of_N_canonical n :
  Py.str_of_N n = "0"
  \/ exists c rest, Py.str_of_N n = String c rest /\ c <> "0"%char.
Proof.
  unfold Py.str_of_N.
  assert (H : unorm (N.to_uint n) = N.to_uint n).
  { rewrite <- (DecimalN.Unsigned.of_to n) at 2. symmetry.
    apply DecimalN.Unsigned.to_of. }
  destruct (unorm_fixed _ H) as [-> | Hd]; [now left |].
  right. destruct (N.to_uint n) as [|d|d|d|d|d|d|d|d|d|d]; simpl;
    [discriminate H | now destruct (Hd d) | ..];
    eexists _, _; (split; [reflexivity | discriminate]).
Qed.

End NumeralFacts.

(** ** The ready queue *)

Module LoopFacts.

Import Loop.

Section WithEvents.

Context {E : Type}.

Implicit Types (c k : coro E) (q : list (handle E)) (g : gathering)
  (t es : list E) (r : settled E).

Lemma advance_suspended c es k :
  advance c = (es, Suspended k) ->
  yields c = S (yields k) /\ all_effects c = es ++ all_effects k
  /\ outcome c = outcome k.
Proof.
  revert es. induction c as [x | c' IH | e c' IH]; intros es H; simpl in *.
  - discriminate.
  - inversion H; subst. auto.
  - destruct (advance c') as [es' p] eqn:Hadv. inversion H; subst.
    destruct (IH es' eq_refl) as (Hy & He & Ho).
    rewrite Hy, He, Ho. auto.
Qed.

Lemma advance_finished c es x :
  advance c = (es, Finished x) ->
  yields c = 0 /\ all_effects c = es /\ outcome c = x.
Proof.
  revert es. induction c as [y | c' IH | e c' IH]; intros es H; simpl in *.
  - inversion H; subst. auto.
  - discriminate.
  - destruct (advance c') as [es' p] eqn:Hadv. inversion H; subst.
    destruct (IH es' eq_refl) as (Hy & He & Ho).
    rewrite Hy, He, Ho. auto.
Qed.

Lemma total_weight_app q q' :
  total_weight (q ++ q') = total_weight q + total_weight q'.
Proof.
  unfold total_weight. rewrite List.map_app, list_sum_app. reflexivity.
Qed.

Lemma live_count_app q q' : live_count (q ++ q') = live_count q + live_count q'.
Proof. induction q as [|h q IH]; simpl; [reflexivity | rewrite IH; lia]. Qed.

Lemma live_count_zero q : live_count q = 0 -> ~ In Wake q -> q = [].
Proof.
  destruct q as [|h q]; [reflexivity |].
  simpl. intros Hc Hw. destruct h; simpl in Hc; try lia.
  exfalso. apply Hw. now left.
Qed.

Lemma live_count_pos q h : In h q -> live h = true -> 0 < live_count q.
Proof.
  induction q as [|h' q IH]; simpl; [tauto |].
  intros [-> | Hin] Hl; [rewrite Hl; lia | specialize (IH Hin Hl); lia].
Qed.

Lemma failure_live (h : handle E) e : failure h = Some e -> live h = true.
Proof. destruct h; simpl; [reflexivity | reflexivity | discriminate]. Qed.

(** *** The queue invariant is kept by every handle that runs *)

Lemma waiting_requeue nfuts i c h q g :
  live h = true ->
  waiting nfuts (Step i c :: q) g -> waiting nfuts (q ++ [h]) g.
Proof.
  intros Hl. unfold waiting. destruct (outer g).
  - intros [Hh | Hq]; [discriminate |]. apply in_app_iff. now left.
  - intros (Hnw & Hc & Hp). rewrite live_count_app. simpl in *. rewrite Hl.
    repeat split; try lia.
    intros Hin. apply in_app_iff in Hin as [Hin | [Hin | []]].
    + apply Hnw. now right.
    + subst h. discriminate.
Qed.

Lemma waiting_done nfuts i x q g g' b :
  waiting nfuts (DoneCallback i x :: q) g ->
  _done_callback nfuts x g = (g', b) ->
  waiting nfuts (if b then q ++ [Wake] else q) g'.
Proof.
  unfold waiting, _done_callback. destruct (outer g) as [o|].
  - intros [Hh | Hq] [= <- <-]; [discriminate | exact Hq].
  - intros (Hnw & Hc & Hp). simpl in Hc, Hp. destruct x as [e|].
    + intros [= <- <-]. simpl. apply in_app_iff. right. now left.
    + destruct (S (nfinished g) =? nfuts) eqn:Hn; intros [= <- <-]; simpl.
      * apply in_app_iff. right. now left.
      * apply Nat.eqb_neq in Hn. repeat split; try lia.
        intros Hin. apply Hnw. now right.
Qed.

Lemma done_callback_settled nfuts x g o :
  outer g = Some o ->
  exists g', _done_callback nfuts x g = (g', false) /\ outer g' = Some o.
Proof. intros Ho. unfold _done_callback. rewrite Ho. eauto. Qed.

(** *** The caller is always resumed *)

Lemma run_returns nfuts fuel : forall q g t,
  waiting nfuts q g -> total_weight q < fuel ->
  exists r, run fuel nfuts q g t = Some r.
Proof.
  induction fuel as [|fuel IH]; intros q g t Hinv Hw; [lia |].
  destruct q as [|[i c | i x |] q'].
  - exfalso. unfold waiting in Hinv. destruct (outer g); simpl in Hinv;
      [exact Hinv | lia].
  - simpl. destruct (advance c) as [es [k | x]] eqn:Hadv.
    + apply advance_suspended in Hadv as (Hy & _ & _). apply IH.
      * now apply (waiting_requeue _ i c).
      * rewrite total_weight_app. unfold total_weight in *. simpl in *. lia.
    + apply advance_finished in Hadv as (Hy & _ & _). apply IH.
      * now apply (waiting_requeue _ i c).
      * rewrite total_weight_app. unfold total_weight in *. simpl in *. lia.
  - simpl. destruct (_done_callback nfuts x g) as [g' b] eqn:Hd.
    pose proof (waiting_done _ _ _ _ _ _ _ Hinv Hd) as Hinv'.
    destruct b; apply IH; try exact Hinv'.
    + rewrite total_weight_app. unfold total_weight in *. simpl in *. lia.
    + unfold total_weight in *. simpl in *. lia.
  - simpl. unfold waiting in Hinv. destruct (outer g) as [o|]; [eauto |].
    exfalso. destruct Hinv as (Hnw & _). apply Hnw. now left.
Qed.

(** *** Effects only accumulate, and they come from the tasks *)

Lemma run_effects nfuts fuel : forall q g t r,
  run fuel nfuts q g t = Some r ->
  exists t', effects r = t ++ t' /\
    forall e, In e t' -> exists i c, In (Step i c) q /\ In e (all_effects c).
Proof.
  induction fuel as [|fuel IH]; intros q g t r Hrun; [discriminate |].
  destruct q as [|[i c | i x |] q']; simpl in Hrun; [discriminate | | |].
  - destruct (advance c) as [es [k | x]] eqn:Hadv.
    + apply advance_suspended in Hadv as (_ & He & _).
      destruct (IH _ _ _ _ Hrun) as (t' & Heq & Hsrc).
      exists (es ++ t'). split; [rewrite Heq, <- app_assoc; reflexivity |].
      intros e Hin. apply in_app_iff in Hin as [Hin | Hin].
      * exists i, c. split; [now left |]. rewrite He. apply in_app_iff. now left.
      * destruct (Hsrc e Hin) as (j & d & Hq & Hd).
        apply in_app_iff in Hq as [Hq | [Hq | []]].
        -- exists j, d. split; [now right | exact Hd].
        -- injection Hq as <- <-. exists i, c. split; [now left |].
           rewrite He. apply in_app_iff. now right.
    + apply advance_finished in Hadv as (_ & He & _).
      destruct (IH _ _ _ _ Hrun) as (t' & Heq & Hsrc).
      exists (es ++ t'). split; [rewrite Heq, <- app_assoc; reflexivity |].
      intros e Hin. apply in_app_iff in Hin as [Hin | Hin].
      * exists i, c. split; [now left |]. rewrite He. exact Hin.
      * destruct (Hsrc e Hin) as (j & d & Hq & Hd).
        apply in_app_iff in Hq as [Hq | [Hq | []]]; [| discriminate].
        exists j, d. split; [now right | exact Hd].
  - destruct (_done_callback nfuts x g) as [g' [|]];
      destruct (IH _ _ _ _ Hrun) as (t' & Heq & Hsrc);
      exists t'; (split; [exact Heq |]);
      intros e Hin; destruct (Hsrc e Hin) as (j & d & Hq & Hd).
    + apply in_app_iff in Hq as [Hq | [Hq | []]]; [| discriminate].
      exists j, d. split; [now right | exact Hd].
    + exists j, d. split; [now right | exact Hd].
  - destruct (outer g); [| discriminate]. inversion Hrun; subst. simpl.
    exists []. split; [now rewrite app_nil_r | intros e []].
Qed.

(** *** The outer future gets its result once *)

Lemma run_outer_done nfuts fuel : forall q g t r o,
  outer g = Some o -> run fuel nfuts q g t = Some r -> raised r = o.
Proof.
  induction fuel as [|fuel IH]; intros q g t r o Ho Hrun; [discriminate |].
  destruct q as [|[i c | i x |] q']; simpl in Hrun; [discriminate | | |].
  - destruct (advance c) as [es [k | x]]; eapply IH; eauto.
  - destruct (done_callback_settled nfuts x g o Ho) as (g' & Hd & Ho').
    rewrite Hd in Hrun. eapply IH; eauto.
  - rewrite Ho in Hrun. inversion Hrun; subst. reflexivity.
Qed.

(** *** An exception raised into the caller is the failure of a child *)

Lemma run_raised_origin nfuts fuel : forall q g t r e,
  outer g = None -> run fuel nfuts q g t = Some r -> raised r = Some e ->
  exists h, In h q /\ failure h = Some e.
Proof.
  induction fuel as [|fuel IH]; intros q g t r e Ho Hrun Hr; [discriminate |].
  destruct q as [|[i c | i x |] q']; simpl in Hrun; [discriminate | | |].
  - destruct (advance c) as [es [k | x]] eqn:Hadv.
    + apply advance_suspended in Hadv as (_ & _ & Hout).
      destruct (IH _ _ _ _ _ Ho Hrun Hr) as (h & Hin & Hf).
      apply in_app_iff in Hin as [Hin | [<- | []]].
      * exists h. split; [now right | exact Hf].
      * exists (Step i c). split; [now left |]. simpl in *. congruence.
    + apply advance_finished in Hadv as (_ & _ & Hout).
      destruct (IH _ _ _ _ _ Ho Hrun Hr) as (h & Hin & Hf).
      apply in_app_iff in Hin as [Hin | [<- | []]].
      * exists h. split; [now right | exact Hf].
      * exists (Step i c). split; [now left |]. simpl in *. congruence.
  - unfold _done_callback in Hrun. rewrite Ho in Hrun. destruct x as [e'|].
    + apply run_outer_done with (o := Some e') in Hrun; [| reflexivity].
      exists (DoneCallback i (Some e')). split; [now left |]. simpl. congruence.
    + destruct (S (nfinished g) =? nfuts).
      * apply run_outer_done with (o := None) in Hrun; [| reflexivity].
        congruence.
      * assert (Ho' : outer {| outer := None; nfinished := S (nfinished g) |}
                      = None) by reflexivity.
        destruct (IH _ _ _ _ _ Ho' Hrun Hr) as (h & Hin & Hf).
        exists h. split; [now right | exact Hf].
  - rewrite Ho in Hrun. discriminate.
Qed.

(** *** A failing child makes [gather] raise *)

Lemma run_failure_raised nfuts fuel : forall q g t r h e,
  waiting nfuts q g -> outer g = None ->
  In h q -> failure h = Some e ->
  run fuel nfuts q g t = Some r ->
  exists e', raised r = Some e'.
Proof.
  induction fuel as [|fuel IH]; intros q g t r h e Hinv Ho Hin Hf Hrun;
    [discriminate |].
  destruct q as [|[i c | i x |] q']; simpl in Hrun; [discriminate | | |].
  - destruct (advance c) as [es [k | x]] eqn:Hadv.
    + pose proof (waiting_requeue nfuts i c (Step i k) q' g eq_refl Hinv) as Hinv'.
      apply advance_suspended in Hadv as (_ & _ & Hout).
      destruct Hin as [<- | Hin].
      * eapply (IH _ _ _ _ (Step i k) e Hinv' Ho); eauto.
        -- apply in_app_iff. right. now left.
        -- simpl in *. congruence.
      * eapply (IH _ _ _ _ h e Hinv' Ho); eauto. apply in_app_iff. now left.
    + pose proof (waiting_requeue nfuts i c (DoneCallback i x) q' g eq_refl Hinv)
        as Hinv'.
      apply advance_finished in Hadv as (_ & _ & Hout).
      destruct Hin as [<- | Hin].
      * eapply (IH _ _ _ _ (DoneCallback i x) e Hinv' Ho); eauto.
        -- apply in_app_iff. right. now left.
        -- simpl in *. congruence.
      * eapply (IH _ _ _ _ h e Hinv' Ho); eauto. apply in_app_iff. now left.
  - destruct (_done_callback nfuts x g) as [g' b] eqn:Hd.
    pose proof (waiting_done _ _ _ _ _ _ _ Hinv Hd) as Hinv'.
    unfold _done_callback in Hd. rewrite Ho in Hd. destruct x as [e'|].
    + inversion Hd; subst. exists e'.
      eapply run_outer_done; [| exact Hrun]. reflexivity.
    + destruct Hin as [<- | Hin]; [discriminate |].
      unfold waiting in Hinv. rewrite Ho in Hinv. destruct Hinv as (_ & Hc & _).
      pose proof (live_count_pos q' h Hin (failure_live h e Hf)) as Hpos.
      simpl in Hc.
      destruct (S (nfinished g) =? nfuts) eqn:Hn.
      * apply Nat.eqb_eq in Hn. lia.
      * inversion Hd; subst. eapply (IH _ _ _ _ h e Hinv'); eauto.
  - rewrite Ho in Hrun. discriminate.
Qed.

(** *** Without a failure every child is run to its end *)

Lemma run_all_ok nfuts fuel : forall q g t r,
  waiting nfuts q g -> outer g = None ->
  (forall h, In h q -> failure h = None) ->
  run fuel nfuts q g t = Some r ->
  raised r = None /\ pending r = [] /\
  forall i c e, In (Step i c) q -> In e (all_effects c) -> In e (effects r).
Proof.
  induction fuel as [|fuel IH]; intros q g t r Hinv Ho Hok Hrun; [discriminate |].
  destruct q as [|[i c | i x |] q']; simpl in Hrun; [discriminate | | |].
  - destruct (advance c) as [es [k | x]] eqn:Hadv.
    + pose proof (waiting_requeue nfuts i c (Step i k) q' g eq_refl Hinv) as Hinv'.
      apply advance_suspended in Hadv as (_ & He & Hout).
      destruct (run_effects _ _ _ _ _ _ Hrun) as (t' & Heq & _).
      assert (Hok' : forall h, In h (q' ++ [Step i k]) -> failure h = None).
      { intros h Hin. apply in_app_iff in Hin as [Hin | [<- | []]].
        - apply Hok. now right.
        - simpl. rewrite <- Hout. apply (Hok (Step i c)). now left. }
      destruct (IH _ _ _ _ Hinv' Ho Hok' Hrun) as (Hr & Hp & Hall).
      repeat split; [exact Hr | exact Hp |].
      intros j d e [Hq | Hq] Hd.
      * injection Hq as <- <-. rewrite He in Hd.
        apply in_app_iff in Hd as [Hd | Hd].
        -- rewrite Heq. apply in_app_iff. left. apply in_app_iff. now right.
        -- apply (Hall i k e); [| exact Hd]. apply in_app_iff. right. now left.
      * apply (Hall j d e); [| exact Hd]. apply in_app_iff. now left.
    + pose proof (waiting_requeue nfuts i c (DoneCallback i x) q' g eq_refl Hinv)
        as Hinv'.
      apply advance_finished in Hadv as (_ & He & Hout).
      destruct (run_effects _ _ _ _ _ _ Hrun) as (t' & Heq & _).
      assert (Hok' : forall h, In h (q' ++ [DoneCallback i x]) -> failure h = None).
      { intros h Hin. apply in_app_iff in Hin as [Hin | [<- | []]].
        - apply Hok. now right.
        - simpl. rewrite <- Hout. apply (Hok (Step i c)). now left. }
      destruct (IH _ _ _ _ Hinv' Ho Hok' Hrun) as (Hr & Hp & Hall).
      repeat split; [exact Hr | exact Hp |].
      intros j d e [Hq | Hq] Hd.
      * injection Hq as <- <-. rewrite He in Hd.
        rewrite Heq. apply in_app_iff. left. apply in_app_iff. now right.
      * apply (Hall j d e); [| exact Hd]. apply in_app_iff. now left.
  - assert (x = None) as -> by (apply (Hok (DoneCallback i x)); now left).
    destruct (_done_callback nfuts None g) as [g' b] eqn:Hd.
    pose proof (waiting_done _ _ _ _ _ _ _ Hinv Hd) as Hinv'.
    unfold waiting in Hinv. rewrite Ho in Hinv. destruct Hinv as (Hnw & Hc & _).
    simpl in Hc.
    unfold _done_callback in Hd. rewrite Ho in Hd.
    destruct (S (nfinished g) =? nfuts) eqn:Hn; inversion Hd; subst.
    + apply Nat.eqb_eq in Hn.
      assert (q' = []) as ->.
      { apply live_count_zero; [lia |]. intros Hin. apply Hnw. now right. }
      destruct fuel as [|fuel]; [discriminate |]. simpl in Hrun.
      inversion Hrun; subst. simpl. repeat split.
      intros j d e [Hq | []]. discriminate.
    + assert (Hok' : forall h, In h q' -> failure h = None).
      { intros h Hin. apply Hok. now right. }
      destruct (IH _ _ _ _ Hinv' eq_refl Hok' Hrun) as (Hr & Hp & Hall).
      repeat split; [exact Hr | exact Hp |].
      intros j d e [Hq | Hq] Hdd; [discriminate |]. exact (Hall j d e Hq Hdd).
  - rewrite Ho in Hrun. discriminate.
Qed.

(** *** The first step of every task runs before anything they schedule *)


Lemma tasks_from_steps (aws : list (coro E)) : forall i h,
  In h (tasks_from i aws) -> exists j c, h = Step j c /\ In c aws.
Proof.
  induction aws as [|c aws IH]; intros i h; simpl; [tauto |].
  intros [<- | Hin].
  - exists i, c. auto.
  - destruct (IH _ _ Hin) as (j & d & -> & Hd). exists j, d. auto.
Qed.

Lemma tasks_from_complete (aws : list (coro E)) : forall i c,
  In c aws -> exists j, In (Step j c) (tasks_from i aws).
Proof.
  induction aws as [|d aws IH]; intros i c; simpl; [tauto |].
  intros [<- | Hin].
  - exists i. now left.
  - destruct (IH (S i) c Hin) as (j & Hj). exists j. now right.
Qed.

Lemma tasks_from_live (aws : list (coro E)) : forall i,
  live_count (tasks_from i aws) = List.length aws.
Proof. induction aws as [|c aws IH]; intros i; simpl; [| rewrite IH]; reflexivity. Qed.


Lemma waiting_initial (aws : list (coro E)) :
  aws <> [] ->
  waiting (List.length aws) (tasks_from 0 aws) {| outer := None; nfinished := 0 |}.
Proof.
  intros Hne. unfold waiting. simpl. rewrite tasks_from_live. repeat split.
  - intros Hin. apply tasks_from_steps in Hin as (j & c & Hh & _). discriminate.
  - destruct aws; [congruence | simpl; lia].
Qed.

Lemma gather_unfold (aws : list (coro E)) :
  aws <> [] ->
  gather aws =
  run (S (total_weight (tasks_from 0 aws))) (List.length aws) (tasks_from 0 aws)
      {| outer := None; nfinished := 0 |} [].
Proof. destruct aws; [congruence | reflexivity]. Qed.

(** [await asyncio.gather(...)] always returns to its caller. *)
Lemma gather_returns (aws : list (coro E)) : exists r, gather aws = Some r.
Proof.
  destruct aws as [|c0 aws']; [simpl; eauto |].
  rewrite gather_unfold by discriminate.
  apply run_returns; [apply waiting_initial; discriminate | lia].
Qed.


(** Every effect comes from one of the awaitables. *)
Lemma gather_effects_sound (aws : list (coro E)) r e :
  gather aws = Some r -> In e (effects r) ->
  exists c, In c aws /\ In e (all_effects c).
Proof.
  destruct aws as [|c0 aws'] eqn:Haws.
  - intros [= <-] [].
  - rewrite <- Haws. intros Hg Hin.
    rewrite gather_unfold in Hg by (subst; discriminate).
    apply run_effects in Hg as (t' & Heq & Hsrc). rewrite Heq in Hin.
    destruct (Hsrc e Hin) as (j & c & Hq & Hc).
    apply tasks_from_steps in Hq as (j' & c' & [= -> ->] & Hc').
    exists c'. auto.
Qed.

(** An exception raised into the caller is how one of the awaitables
    ended. *)
Lemma gather_raised_origin (aws : list (coro E)) r e :
  gather aws = Some r -> raised r = Some e ->
  exists c, In c aws /\ outcome c = Some e.
Proof.
  destruct aws as [|c0 aws'] eqn:Haws.
  - intros [= <-]. discriminate.
  - rewrite <- Haws. intros Hg Hr.
    rewrite gather_unfold in Hg by (subst; discriminate).
    eapply run_raised_origin in Hg as (h & Hin & Hf); [| reflexivity | exact Hr].
    apply tasks_from_steps in Hin as (j & c & -> & Hc). exists c. auto.
Qed.

(** If an awaitable fails, the caller gets an exception. *)
Lemma gather_failure_raised (aws : list (coro E)) r c e :
  gather aws = Some r -> In c aws -> outcome c = Some e ->
  exists e', raised r = Some e'.
Proof.
  intros Hg Hin Hout.
  assert (Hne : aws <> []) by (intros ->; destruct Hin).
  rewrite gather_unfold in Hg by exact Hne.
  destruct (tasks_from_complete aws 0 c Hin) as (j & Hj).
  eapply run_failure_raised; [apply waiting_initial, Hne | reflexivity | exact Hj | | exact Hg].
  exact Hout.
Qed.

(** If no awaitable fails, the caller is resumed without an exception
    once every awaitable has run to its end: nothing is left in the queue
    and every effect has happened. *)
Lemma gather_all_ok (aws : list (coro E)) r :
  gather aws = Some r -> (forall c, In c aws -> outcome c = None) ->
  raised r = None /\ pending r = [] /\
  forall c e, In c aws -> In e (all_effects c) -> In e (effects r).
Proof.
  destruct aws as [|c0 aws'] eqn:Haws.
  - intros [= <-] _. simpl. repeat split. intros c e [].
  - rewrite <- Haws. intros Hg Hok.
    assert (Hne : aws <> []) by (subst; discriminate).
    rewrite gather_unfold in Hg by exact Hne.
    eapply run_all_ok in Hg as (Hr & Hp & Hall);
      [| apply waiting_initial, Hne | reflexivity |].
    + repeat split; [exact Hr | exact Hp |].
      intros c e Hin He. destruct (tasks_from_complete aws 0 c Hin) as (j & Hj).
      exact (Hall j c e Hj He).
    + intros h Hin. apply tasks_from_steps in Hin as (j & c & -> & Hc).
      simpl. apply Hok, Hc.
Qed.



(** *** A failure is raised while other tasks are suspended *)



















End WithEvents.

End LoopFacts.

(** ** The client *)

Module ClientFacts.

Import Clients Spec.

Ltac run_m :=
  unfold run, mbind, M_bind, mret, M_ret, emit, this, raise, suspend, update,
    attempt, create_task in *; simpl in *.

Lemma find_none_iff {A : Type} (f : A -> bool) (l : list A) :
  List.find f l = None <-> forall x, In x l -> f x = false.
Proof.
  split; [apply find_none |].
  induction l as [|a l IH]; simpl; intros H; [reflexivity |].
  rewrite (H a) by now left. apply IH. intros x Hx. apply H. now right.
Qed.

(** *** [_check_prefix] *)

Lemma _check_prefix_none self text :
  no_configured_prefix self text <->
  _check_prefix self {| content := text; triggering_prefix := None |} = None.
Proof.
  unfold no_configured_prefix, _check_prefix. simpl. split.
  - intros [Hg Hs]. destruct (_prefix_getter self) as [getter|].
    + replace (List.find _ (getter _)) with (@None string).
      * apply find_none_iff. intros p Hp. apply Hs.
        apply elem_of_elements, list_elem_of_In, Hp.
      * symmetry. apply find_none_iff. intros p Hp. now apply (Hg getter).
    + apply find_none_iff. intros p Hp. apply Hs.
      apply elem_of_elements, list_elem_of_In, Hp.
  - intros H. split.
    + intros getter p Hg Hp. rewrite Hg in H.
      destruct (List.find _ (getter _)) eqn:Hf; [discriminate |].
      exact (proj1 (find_none_iff _ _) Hf p Hp).
    + intros p Hp.
      destruct (match _prefix_getter self with Some _ => _ | None => _ end);
        [discriminate |].
      apply (proj1 (find_none_iff _ _) H).
      apply list_elem_of_In, elem_of_elements, Hp.
Qed.

Lemma _check_prefix_some self ctx prefix :
  _check_prefix self ctx = Some prefix ->
  Py.startswith (content ctx) prefix = true
  /\ ((exists getter, _prefix_getter self = Some getter /\ In prefix (getter ctx))
      \/ prefix ∈ _prefixes self).
Proof.
  unfold _check_prefix. destruct (_prefix_getter self) as [getter|].
  - destruct (List.find _ (getter ctx)) eqn:Hf.
    + intros [= ->]. apply find_some in Hf as [Hin Hs]. eauto.
    + intros Hf'. apply find_some in Hf' as [Hin Hs]. split; [exact Hs |].
      right. apply elem_of_elements, list_elem_of_In, Hin.
  - intros Hf'. apply find_some in Hf' as [Hin Hs]. split; [exact Hs |].
    right. apply elem_of_elements, list_elem_of_In, Hin.
Qed.

(** *** The component loop *)

Lemma execute_message_loop_spec ctx hooks : forall cs s,
  execute_message_loop cs ctx hooks s =
  ({| client := client s;
      trace := trace s ++ flat_map (message_events ctx hooks) (consulted ctx hooks cs);
      tasks := tasks s |},
   loop_completion ctx hooks cs).
Proof.
  induction cs as [|c cs IH]; intros s; simpl.
  - run_m. rewrite app_nil_r. destruct s; reflexivity.
  - unfold message_events at 1.
    destruct (execute_message c ctx hooks) as [tags r] eqn:Hc. simpl.
    run_m. destruct r as [[|] | e]; simpl.
    + rewrite app_nil_r. reflexivity.
    + rewrite IH. simpl. rewrite <- app_assoc. reflexivity.
    + rewrite app_nil_r. reflexivity.
Qed.

(** *** Wrapped callbacks *)

Lemma guarded_outcome_suppressed id c : Loop.outcome (guarded true id c) = None.
Proof. induction c as [[e|] | k IH | tag k IH]; simpl; auto. Qed.

Lemma guarded_outcome_raised id c :
  Loop.outcome (guarded false id c) = Loop.outcome c.
Proof. induction c as [[e|] | k IH | tag k IH]; simpl; auto. Qed.


Lemma guarded_effects b id c e :
  In e (Loop.all_effects (guarded b id c)) -> callback_event e = true.
Proof.
  induction c as [[x|] | k IH | tag k IH]; simpl.
  - destruct b; simpl; [intros [<- | []]; reflexivity | tauto].
  - tauto.
  - exact IH.
  - intros [<- | Hin]; [reflexivity | auto].
Qed.

Lemma guarded_logged id c e :
  Loop.outcome c = Some e -> In (Logged id e) (Loop.all_effects (guarded true id c)).
Proof.
  induction c as [[x|] | k IH | tag k IH]; simpl; intros H.
  - injection H as ->. now left.
  - discriminate.
  - auto.
  - right. auto.
Qed.

Lemma wrap_outcome b cb :
  Loop.outcome (_wrap_client_callback b cb)
  = if b then None else Loop.outcome (body cb).
Proof.
  unfold _wrap_client_callback. simpl.
  destruct b; [apply guarded_outcome_suppressed | apply guarded_outcome_raised].
Qed.


Lemma wrap_effects b cb e :
  In e (Loop.all_effects (_wrap_client_callback b cb)) -> callback_event e = true.
Proof.
  unfold _wrap_client_callback. simpl.
  intros [<- | Hin]; [reflexivity | eapply guarded_effects; eauto].
Qed.


(** *** [dispatch_client_callback] *)

Lemma dispatch_gather event_name b self :
  dispatch event_name b self
  = Loop.gather (List.map (_wrap_client_callback b)
                          (get_client_callbacks event_name self)).
Proof.
  unfold dispatch, get_client_callbacks.
  destruct (_client_callbacks self !! Py.lower event_name) as [[|cb cbs]|];
    reflexivity.
Qed.

(** The caller of a dispatch is always resumed. *)
Lemma dispatch_returns event_name b self :
  exists r, dispatch event_name b self = Some r.
Proof. rewrite dispatch_gather. apply LoopFacts.gather_returns. Qed.

Lemma dispatch_callback_events event_name b self r e :
  dispatch event_name b self = Some r -> In e (Loop.effects r) ->
  callback_event e = true.
Proof.
  rewrite dispatch_gather. intros Hg Hin.
  destruct (LoopFacts.gather_effects_sound _ _ _ Hg Hin) as (c & Hc & He).
  apply in_map_iff in Hc as (cb & <- & _). eapply wrap_effects; eauto.
Qed.


Lemma dispatch_suppressed event_name self r :
  dispatch event_name true self = Some r ->
  Loop.raised r = None /\ Loop.pending r = [] /\
  forall cb e, In cb (get_client_callbacks event_name self) ->
               Loop.outcome (body cb) = Some e ->
               In (Logged (callback_id cb) e) (Loop.effects r).
Proof.
  rewrite dispatch_gather. intros Hg.
  destruct (LoopFacts.gather_all_ok _ _ Hg) as (Hr & Hp & Hall).
  { intros c Hc. apply in_map_iff in Hc as (cb & <- & _).
    now rewrite wrap_outcome. }
  repeat split; [exact Hr | exact Hp |].
  intros cb e Hin Hout.
  apply (Hall (_wrap_client_callback true cb)).
  - apply in_map_iff. eauto.
  - unfold _wrap_client_callback. simpl. right. now apply guarded_logged.
Qed.

(** What [await self.dispatch_client_callback(name)] with suppressed
    exceptions does to the state: it always returns, and adds the firing
    and callback events to the trace. *)
Lemma dispatch_client_callback_suppressed event_name s :
  exists r,
    dispatch event_name true (client s) = Some r /\
    dispatch_client_callback event_name true s =
    ({| client := client s;
        trace := (trace s ++ [Dispatched event_name true]) ++ Loop.effects r;
        tasks := tasks s |}, Value tt).
Proof.
  destruct (dispatch_returns event_name true (client s)) as (r & Hr).
  exists r. split; [exact Hr |].
  destruct (dispatch_suppressed _ _ _ Hr) as (Hraised & _).
  unfold dispatch_client_callback. run_m. rewrite Hr. simpl. rewrite Hraised.
  reflexivity.
Qed.

(** *** [on_message_create_event] *)

(** The handler, path by path, once a prefix matched. *)
Lemma on_message_prefixed self text prefix :
  let ctx0 := {| content := text; triggering_prefix := None |} in
  let ctx := after_prefix prefix ctx0 in
  let hooks := combine_hooks (_hooks self) (_message_hooks self) in
  let gate := gather_checks ctx (_checks self) in
  let t1 := fst gate ++ [Checked (snd gate)] in
  let t2 := t1 ++ flat_map (message_events ctx hooks)
                           (consulted ctx hooks (_components self)) in
  _check_prefix self ctx0 = Some prefix ->
  run (on_message_create_event (Some text)) self =
  if snd gate then
    match loop_completion ctx hooks (_components self) with
    | Raised (CommandError message) =>
        (at_trace self (t2 ++ [Responded message]), Value tt)
    | Raised HaltExecution | Value _ =>
        dispatch_client_callback MESSAGE_COMMAND_NOT_FOUND true (at_trace self t2)
    | Raised e => (at_trace self t2, Raised e)
    | Suspended => (at_trace self t2, Suspended)
    end
  else (at_trace self t1, Value tt).
Proof.
  intros ctx0 ctx hooks gate t1 t2 Hp. subst gate t1 t2.
  unfold on_message_create_event, run, check, gather_checks.
  unfold mbind, M_bind, this, emit, mret, M_ret, attempt. cbn.
  fold ctx0. rewrite Hp. cbn. fold ctx0 ctx hooks.
  destruct (forallb (fun c => check_fn c ctx) (_checks self)); simpl;
    [| reflexivity].
  rewrite execute_message_loop_spec. simpl. unfold at_trace.
  destruct (loop_completion ctx hooks (_components self)) as [b | e |];
    [reflexivity | | reflexivity].
  destruct e; reflexivity.
Qed.

Lemma none_matches_completion ctx hooks cs :
  none_matches ctx hooks cs ->
  loop_completion ctx hooks cs = Value false /\ consulted ctx hooks cs = cs.
Proof.
  unfold none_matches. induction cs as [|c cs IH]; simpl; intros H; [auto |].
  rewrite (H c) by now left.
  destruct IH as [IH1 IH2]; [intros x Hx; apply H; now right |].
  rewrite IH1, IH2. auto.
Qed.

Lemma first_decisive_completion ctx hooks cs r :
  first_decisive ctx hooks cs r ->
  loop_completion ctx hooks cs
  = match r with Ok b => Value b | Err e => Raised e end
  /\ exists before c,
       consulted ctx hooks cs = before ++ [c] /\ none_matches ctx hooks before
       /\ snd (execute_message c ctx hooks) = r.
Proof.
  intros (before & c & after & -> & Hnone & Hr & Hne).
  induction before as [|b before IH]; simpl.
  - rewrite Hr. destruct r as [[|] | e]; try congruence;
      (split; [reflexivity |]); exists [], c; simpl; auto.
  - rewrite (Hnone b) by now left.
    destruct IH as (Hc & bf & c' & Hcons & Hn & Hr').
    { intros x Hx. apply Hnone. now right. }
    split; [exact Hc |]. exists (b :: bf), c'. rewrite Hcons. simpl.
    repeat split; auto.
    intros x [<- | Hx]; [apply Hnone; now left | auto].
Qed.

(** *** Reading traces *)

Lemma gate_events ctx checks e :
  In e (fst (gather_checks ctx checks)) -> exists i, e = CheckCalled i.
Proof.
  unfold gather_checks. simpl. intros Hin.
  apply in_map_iff in Hin as (c & <- & _). eauto.
Qed.

Lemma message_events_in ctx hooks cs e :
  In e (flat_map (message_events ctx hooks) cs) ->
  (exists i tag, e = ComponentEffect i tag)
  \/ (exists c, In c cs
                /\ e = ExecuteMessage (component_id c)
                                      (snd (execute_message c ctx hooks))).
Proof.
  intros Hin. apply in_flat_map in Hin as (c & Hc & Hin).
  unfold message_events in Hin. apply in_app_iff in Hin as [Hin | [<- | []]].
  - apply in_map_iff in Hin as (tag & <- & _). left. eauto.
  - right. eauto.
Qed.

Lemma firings_app n t t' : firings n (t ++ t') = firings n t + firings n t'.
Proof.
  induction t as [|e t IH]; simpl; [reflexivity |].
  destruct e; simpl; rewrite ?IH; lia.
Qed.

Lemma firings_none n t :
  (forall e, In e t -> forall m b, e <> Dispatched m b) -> firings n t = 0.
Proof.
  induction t as [|e t IH]; simpl; intros H; [reflexivity |].
  destruct e; try (apply IH; intros; apply H; now right).
  exfalso. eapply (H _ (or_introl eq_refl)). reflexivity.
Qed.

Lemma fires_firings n t : fires n t -> 0 < firings n t.
Proof.
  intros [b Hin]. induction t as [|e t IH]; simpl; [destruct Hin |].
  destruct Hin as [-> | Hin].
  - rewrite String.eqb_refl. lia.
  - specialize (IH Hin). destruct e; lia.
Qed.

Lemma firings_fires n t : 0 < firings n t -> fires n t.
Proof.
  induction t as [|e t IH]; simpl; [lia |].
  destruct e; try (intros H; destruct (IH H) as [b Hb]; exists b; now right).
  destruct (String.eqb event_name n) eqn:Hn.
  - apply String.eqb_eq in Hn as ->. intros _. exists suppress_exceptions. now left.
  - simpl. intros H. destruct (IH H) as [b Hb]. exists b. now right.
Qed.

Lemma callback_events_not_dispatched t :
  (forall e, In e t -> callback_event e = true) ->
  forall e, In e t -> forall m b, e <> Dispatched m b.
Proof. intros H e Hin m b ->. specialize (H _ Hin). discriminate. Qed.

(** *** Messages without a prefix *)

Lemma on_message_no_prefix self text :
  no_configured_prefix self text ->
  run (on_message_create_event (Some text)) self = (at_trace self [], Value tt).
Proof.
  intros H. apply _check_prefix_none in H.
  unfold on_message_create_event, run, mbind, M_bind, this. cbn.
  rewrite H. reflexivity.
Qed.

Lemma bang_client_no_prefix :
  no_configured_prefix Examples.bang_client "ping".
Proof.
  split.
  - intros getter p H. discriminate.
  - intros p Hp. unfold Examples.bang_client in Hp. simpl in Hp.
    apply elem_of_singleton in Hp as ->. reflexivity.
Qed.

(** C2, as the specification words it, fails: with the single prefix
    [!] the message [ping] starts with no configured prefix, and the
    MESSAGE_COMMAND_NOT_FOUND callback is not fired. *)
Lemma no_prefix_fires_not_found_refuted :
  ~ no_prefix_fires_not_found Examples.bang_client "ping".
Proof.
  intros H. destruct (H bang_client_no_prefix) as (_ & _ & [b Hin]).
  unfold message_trace in Hin.
  rewrite (on_message_no_prefix _ _ bang_client_no_prefix) in Hin.
  destruct Hin.
Qed.

(** C2 (amended): for every message event whose content starts with no
    configured prefix, neither one returned by the prefix getter nor a
    member of the static prefix set, message dispatch stops at once: it
    returns normally, sends no response and fires no lifecycle callback;
    in particular MESSAGE_COMMAND_NOT_FOUND is not fired. *)
Theorem no_prefix_is_silent self text :
  no_configured_prefix self text ->
  snd (run (on_message_create_event (Some text)) self) = Value tt
  /\ message_trace self (Some text) = []
  /\ ~ responds (message_trace self (Some text))
  /\ ~ fires MESSAGE_COMMAND_NOT_FOUND (message_trace self (Some text)).
Proof.
  intros H. unfold message_trace. rewrite (on_message_no_prefix _ _ H). simpl.
  repeat split; [intros [m []] | intros [b []]].
Qed.

Lemma no_prefix_is_silent_witness :
  no_configured_prefix Examples.bang_client "ping"
  /\ message_trace Examples.bang_client (Some "ping") = [].
Proof.
  split; [exact bang_client_no_prefix |].
  apply (no_prefix_is_silent Examples.bang_client "ping"), bang_client_no_prefix.
Defined.

(** *** Messages with a prefix: the three ways the handler ends *)

Section Prefixed.

Variables (self : Client) (text prefix : string).

Let ctx0 : MessageContext := {| content := text; triggering_prefix := None |}.
Let ctx : MessageContext := after_prefix prefix ctx0.
Let hooks : option (list Hooks) := combine_hooks (_hooks self) (_message_hooks self).
Let gate : list event * bool := gather_checks ctx (_checks self).
Let reached : list event :=
  flat_map (message_events ctx hooks) (consulted ctx hooks (_components self)).

Hypothesis matched : _check_prefix self ctx0 = Some prefix.

Lemma on_message_gate_failed :
  snd gate = false ->
  run (on_message_create_event (Some text)) self
  = (at_trace self (fst gate ++ [Checked false]), Value tt).
Proof.
  intros Hg. rewrite (on_message_prefixed _ _ _ matched).
  fold ctx0 ctx gate. rewrite Hg. reflexivity.
Qed.

Lemma on_message_not_found :
  snd gate = true ->
  (exists b, loop_completion ctx hooks (_components self) = Value b)
  \/ loop_completion ctx hooks (_components self) = Raised HaltExecution ->
  exists r,
    dispatch MESSAGE_COMMAND_NOT_FOUND true self = Some r /\
    run (on_message_create_event (Some text)) self
    = (at_trace self
         ((((fst gate ++ [Checked true]) ++ reached)
           ++ [Dispatched MESSAGE_COMMAND_NOT_FOUND true]) ++ Loop.effects r),
       Value tt).
Proof.
  intros Hg Hl. rewrite (on_message_prefixed _ _ _ matched).
  fold ctx0 ctx gate hooks reached. rewrite Hg.
  match goal with
  | |- context [dispatch_client_callback ?n true ?s] =>
      destruct (dispatch_client_callback_suppressed n s) as (r & Hr & Hd)
  end.
  exists r. split; [exact Hr |].
  destruct Hl as [[b Hl] | Hl]; rewrite Hl; exact Hd.
Qed.

Lemma on_message_command_error message :
  snd gate = true ->
  loop_completion ctx hooks (_components self) = Raised (CommandError message) ->
  run (on_message_create_event (Some text)) self
  = (at_trace self (((fst gate ++ [Checked true]) ++ reached)
                    ++ [Responded message]), Value tt).
Proof.
  intros Hg Hl. rewrite (on_message_prefixed _ _ _ matched).
  fold ctx0 ctx gate hooks reached. rewrite Hg, Hl. reflexivity.
Qed.

(** The component loop reports a found command only when it is left by
    [break]. *)
Lemma reached_found c :
  In (ExecuteMessage c (Ok true)) reached ->
  loop_completion ctx hooks (_components self) = Value true.
Proof.
  unfold reached. generalize (_components self) as cs.
  induction cs as [|x cs IH]; simpl; [tauto |].
  intros Hin. apply in_app_iff in Hin as [Hin | Hin].
  - unfold message_events in Hin. apply in_app_iff in Hin as [Hin | [Hin | []]].
    + apply in_map_iff in Hin as (tag & Hd & _). discriminate.
    + injection Hin as _ ->. reflexivity.
  - destruct (snd (execute_message x ctx hooks)) as [[|] | e]; simpl in Hin;
      tauto.
Qed.

Lemma reached_shape e :
  In e reached ->
  (exists i tag, e = ComponentEffect i tag) \/ (exists i r, e = ExecuteMessage i r).
Proof.
  intros Hin. apply message_events_in in Hin as [H | (c & _ & ->)]; eauto.
Qed.

End Prefixed.

Lemma gate_failed_iff ctx checks :
  snd (gather_checks ctx checks) = false <->
  exists chk, In chk checks /\ check_fn chk ctx = false.
Proof.
  unfold gather_checks. simpl. split.
  - intros H. induction checks as [|c cs IH]; simpl in H; [discriminate |].
    destruct (check_fn c ctx) eqn:Hc.
    + destruct (IH H) as (chk & Hin & Hf). exists chk. split; [now right | auto].
    + exists c. split; [now left | auto].
  - intros (chk & Hin & Hf). destruct (forallb _ checks) eqn:Hall; [| reflexivity].
    rewrite forallb_forall in Hall. rewrite (Hall chk Hin) in Hf. discriminate.
Qed.

Lemma gate_trace_shape ctx checks b e :
  In e (fst (gather_checks ctx checks) ++ [Checked b]) ->
  (exists i, e = CheckCalled i) \/ e = Checked b.
Proof.
  intros Hin. apply in_app_iff in Hin as [Hin | [<- | []]]; [| auto].
  left. eapply gate_events; eauto.
Qed.

(** The trace of an event that reaches the not-found firing. *)
Lemma not_found_trace_facts ctx hooks checks cs (r : Loop.settled event) t :
  (forall e, In e (Loop.effects r) -> callback_event e = true) ->
  t = (((fst (gather_checks ctx checks) ++ [Checked true])
        ++ flat_map (message_events ctx hooks) (consulted ctx hooks cs))
       ++ [Dispatched MESSAGE_COMMAND_NOT_FOUND true]) ++ Loop.effects r ->
  ~ ignored_by_check t /\ ~ responds t
  /\ firings MESSAGE_COMMAND_NOT_FOUND t = 1.
Proof.
  intros Hcb ->. repeat split.
  - unfold ignored_by_check. rewrite !in_app_iff.
    intros [[[[Hin | [Hin | []]] | Hin] | [Hin | []]] | Hin]; try discriminate.
    + apply gate_events in Hin as (i & Hi). discriminate.
    + apply message_events_in in Hin as [(i & tag & Hi) | (c & _ & Hi)];
        discriminate.
    + apply Hcb in Hin. discriminate.
  - intros [m Hin]. rewrite !in_app_iff in Hin.
    destruct Hin as [[[[Hin | [Hin | []]] | Hin] | [Hin | []]] | Hin];
      try discriminate.
    + apply gate_events in Hin as (i & Hi). discriminate.
    + apply message_events_in in Hin as [(i & tag & Hi) | (c & _ & Hi)];
        discriminate.
    + apply Hcb in Hin. discriminate.
  - rewrite !firings_app.
    rewrite (firings_none _ (fst (gather_checks ctx checks))).
    2:{ intros e Hin m b ->. apply gate_events in Hin as (i & Hi). discriminate. }
    rewrite (firings_none _ (flat_map _ _)).
    2:{ intros e Hin m b ->.
        apply message_events_in in Hin as [(i & tag & Hi) | (c & _ & Hi)];
          discriminate. }
    rewrite (firings_none _ (Loop.effects r)).
    2:{ apply callback_events_not_dispatched, Hcb. }
    reflexivity.
Qed.

(** *** A failing global check *)

(** C5: for every message event that matched a prefix, if any
    client-level check fails, dispatch terminates normally with no
    response sent and without firing MESSAGE_COMMAND_NOT_FOUND; no
    component is asked to execute, and the failed gate is what the trace
    ends with, which tells the ignored event from a not-found one. *)
Theorem failing_check_is_silent self text prefix chk :
  _check_prefix self {| content := text; triggering_prefix := None |}
  = Some prefix ->
  In chk (_checks self) ->
  check_fn chk (after_prefix prefix {| content := text; triggering_prefix := None |})
  = false ->
  snd (run (on_message_create_event (Some text)) self) = Value tt
  /\ ~ responds (message_trace self (Some text))
  /\ ~ fires MESSAGE_COMMAND_NOT_FOUND (message_trace self (Some text))
  /\ ~ command_executed (message_trace self (Some text))
  /\ ignored_by_check (message_trace self (Some text)).
Proof.
  intros Hp Hin Hf.
  assert (Hg : snd (gather_checks
                      (after_prefix prefix
                         {| content := text; triggering_prefix := None |})
                      (_checks self)) = false)
    by (apply gate_failed_iff; eauto).
  unfold message_trace. rewrite (on_message_gate_failed _ _ _ Hp Hg).
  unfold at_trace. cbn [fst snd trace].
  repeat split.
  - intros [m H]. apply gate_trace_shape in H as [(i & H) | H]; discriminate.
  - intros [b H]. apply gate_trace_shape in H as [(i & H) | H]; discriminate.
  - intros [c H]. apply gate_trace_shape in H as [(i & H) | H]; discriminate.
  - unfold ignored_by_check. apply in_app_iff. right. now left.
Qed.

Lemma guarded_client_prefix :
  _check_prefix Examples.guarded_client
    {| content := "!ping"; triggering_prefix := None |} = Some "!".
Proof.
  unfold _check_prefix. simpl. rewrite elements_singleton. reflexivity.
Qed.

Lemma failing_check_is_silent_witness :
  ~ fires MESSAGE_COMMAND_NOT_FOUND
      (message_trace Examples.guarded_client (Some "!ping")).
Proof.
  apply (failing_check_is_silent Examples.guarded_client "!ping" "!" Examples.never).
  - exact guarded_client_prefix.
  - simpl. now left.
  - reflexivity.
Defined.

(** *** The outcomes of a message event *)

(** When a component reports a found command the loop is left by
    [break], and control still reaches the not-found firing after the
    [try] statement: both outcomes occur. *)
Lemma found_command_still_fires_not_found self text prefix :
  let ctx0 := {| content := text; triggering_prefix := None |} in
  let ctx := after_prefix prefix ctx0 in
  let hooks := combine_hooks (_hooks self) (_message_hooks self) in
  _check_prefix self ctx0 = Some prefix ->
  snd (gather_checks ctx (_checks self)) = true ->
  first_decisive ctx hooks (_components self) (Ok true) ->
  command_executed (message_trace self (Some text))
  /\ firings MESSAGE_COMMAND_NOT_FOUND (message_trace self (Some text)) = 1.
Proof.
  intros ctx0 ctx hooks Hp Hg Hd.
  destruct (first_decisive_completion _ _ _ _ Hd) as (Hl & bf & c & Hcons & _ & Hc).
  destruct (on_message_not_found _ _ _ Hp Hg) as (r & Hr & Hrun).
  { left. exists true. exact Hl. }
  unfold message_trace. rewrite Hrun. unfold at_trace. cbn [fst snd trace].
  split.
  - exists (component_id c). rewrite !in_app_iff. left. left. right.
    fold ctx0 ctx hooks. rewrite Hcons. rewrite flat_map_app, in_app_iff. right.
    simpl. rewrite app_nil_r. unfold message_events. apply in_app_iff. right.
    rewrite Hc. now left.
  - eapply not_found_trace_facts; [| reflexivity].
    intros e He. eapply dispatch_callback_events; eauto.
Qed.

Lemma ping_client_prefix :
  _check_prefix Examples.ping_client
    {| content := "!ping"; triggering_prefix := None |} = Some "!".
Proof.
  unfold _check_prefix. simpl. rewrite elements_singleton. reflexivity.
Qed.

(** The scenario of the specification: prefix [!], a component with a
    [ping] command, message [!ping].  The command is found and the
    not-found callback is fired as well. *)
Example ping_found_and_not_found :
  command_executed (message_trace Examples.ping_client (Some "!ping"))
  /\ fires MESSAGE_COMMAND_NOT_FOUND
       (message_trace Examples.ping_client (Some "!ping")).
Proof.
  destruct (found_command_still_fires_not_found Examples.ping_client "!ping" "!")
    as (Hx & Hf).
  - exact ping_client_prefix.
  - reflexivity.
  - exists [], Examples.ping_component, []. repeat split.
    + intros c [].
    + discriminate.
  - split; [exact Hx |]. apply firings_fires. rewrite Hf. lia.
Qed.

(** C1, as the specification words it, fails: for the message [ping]
    sent to a client whose only prefix is [!], none of the three outcomes
    occurs. *)
Lemma one_outcome_per_message_refuted :
  ~ one_outcome_per_message Examples.bang_client (Some "ping").
Proof.
  unfold one_outcome_per_message, message_trace.
  rewrite (on_message_no_prefix _ _ bang_client_no_prefix).
  unfold at_trace. cbn [fst trace].
  intros [[(H & _) | [(_ & H & _) | (_ & _ & H)]] _].
  - destruct H as [c []].
  - destruct H as [b []].
  - destruct H.
Qed.

(** C1 (amended): an inbound message event with no content, or whose
    content starts with no configured prefix, produces none of the three
    outcomes.  For an event that matched a prefix: when a global check
    fails the event is silently ignored, no command is executed and the
    not-found callback is not fired; when the checks pass and every
    component reports no match, or the first one that does not raises the
    halt signal, MESSAGE_COMMAND_NOT_FOUND is fired exactly once and no
    command is reported executed; when the first such component raises a
    command error, its message is sent and the callback is not fired. *)
Theorem message_outcomes self (event_text : option string) :
  let t := message_trace self event_text in
  ((event_text = None
    \/ exists text, event_text = Some text /\ no_configured_prefix self text) ->
   t = [])
  /\ forall text prefix,
       event_text = Some text ->
       let ctx0 := {| content := text; triggering_prefix := None |} in
       let ctx := after_prefix prefix ctx0 in
       let hooks := combine_hooks (_hooks self) (_message_hooks self) in
       _check_prefix self ctx0 = Some prefix ->
       (snd (gather_checks ctx (_checks self)) = false ->
        ignored_by_check t /\ ~ command_executed t
        /\ ~ fires MESSAGE_COMMAND_NOT_FOUND t)
       /\ (snd (gather_checks ctx (_checks self)) = true ->
           none_matches ctx hooks (_components self)
           \/ first_decisive ctx hooks (_components self) (Err HaltExecution) ->
           ~ ignored_by_check t /\ ~ command_executed t
           /\ firings MESSAGE_COMMAND_NOT_FOUND t = 1)
       /\ (snd (gather_checks ctx (_checks self)) = true ->
           forall message,
             first_decisive ctx hooks (_components self)
                            (Err (CommandError message)) ->
             ~ ignored_by_check t /\ ~ command_executed t
             /\ ~ fires MESSAGE_COMMAND_NOT_FOUND t
             /\ In (Responded message) t).
Proof.
  intros t. split.
  - intros [-> | (text & -> & Hn)]; subst t; unfold message_trace.
    + reflexivity.
    + rewrite (on_message_no_prefix _ _ Hn). reflexivity.
  - intros text prefix -> ctx0 ctx hooks Hp. subst t. unfold message_trace.
    split; [| split].
    + intros Hg. rewrite (on_message_gate_failed _ _ _ Hp Hg).
      unfold at_trace. cbn [fst trace]. repeat split.
      * unfold ignored_by_check. apply in_app_iff. right. now left.
      * intros [c H]. apply gate_trace_shape in H as [(i & H) | H]; discriminate.
      * intros [b H]. apply gate_trace_shape in H as [(i & H) | H]; discriminate.
    + intros Hg Hl.
      assert (Hc : loop_completion ctx hooks (_components self) = Value false
                   \/ loop_completion ctx hooks (_components self)
                      = Raised HaltExecution).
      { destruct Hl as [Hl | Hl].
        - left. apply none_matches_completion, Hl.
        - right. apply (first_decisive_completion _ _ _ _ Hl). }
      destruct (on_message_not_found _ _ _ Hp Hg) as (r & Hr & Hrun).
      { destruct Hc as [Hc | Hc]; [left; eauto | right; exact Hc]. }
      rewrite Hrun. unfold at_trace. cbn [fst trace].
      edestruct not_found_trace_facts as (Hi & _ & Hf); [| reflexivity |].
      { intros e He. eapply dispatch_callback_events; eauto. }
      repeat split; [exact Hi | | exact Hf].
      intros [c Hin]. rewrite !in_app_iff in Hin.
      destruct Hin as [[[[Hin | [Hin | []]] | Hin] | [Hin | []]] | Hin];
        try discriminate.
      * apply gate_events in Hin as (i & Hi'). discriminate.
      * apply (reached_found self text prefix) in Hin. fold ctx0 ctx hooks in Hin.
        destruct Hc as [Hc | Hc]; congruence.
      * apply (dispatch_callback_events _ _ _ _ _ Hr) in Hin. discriminate.
    + intros Hg message Hl.
      pose proof (proj1 (first_decisive_completion _ _ _ _ Hl)) as Hc.
      destruct (first_decisive_completion _ _ _ _ Hl)
        as (_ & bf & c & Hcons & _ & Hres).
      rewrite (on_message_command_error _ _ _ Hp message Hg Hc).
      unfold at_trace. cbn [fst trace]. repeat split.
      * unfold ignored_by_check. rewrite !in_app_iff.
        intros [[[Hin | [Hin | []]] | Hin] | [Hin | []]]; try discriminate.
        -- apply gate_events in Hin as (i & Hi'). discriminate.
        -- apply reached_shape in Hin as [(i & tag & H) | (i & x & H)];
             discriminate.
      * intros [x Hin]. rewrite !in_app_iff in Hin.
        destruct Hin as [[[Hin | [Hin | []]] | Hin] | [Hin | []]];
          try discriminate.
        -- apply gate_events in Hin as (i & Hi'). discriminate.
        -- apply (reached_found self text prefix) in Hin.
           fold ctx0 ctx hooks in Hin. congruence.
      * intros [b Hin]. rewrite !in_app_iff in Hin.
        destruct Hin as [[[Hin | [Hin | []]] | Hin] | [Hin | []]];
          try discriminate.
        -- apply gate_events in Hin as (i & Hi'). discriminate.
        -- apply reached_shape in Hin as [(i & tag & H) | (i & x & H)];
             discriminate.
      * apply in_app_iff. right. now left.
Qed.

Lemma ping_client_prefix_pong :
  _check_prefix Examples.ping_client
    {| content := "!pong"; triggering_prefix := None |} = Some "!".
Proof.
  unfold _check_prefix. simpl. rewrite elements_singleton. reflexivity.
Qed.

Lemma message_outcomes_witness :
  message_trace Examples.bang_client (Some "ping") = []
  /\ ~ fires MESSAGE_COMMAND_NOT_FOUND
         (message_trace Examples.guarded_client (Some "!ping"))
  /\ firings MESSAGE_COMMAND_NOT_FOUND
       (message_trace Examples.ping_client (Some "!pong")) = 1.
Proof.
  split; [| split].
  - apply (message_outcomes Examples.bang_client (Some "ping")).
    right. exists "ping". split; [reflexivity | exact bang_client_no_prefix].
  - destruct (message_outcomes Examples.guarded_client (Some "!ping")) as (_ & H).
    destruct (H "!ping" "!" eq_refl guarded_client_prefix) as (Hf & _).
    apply Hf. reflexivity.
  - destruct (message_outcomes Examples.ping_client (Some "!pong")) as (_ & H).
    destruct (H "!pong" "!" eq_refl ping_client_prefix_pong) as (_ & Hn & _).
    apply Hn; [reflexivity |].
    left. intros c [<- | []]. reflexivity.
Defined.

(** *** Lifecycle callbacks *)

Lemma lower_char_idempotent c : Py.lower_char (Py.lower_char c) = Py.lower_char c.
Proof.
  destruct c as [[] [] [] [] [] [] [] []]; reflexivity.
Qed.

Lemma lower_idempotent s : Py.lower (Py.lower s) = Py.lower s.
Proof.
  induction s as [|c s IH]; simpl; [reflexivity |].
  now rewrite lower_char_idempotent, IH.
Qed.





(** *** [open] and [close] *)

Lemma open_alive_raises env register_listener s :
  _is_alive (client s) = true ->
  open env register_listener s = (s, Raised (RuntimeError "Client is already alive")).
Proof.
  intros H. unfold open, mbind, M_bind, this, raise. cbn. rewrite H. reflexivity.
Qed.

Lemma close_not_alive_raises deregister_listener s :
  _is_alive (client s) = false ->
  close deregister_listener s = (s, Raised (RuntimeError "Client isn't active")).
Proof.
  intros H. unfold close, mbind, M_bind, this, raise. cbn. rewrite H. reflexivity.
Qed.

(** [close] on a live client returns normally and leaves the client
    object as it was: [_is_alive] is not written. *)
Lemma close_alive deregister_listener s :
  _is_alive (client s) = true ->
  exists t,
    close deregister_listener s
    = ({| client := client s; trace := trace s ++ t; tasks := tasks s |}, Value tt).
Proof.
  intros H. unfold close. unfold mbind at 1, M_bind at 1, this at 1. cbn.
  rewrite H. cbn. unfold mbind at 1, M_bind at 1.
  destruct (dispatch_client_callback_suppressed CLOSING s) as (r1 & _ & ->).
  cbn.
  set (mid := (if deregister_listener && _events (client s)
               then _ else _) : M unit).
  assert (Hmid : exists t, forall s0,
             mid s0 = ({| client := client s0; trace := trace s0 ++ t;
                          tasks := tasks s0 |}, Value tt)).
  { subst mid. destruct (deregister_listener && _events (client s)).
    - destruct (get_event_type (_accepts (client s)));
        destruct (_server (client s)); eexists; intros s0;
        unfold mbind, M_bind, emit, mret, M_ret; cbn;
        rewrite <- ?app_assoc; reflexivity.
    - exists []. intros s0. unfold mret, M_ret. rewrite app_nil_r.
      destruct s0; reflexivity. }
  destruct Hmid as (tm & Hmid).
  unfold mbind at 1, M_bind at 1. rewrite Hmid. cbn.
  match goal with
  | |- context [dispatch_client_callback CLOSED true ?s'] =>
      destruct (dispatch_client_callback_suppressed CLOSED s') as (r2 & _ & ->)
  end.
  cbn. eexists. rewrite <- !app_assoc. reflexivity.
Qed.

Lemma close_keeps_client deregister_listener s :
  client (fst (close deregister_listener s)) = client s.
Proof.
  destruct (_is_alive (client s)) eqn:H.
  - destruct (close_alive deregister_listener s H) as (t & ->). reflexivity.
  - rewrite (close_not_alive_raises _ _ H). reflexivity.
Qed.

(** C3 at its failing input: a fresh client is opened, then closed
    twice.  Both calls of [close] return normally, because [close] leaves
    [_is_alive] set; for the same reason the client cannot be opened
    again. *)
Example close_twice_is_accepted :
  let opened := fst (run (open Examples.failing_rest true) new_client) in
  let closed := fst (close true opened) in
  snd (run (open Examples.failing_rest true) new_client) = Value tt
  /\ snd (close true opened) = Value tt
  /\ snd (close true closed) = Value tt
  /\ _is_alive (client closed) = true
  /\ snd (open Examples.failing_rest true closed)
     = Raised (RuntimeError "Client is already alive").
Proof. vm_compute. repeat split. Qed.

(** *** The mention prefix *)

Lemma fetches_app t t' : fetches (t ++ t') = fetches t + fetches t'.
Proof.
  induction t as [|e t IH]; simpl; [reflexivity |]. destruct e; simpl; lia.
Qed.

(** The retry loop makes at least one call and at most one more than the
    iterator yields; it touches neither the client nor the tasks. *)
Lemma fetch_loop_bound env : forall iterations k s,
  exists t,
    fst (fetch_loop env iterations k s)
    = {| client := client s; trace := trace s ++ t; tasks := tasks s |}
    /\ 1 <= fetches t <= iterations + 1.
Proof.
  induction iterations as [|n IH]; intros k s; simpl;
    unfold mbind, M_bind, emit, mret, M_ret, raise; cbn.
  - exists [Fetched]. split; [| simpl; lia].
    destruct (fetch_my_user env k); reflexivity.
  - destruct (fetch_my_user env k) as [id | ra | | e].
    + exists [Fetched]. split; [reflexivity | simpl; lia].
    + destruct (Qle_bool ra 30).
      * cbn. destruct (IH (S k)
                 {| client := client s;
                    trace := (trace s ++ [Fetched]) ++ [NextBackoff ra];
                    tasks := tasks s |}) as (t & Ht & Hb).
        exists ([Fetched] ++ [NextBackoff ra] ++ t). split.
        -- rewrite Ht. cbn. rewrite <- !app_assoc. reflexivity.
        -- rewrite !fetches_app. simpl. lia.
      * exists [Fetched]. split; [reflexivity | simpl; lia].
    + destruct (IH (S k)
                 {| client := client s; trace := trace s ++ [Fetched];
                    tasks := tasks s |}) as (t & Ht & Hb).
      exists ([Fetched] ++ t). split.
      * rewrite Ht. cbn. rewrite <- !app_assoc. reflexivity.
      * rewrite !fetches_app. simpl. lia.
    + exists [Fetched]. split; [reflexivity | simpl; lia].
Qed.

(** How the retry loop ends after [j] retried answers. *)
Lemma fetch_loop_decides env : forall iterations j k s,
  j <= iterations ->
  (forall i, i < j -> retryable (fetch_my_user env (k + i)) = true) ->
  (retryable (fetch_my_user env (k + j)) = false \/ j = iterations) ->
  snd (fetch_loop env iterations k s)
  = match fetch_my_user env (k + j) with
    | User id => Value id
    | RateLimited retry_after => Raised (RateLimitedError retry_after)
    | ServerError => Raised InternalServerError
    | Failure e => Raised e
    end.
Proof.
  induction iterations as [|n IH]; intros j k s Hj Hretry Hstop; simpl;
    unfold mbind, M_bind, emit, mret, M_ret, raise; cbn.
  - assert (j = 0) as -> by lia. rewrite Nat.add_0_r.
    destruct (fetch_my_user env k); reflexivity.
  - destruct j as [|j].
    + rewrite Nat.add_0_r in *. destruct Hstop as [Hstop | Hstop]; [| lia].
      destruct (fetch_my_user env k) as [id | ra | | e]; simpl in Hstop;
        try reflexivity; try discriminate.
      rewrite Hstop. reflexivity.
    + pose proof (Hretry 0 ltac:(lia)) as H0. rewrite Nat.add_0_r in H0.
      replace (k + S j) with (S k + j) in * by lia.
      assert (Hretry' : forall i, i < j ->
                retryable (fetch_my_user env (S k + i)) = true).
      { intros i Hi. replace (S k + i) with (k + S i) by lia.
        apply Hretry. lia. }
      assert (Hstop' : retryable (fetch_my_user env (S k + j)) = false \/ j = n)
        by (destruct Hstop; [auto | right; lia]).
      destruct (fetch_my_user env k) as [id | ra | | e]; simpl in H0;
        try discriminate.
      * rewrite H0. cbn. apply (IH j (S k)); auto; lia.
      * apply (IH j (S k)); auto; lia.
Qed.


Lemma fetches_callback_events t :
  (forall e, In e t -> callback_event e = true) -> fetches t = 0.
Proof.
  induction t as [|e t IH]; simpl; intros H; [reflexivity |].
  pose proof (H e (or_introl eq_refl)) as He.
  destruct e; try discriminate; apply IH; intros x Hx; apply H; now right.
Qed.

(** A call of [open] that returns leaves [_is_alive] set. *)
Lemma open_returns_alive env register_listener s s' :
  open env register_listener s = (s', Value tt) ->
  _is_alive (client s') = true.
Proof.
  unfold open, dispatch_client_callback.
  unfold mbind at 1, M_bind at 1, this at 1. cbn.
  destruct (_is_alive (client s)) eqn:Halive; [discriminate |].
  unfold mbind, M_bind, this, emit, update, mret, M_ret, raise, suspend,
    create_task. cbn.
  destruct (dispatch STARTING false (client s)) as [r|]; [| discriminate].
  cbn. destruct (Loop.raised r); [discriminate |]. cbn.
  destruct (_grab_mention_prefix (client s)); cbn;
    [destruct (_cache (client s)) as [[id|]|]; cbn |];
    try match goal with
        | |- context [fetch_loop ?e ?n ?k ?s0] =>
            let Hf := fresh "Hf" in
            destruct (fetch_loop_bound e n k s0) as (t & Hf & _);
            destruct (fetch_loop e n k s0) as [s2 [id | e' |]];
            [simpl in Hf; subst s2; cbn | discriminate | discriminate]
        end;
    (destruct (register_listener && _events (client s));
       [destruct (get_event_type (_accepts (client s))) |]);
    destruct (_server (client s)); cbn; intros [= <-]; reflexivity.
Qed.

(** [open] on a client that is not alive, has to acquire its mention
    prefix, finds no user in the cache and whose STARTING callbacks do not
    fail: everything hinges on the retry loop. *)
Lemma open_mention_prefix env register_listener self :
  _is_alive self = false -> _grab_mention_prefix self = true ->
  (_cache self = None \/ _cache self = Some None) ->
  (forall r, dispatch STARTING false self = Some r -> Loop.raised r = None) ->
  exists t0,
    fetches t0 = 0 /\
    forall s2 c,
      fetch_loop env (backoff_iterations env) 0
        {| client := set__is_alive true self; trace := t0; tasks := [] |}
      = (s2, c) ->
      match c with
      | Value id =>
          exists s3,
            run (open env register_listener) self = (s3, Value tt)
            /\ _prefixes (client s3)
               = {[snd (mention_prefixes id)]}
                 ∪ ({[fst (mention_prefixes id)]} ∪ _prefixes self)
            /\ fetches (trace s3) = fetches (trace s2)
      | Raised e => run (open env register_listener) self = (s2, Raised e)
      | Suspended => run (open env register_listener) self = (s2, Suspended)
      end.
Proof.
  intros Halive Hgrab Hcache Hstart.
  destruct (dispatch_returns STARTING false self) as (r & Hr).
  pose proof (Hstart r Hr) as Hraised.
  assert (Hfr : fetches (Loop.effects r) = 0).
  { apply fetches_callback_events. intros e He.
    eapply dispatch_callback_events; eauto. }
  unfold run, open, dispatch_client_callback.
  unfold mbind, M_bind, this, emit, update, mret, M_ret, raise, create_task. cbn.
  rewrite Halive, Hgrab. cbn. rewrite Hr. cbn. rewrite Hraised. cbn.
  destruct Hcache as [-> | ->]; cbn;
    eexists; (split; [| intros s2 c Hf; rewrite Hf ]).
  1, 3: simpl; rewrite ?fetches_app; simpl; rewrite Hfr; reflexivity.
  all: destruct c as [id | e |]; try reflexivity.
  all: match type of Hf with
       | fetch_loop ?env ?n ?k ?s = _ =>
           destruct (fetch_loop_bound env n k s) as (t & Ht & _);
           rewrite Hf in Ht; simpl in Ht; subst s2
       end.
  all: cbn; destruct (register_listener && _events self);
         destruct (get_event_type (_accepts self)); destruct (_server self);
         cbn; eexists; (split; [reflexivity |]); cbn;
         rewrite ?fetches_app; simpl; split; try reflexivity; lia.
Qed.

(** C8: when a client that is not alive is opened with mention-prefix
    acquisition enabled and the cache holds no user, the user is fetched
    from REST at most once more than the backoff iterator yields; the
    answers retried are server errors and rate limits of at most thirty
    seconds; a rate limit above thirty seconds is raised again; when the
    budget is used up the error of the last call is raised; and once a call
    succeeds with a user of id [id], [open] returns and the prefix set
    is the one before with exactly the two strings [<@digits>] and
    [<@!digits>] added, where [digits] is the decimal numeral of [id]
    without a leading zero. *)
Theorem mention_prefix_acquisition env register_listener self :
  _is_alive self = false -> _grab_mention_prefix self = true ->
  (_cache self = None \/ _cache self = Some None) ->
  (forall r, dispatch STARTING false self = Some r -> Loop.raised r = None) ->
  let out := run (open env register_listener) self in
  fetches (trace (fst out)) <= backoff_iterations env + 1
  /\ forall j,
       j <= backoff_iterations env ->
       (forall i, i < j -> retryable (fetch_my_user env i) = true) ->
       (forall retry_after,
          fetch_my_user env j = RateLimited retry_after ->
          Qle_bool retry_after 30 = false ->
          snd out = Raised (RateLimitedError retry_after))
       /\ (forall id,
             fetch_my_user env j = User id ->
             let digits := Py.str_of_N id in
             snd out = Value tt
             /\ Py.isdecimal digits = true
             /\ Py.decimal_value 0 digits = id
             /\ (digits = "0"
                 \/ exists c rest, digits = String c rest /\ c <> "0"%char)
             /\ _prefixes (client (fst out))
                = {["<@!" +:+ digits +:+ ">"]}
                  ∪ ({["<@" +:+ digits +:+ ">"]} ∪ _prefixes self)
             /\ forall p, p ∈ _prefixes (client (fst out)) <->
                          p = "<@" +:+ digits +:+ ">"
                          \/ p = "<@!" +:+ digits +:+ ">"
                          \/ p ∈ _prefixes self)
       /\ (j = backoff_iterations env ->
           forall e, reply_error (fetch_my_user env j) = Some e ->
                     snd out = Raised e).
Proof.
  intros Halive Hgrab Hcache Hstart out.
  destruct (open_mention_prefix env register_listener self
              Halive Hgrab Hcache Hstart) as (t0 & Ht0 & Hopen).
  set (s1 := {| client := set__is_alive true self; trace := t0; tasks := [] |})
    in Hopen.
  destruct (fetch_loop env (backoff_iterations env) 0 s1) as [s2 c] eqn:Hf.
  specialize (Hopen s2 c eq_refl).
  destruct (fetch_loop_bound env (backoff_iterations env) 0 s1) as (t & Ht & Hb).
  rewrite Hf in Ht. simpl in Ht.
  assert (Hs2 : fetches (trace s2) <= backoff_iterations env + 1).
  { rewrite Ht. simpl. rewrite fetches_app. lia. }
  split.
  - subst out. destruct c as [id | e |].
    + destruct Hopen as (s3 & Hrun & _ & Hfs). rewrite Hrun. cbn [fst].
      rewrite Hfs. exact Hs2.
    + rewrite Hopen. exact Hs2.
    + rewrite Hopen. exact Hs2.
  - intros j Hj Hretry.
    assert (Hd : forall (Hstop : retryable (fetch_my_user env j) = false
                                 \/ j = backoff_iterations env),
               c = match fetch_my_user env j with
                   | User id => Value id
                   | RateLimited ra => Raised (RateLimitedError ra)
                   | ServerError => Raised InternalServerError
                   | Failure e => Raised e
                   end).
    { intros Hstop.
      pose proof (fetch_loop_decides env (backoff_iterations env) j 0 s1
                    Hj Hretry Hstop) as H.
      rewrite Hf in H. exact H. }
    split; [| split].
    + intros ra Hrep Hra. subst out.
      rewrite (Hd ltac:(left; rewrite Hrep; exact Hra)), Hrep in Hopen.
      rewrite Hopen. reflexivity.
    + intros id Hrep digits. subst out digits.
      rewrite (Hd ltac:(left; rewrite Hrep; reflexivity)), Hrep in Hopen.
      destruct Hopen as (s3 & Hrun & Hp & _). rewrite Hrun. cbn [fst snd].
      split; [reflexivity |].
      split; [apply NumeralFacts.str_of_N_digits |].
      split; [apply NumeralFacts.str_of_N_value |].
      split; [apply NumeralFacts.str_of_N_canonical |].
      split; [exact Hp |].
      intros p. rewrite Hp, !elem_of_union, !elem_of_singleton.
      unfold mention_prefixes. cbn [fst snd]. tauto.
    + intros -> e He. subst out.
      rewrite (Hd ltac:(now right)) in Hopen.
      destruct (fetch_my_user env (backoff_iterations env)); simpl in He;
        try discriminate; injection He as <-; rewrite Hopen; reflexivity.
Qed.

Lemma mention_prefix_acquisition_witness :
  snd (run (open Examples.recovering_rest true) Examples.mention_client) = Value tt
  /\ _prefixes (client (fst (run (open Examples.recovering_rest true)
                                 Examples.mention_client)))
     = {["<@!42>"]} ∪ ({["<@42>"]} ∪ ∅).
Proof.
  destruct (mention_prefix_acquisition Examples.recovering_rest true
              Examples.mention_client) as (_ & H).
  - reflexivity.
  - reflexivity.
  - now left.
  - intros r Hr. vm_compute in Hr. injection Hr as <-. reflexivity.
  - destruct (H 2) as (_ & Hu & _).
    + simpl. lia.
    + intros [|[|i]] Hi; [reflexivity | reflexivity | lia].
    + destruct (Hu 42%N eq_refl) as (Hv & _ & _ & _ & Hp & _).
      split; [exact Hv | exact Hp].
Defined.

(** *** The direct-request entry point for interactions *)

Lemma execute_interaction_loop_none ctx hooks : forall cs s,
  (forall c, In c cs -> snd (execute_interaction c ctx hooks) = Ok false) ->
  exists t,
    execute_interaction_loop cs ctx hooks s
    = ({| client := client s; trace := trace s ++ t; tasks := tasks s |},
       Value false)
    /\ forall e, In e t ->
         (exists i tag, e = ComponentEffect i tag)
         \/ (exists i r, e = ExecuteInteraction i r).
Proof.
  induction cs as [|c cs IH]; intros s Hnone; simpl.
  - exists []. split; [| intros e []].
    unfold mret, M_ret. rewrite app_nil_r. destruct s; reflexivity.
  - pose proof (Hnone c (or_introl eq_refl)) as Hc.
    destruct (execute_interaction c ctx hooks) as [tags r]. simpl in Hc. subst r.
    unfold mbind, M_bind, emit. cbn.
    match goal with
    | |- context [execute_interaction_loop cs ctx hooks ?s'] =>
        destruct (IH s' (fun x Hx => Hnone x (or_intror Hx))) as (t & -> & Ht)
    end.
    cbn. eexists. split; [rewrite <- app_assoc; reflexivity |].
    intros e He. rewrite !in_app_iff in He.
    destruct He as [[He | [<- | []]] | He]; eauto.
    apply in_map_iff in He as (tag & <- & _). eauto.
Qed.

(** The handler when no component finds the command. *)
Lemma request_not_found_run self interaction :
  (forall c, In c (_components self) ->
     snd (execute_interaction c
            {| interaction := interaction;
               not_found_message := _interaction_not_found self |}
            (combine_hooks (_hooks self) (_slash_hooks self))) = Ok false) ->
  exists t,
    run (on_interaction_create_request interaction) self
    = ({| client := self; trace := t;
          tasks := [DispatchTask SLASH_COMMAND_NOT_FOUND true
                      [CoroutineFunction [MarkNotFound; CancelDefer]]] |},
       Suspended)
    /\ forall e, In e t ->
         (exists q, e = OnContext (StartDeferTimer q))
         \/ e = OnContext GetResponseFuture
         \/ (exists i tag, e = ComponentEffect i tag)
         \/ (exists i r, e = ExecuteInteraction i r).
Proof.
  intros Hnone.
  unfold run, on_interaction_create_request.
  unfold mbind, M_bind, this, emit, attempt, create_task, suspend, mret, M_ret.
  cbn.
  destruct (_auto_defer_after self) as [q|]; cbn;
    match goal with
    | |- context [execute_interaction_loop ?cs ?ctx ?hooks ?s'] =>
        destruct (execute_interaction_loop_none ctx hooks cs s' Hnone)
          as (tl & -> & Htl)
    end;
    cbn; eexists; (split; [reflexivity |]);
    intros e He; rewrite ?in_app_iff in He; simpl in He.
  - destruct He as [<- | [<- | He]]; eauto.
  - destruct He as [<- | He]; eauto.
Qed.

(** When no component finds the command, the context is never told:
    the done-callback that should mark the interaction as not found is a
    coroutine function, so calling it runs nothing. *)
Lemma request_not_found_never_marks self interaction :
  (forall c, In c (_components self) ->
     snd (execute_interaction c
            {| interaction := interaction;
               not_found_message := _interaction_not_found self |}
            (combine_hooks (_hooks self) (_slash_hooks self))) = Ok false) ->
  let out := run (on_interaction_create_request interaction) self in
  snd out = Suspended
  /\ In NeverAwaited (settle (fst out))
  /\ forall e, In e (settle (fst out)) ->
       e <> OnContext MarkNotFound /\ e <> OnContext CancelDefer
       /\ forall message, e <> OnContext (Respond message).
Proof.
  intros Hnone out. subst out.
  destruct (request_not_found_run self interaction Hnone) as (t & -> & Ht).
  cbn [fst snd]. split; [reflexivity |]. unfold settle. cbn.
  destruct (dispatch_returns SLASH_COMMAND_NOT_FOUND true self) as (r & Hr).
  rewrite Hr. rewrite app_nil_r. split.
  - rewrite !in_app_iff. right. simpl. right.
    rewrite in_app_iff. right. now left.
  - intros e He. rewrite in_app_iff in He. simpl in He.
    rewrite in_app_iff in He. simpl in He.
    destruct He as [He | [<- | [He | [<- | []]]]];
      try (repeat split; discriminate).
    + destruct (Ht e He) as [(q & ->) | [-> | [(i & tag & ->) | (i & x & ->)]]];
        repeat split; discriminate.
    + apply (dispatch_callback_events _ _ _ _ _ Hr) in He.
      destruct e; try discriminate; repeat split; discriminate.
Qed.

(** C6 at its failing input: a client with no command and automatic
    deferral switched off receives an interaction request.  The handler
    stays suspended on the response future; when the loop has run every
    task, the only call made on the context is [get_response_future], the
    done-callback was called without being awaited, and nothing has given
    the future a result. *)
Example request_not_found_never_resolved :
  let out := run (on_interaction_create_request 0) Examples.undeferred_client in
  snd out = Suspended
  /\ settle (fst out)
     = [OnContext GetResponseFuture;
        Dispatched SLASH_COMMAND_NOT_FOUND true;
        NeverAwaited]
  /\ future_resolved (_interaction_not_found Examples.undeferred_client)
       (settle (fst out)) = false.
Proof. vm_compute. repeat split. Qed.

End ClientFacts.

(** ** Components *)

Module ComponentFacts.

Import Components.

(** A started component calls every one of its checks. *)
Lemma execute_started_calls_checks self ctx given chk :
  started self = true -> In chk (_checks self) ->
  In (CheckCalled (check_id chk)) (calls (execute self ctx given)).
Proof.
  intros Hs Hin. unfold execute, check_context, gather_checks. rewrite Hs. simpl.
  assert (Hc : In (CheckCalled (check_id chk))
                  (List.map (fun c => CheckCalled (check_id c)) (_checks self)))
    by (apply in_map_iff; eauto).
  destruct (forallb _ (_checks self)).
  - destruct (first_match ctx (_commands self)) as [es [f|]]; simpl;
      rewrite ?in_app_iff; auto.
  - simpl. exact Hc.
Qed.

(** C4: for every component with [started = false] and every context,
    [Component.execute] returns [False]; it calls none of the component's
    checks, asks none of its commands and leaves the context untouched. *)
Theorem execute_not_started self ctx given :
  started self = false ->
  returned (execute self ctx given) = Ok false
  /\ calls (execute self ctx given) = []
  /\ context (execute self ctx given) = ctx.
Proof. intros H. unfold execute. rewrite H. simpl. auto. Qed.

Lemma execute_not_started_witness :
  calls (execute (Examples.sample_component false) Examples.sample_context None) = []
  /\ calls (execute (Examples.sample_component true) Examples.sample_context None)
     = [CheckCalled 3; CommandAsked 4; CommandExecuted 4 None].
Proof.
  split; [| reflexivity].
  apply (execute_not_started (Examples.sample_component false)
           Examples.sample_context None).
  reflexivity.
Defined.

Section WithDispatcher.

Variable Dispatcher : Type.
Variable subscribe : Listener -> Dispatcher -> Dispatcher.
Variable unsubscribe : Listener -> Dispatcher -> result Dispatcher.

Lemma open_started self d :
  started self = true -> open Dispatcher subscribe unsubscribe self d = (self, d, None).
Proof. intros H. unfold open. rewrite H. reflexivity. Qed.

Lemma close_not_started self d :
  started self = false -> close Dispatcher unsubscribe self d = (self, d, None).
Proof. intros H. unfold close. rewrite H. reflexivity. Qed.

Lemma open_starts self d self' d' :
  open Dispatcher subscribe unsubscribe self d = (self', d', None) ->
  started self' = true.
Proof.
  unfold open. destruct (started self) eqn:Hs.
  - intros [= <- <-]. exact Hs.
  - destruct (_client self).
    + destruct (resubscribe _ _ _ _ d) as [d1 [e|]]; intros [= <- <-]. reflexivity.
    + intros [= <- <-]. reflexivity.
Qed.

Lemma close_stops self d self' d' r :
  close Dispatcher unsubscribe self d = (self', d', r) -> started self' = false.
Proof.
  unfold close. destruct (started self) eqn:Hs; simpl.
  - destruct (_client self).
    + destruct (unsubscribe_all _ _ _ d) as [d1 r1]. intros [= <- <- <-]. reflexivity.
    + intros [= <- <- <-]. reflexivity.
  - intros [= <- <- <-]. exact Hs.
Qed.

(** C10: [Component.open] on a started component and [Component.close]
    on a component that is not started return without error and change
    neither the component (its [started] flag in particular) nor the
    subscriptions held by the dispatcher; hence a second [open] after a
    successful one, and a second [close], are no-ops.  Of the contrast
    drawn with the client, the half about [Client.open] holds: it raises
    on a live client, so a call of [open] that follows one that returned
    raises.  The half about [Client.close] does not: [close] raises on a
    client that is not alive, but it never resets [_is_alive], so on a
    live client it returns normally, and so does every [close] that
    follows it. *)
Theorem component_open_close_idempotent self d :
  (started self = true ->
   open Dispatcher subscribe unsubscribe self d = (self, d, None))
  /\ (started self = false ->
      close Dispatcher unsubscribe self d = (self, d, None))
  /\ (forall self' d',
        open Dispatcher subscribe unsubscribe self d = (self', d', None) ->
        open Dispatcher subscribe unsubscribe self' d' = (self', d', None))
  /\ (forall self' d' r,
        close Dispatcher unsubscribe self d = (self', d', r) ->
        close Dispatcher unsubscribe self' d' = (self', d', None))
  /\ (forall env register_listener s,
        Clients._is_alive (Clients.client s) = true ->
        Clients.open env register_listener s
        = (s, Clients.Raised (RuntimeError "Client is already alive")))
  /\ (forall env register_listener s s' env' register_listener',
        Clients.open env register_listener s = (s', Clients.Value tt) ->
        Clients.open env' register_listener' s'
        = (s', Clients.Raised (RuntimeError "Client is already alive")))
  /\ (forall deregister_listener s,
        Clients._is_alive (Clients.client s) = false ->
        Clients.close deregister_listener s
        = (s, Clients.Raised (RuntimeError "Client isn't active")))
  /\ (forall deregister_listener s deregister_listener',
        Clients._is_alive (Clients.client s) = true ->
        let closed := fst (Clients.close deregister_listener s) in
        snd (Clients.close deregister_listener s) = Clients.Value tt
        /\ Clients._is_alive (Clients.client closed) = true
        /\ snd (Clients.close deregister_listener' closed) = Clients.Value tt).
Proof.
  repeat match goal with |- _ /\ _ => split end.
  - apply open_started.
  - apply close_not_started.
  - intros self' d' H. apply open_started. eapply open_starts; eauto.
  - intros self' d' r H. apply close_not_started. eapply close_stops; eauto.
  - intros. now apply ClientFacts.open_alive_raises.
  - intros env b s s' env' b' H. apply ClientFacts.open_alive_raises.
    eapply ClientFacts.open_returns_alive; eauto.
  - intros. now apply ClientFacts.close_not_alive_raises.
  - intros b s b' Halive closed.
    assert (Hclosed : Clients._is_alive (Clients.client closed) = true)
      by (subst closed; now rewrite ClientFacts.close_keeps_client).
    destruct (ClientFacts.close_alive b s Halive) as (t & Ht).
    destruct (ClientFacts.close_alive b' closed Hclosed) as (t' & Ht').
    split; [now rewrite Ht |]. split; [exact Hclosed | now rewrite Ht'].
Qed.

End WithDispatcher.

(** A dispatcher that keeps the list of subscriptions and refuses to
    unsubscribe what is not subscribed; and a fresh client that is opened,
    then closed twice. *)
Lemma component_open_close_idempotent_witness :
  let subscribe := fun (l : Listener) (d : list Listener) => l :: d in
  let unsubscribe := fun (l : Listener) (d : list Listener) =>
    if existsb (fun x => (fst x =? fst l) && (snd x =? snd l)) d
    then Ok (List.filter (fun x => negb ((fst x =? fst l) && (snd x =? snd l))) d)
    else Err (ValueError "not subscribed") in
  let opened :=
    fst (Clients.run (Clients.open Examples.failing_rest true)
           Clients.new_client) in
  open (list Listener) subscribe unsubscribe (Examples.sample_component true) [(0, 0)]
  = (Examples.sample_component true, [(0, 0)], None)
  /\ close (list Listener) unsubscribe (Examples.sample_component false) []
     = (Examples.sample_component false, [], None)
  /\ Clients.open Examples.failing_rest true opened
     = (opened, Clients.Raised (RuntimeError "Client is already alive"))
  /\ snd (Clients.close true opened) = Clients.Value tt
  /\ snd (Clients.close true (fst (Clients.close true opened)))
     = Clients.Value tt.
Proof.
  intros subscribe unsubscribe opened.
  pose proof (component_open_close_idempotent (list Listener) subscribe
                unsubscribe (Examples.sample_component true) [(0, 0)])
    as (Hopen & _ & _ & _ & _ & Hagain & _ & Hclose).
  pose proof (component_open_close_idempotent (list Listener) subscribe
                unsubscribe (Examples.sample_component false) [])
    as (_ & Hstopped & _).
  split; [apply Hopen; reflexivity |].
  split; [apply Hstopped; reflexivity |].
  split.
  - apply (Hagain Examples.failing_rest true
             (Clients.at_trace Clients.new_client [])).
    reflexivity.
  - destruct (Hclose true opened true eq_refl) as (H1 & _ & H2).
    split; [exact H1 | exact H2].
Defined.

End ComponentFacts.


(** ** Snowflake parsers *)

Module ConversionFacts.

Import Conversion.

Lemma digit_not_space c : Py.isdigit_char c = true -> Py.isspace c = false.
Proof. destruct c as [[] [] [] [] [] [] [] []]; vm_compute; congruence. Qed.

Lemma all_chars_forallb p s :
  Py.all_chars p s = forallb p (list_ascii_of_string s).
Proof. induction s as [|c s IH]; simpl; [reflexivity | now rewrite IH]. Qed.

Lemma forallb_rev {A : Type} (p : A -> bool) (l : list A) :
  forallb p (List.rev l) = forallb p l.
Proof.
  induction l as [|a l IH]; simpl; [reflexivity |].
  rewrite forallb_app, IH. simpl. rewrite andb_true_r. apply andb_comm.
Qed.

Lemma all_chars_rev p s : Py.all_chars p (Py.rev_string s) = Py.all_chars p s.
Proof.
  unfold Py.rev_string.
  rewrite !all_chars_forallb, list_ascii_of_string_of_list_ascii.
  apply forallb_rev.
Qed.

Lemma rev_string_involutive s : Py.rev_string (Py.rev_string s) = s.
Proof.
  unfold Py.rev_string.
  rewrite list_ascii_of_string_of_list_ascii, List.rev_involutive.
  apply string_of_list_ascii_of_string.
Qed.

Lemma lstrip_digits s : Py.all_chars Py.isdigit_char s = true -> Py.lstrip s = s.
Proof.
  destruct s as [|c s]; simpl; [reflexivity |].
  intros H. apply andb_prop in H as [Hc _].
  now rewrite (digit_not_space c Hc).
Qed.

Lemma strip_digits s : Py.all_chars Py.isdigit_char s = true -> Py.strip s = s.
Proof.
  intros H. unfold Py.strip, Py.rstrip. rewrite (lstrip_digits s H).
  rewrite lstrip_digits by (now rewrite all_chars_rev).
  apply rev_string_involutive.
Qed.

Lemma int_digits_digits : forall s acc prev,
  Py.all_chars Py.isdigit_char s = true ->
  s <> EmptyString \/ prev = true ->
  Py.int_digits acc prev s = Some (Py.decimal_value acc s).
Proof.
  induction s as [|c s IH]; intros acc prev Hall Hne; simpl.
  - destruct Hne as [Hne | ->]; [congruence | reflexivity].
  - simpl in Hall. apply andb_prop in Hall as [Hc Hs]. rewrite Hc.
    apply IH; auto.
Qed.

(** [int] of a string that [str.isdecimal] accepts is its decimal value. *)
Lemma int_of_digits s :
  Py.isdecimal s = true -> Py.int s = Some (Z.of_N (Py.decimal_value 0 s)).
Proof.
  intros H. destruct s as [|c s]; [discriminate |].
  unfold Py.isdecimal in H. unfold Py.int. rewrite (strip_digits _ H).
  pose proof (int_digits_digits (String c s) 0%N false H
                ltac:(left; discriminate)) as Hd.
  simpl in H. apply andb_prop in H as [Hc _].
  destruct c as [[] [] [] [] [] [] [] []]; try (vm_compute in Hc; discriminate);
    rewrite Hd; reflexivity.
Qed.

(** *** What a group captures *)

Lemma take_of_run p : forall s lim k,
  k <= run_length p lim s ->
  Py.all_chars p (Py.take k s) = true /\ String.length (Py.take k s) = k.
Proof.
  induction s as [|c s IH]; intros lim k Hk.
  - assert (k = 0) as ->; [| simpl; auto].
    destruct lim as [[|n]|]; simpl in Hk; lia.
  - destruct k as [|k]; [simpl; auto |].
    destruct lim as [[|n]|]; simpl in Hk; try lia;
      destruct (p c) eqn:Hc; try lia;
      simpl; rewrite Hc;
      (destruct (IH _ k ltac:(apply le_S_n, Hk)) as [Ha Hl]);
      rewrite Ha, Hl; auto.
Qed.

Lemma all_chars_append p s s' :
  Py.all_chars p (s +:+ s') = Py.all_chars p s && Py.all_chars p s'.
Proof.
  induction s as [|c s IH]; simpl; [reflexivity |].
  now rewrite IH, andb_assoc.
Qed.

Lemma length_append s s' :
  String.length (s +:+ s') = String.length s + String.length s'.
Proof. induction s as [|c s IH]; simpl; [reflexivity | now rewrite IH]. Qed.

Lemma give_back_eq a rest_match s k :
  give_back a rest_match s k
  = match (if k <? lo a then None else rest_match (Py.drop k s)) with
    | Some (cap, rest) =>
        Some (if captured a then Py.take k s +:+ cap else cap, rest)
    | None =>
        match k with
        | O => None
        | S k' => give_back a rest_match s k'
        end
    end.
Proof. destruct k; reflexivity. Qed.

Lemma give_back_inv a rest_match s : forall k cap rest,
  give_back a rest_match s k = Some (cap, rest) ->
  exists j cap',
    j <= k /\ lo a <= j /\ rest_match (Py.drop j s) = Some (cap', rest)
    /\ cap = if captured a then Py.take j s +:+ cap' else cap'.
Proof.
  induction k as [|k IH]; intros cap rest H; rewrite give_back_eq in H.
  - destruct (0 <? lo a) eqn:Hlo; [discriminate |].
    apply Nat.ltb_ge in Hlo.
    destruct (rest_match (Py.drop 0 s)) as [[cap' rest']|] eqn:Hr;
      [| discriminate].
    injection H as <- <-. exists 0, cap'. repeat split; auto.
  - destruct (S k <? lo a) eqn:Hlo.
    + destruct (IH _ _ H) as (j & cap' & Hj & Hrest). exists j, cap'.
      split; [lia | exact Hrest].
    + apply Nat.ltb_ge in Hlo.
      destruct (rest_match (Py.drop (S k) s)) as [[cap' rest']|] eqn:Hr.
      * injection H as <- <-. exists (S k), cap'. repeat split; auto.
      * destruct (IH _ _ H) as (j & cap' & Hj & Hrest). exists j, cap'.
        split; [lia | exact Hrest].
Qed.

(** The captured text is made of characters of the captured classes, and
    it is not empty when a captured atom must match at least once. *)
Lemma match_here_capture (q : ascii -> bool) : forall p s cap rest,
  (forall a, In a p -> captured a = true ->
             forall c, cls a c = true -> q c = true) ->
  match_here p s = Some (cap, rest) ->
  Py.all_chars q cap = true
  /\ ((exists a, In a p /\ captured a = true /\ 1 <= lo a) ->
      1 <= String.length cap).
Proof.
  induction p as [|a p IH]; intros s cap rest Hq H; simpl in H.
  - injection H as <- <-. split; [reflexivity |].
    intros (a & [] & _).
  - apply give_back_inv in H as (j & cap' & Hj & Hlo & Hrest & ->).
    destruct (IH _ _ _ (fun x Hx => Hq x (or_intror Hx)) Hrest) as [Hall Hlen].
    destruct (take_of_run (cls a) s (hi a) j Hj) as [Htake Hl].
    destruct (captured a) eqn:Hcap.
    + split.
      * rewrite all_chars_append, Hall, andb_true_r.
        rewrite all_chars_forallb in *. apply forallb_forall.
        intros c Hc. apply (Hq a (or_introl eq_refl) Hcap).
        rewrite forallb_forall in Htake. auto.
      * intros (x & [<- | Hx] & Hc & Hone); rewrite length_append.
        -- lia.
        -- specialize (Hlen (ex_intro _ x (conj Hx (conj Hc Hone)))). lia.
    + split; [exact Hall |].
      intros (x & [<- | Hx] & Hc & Hone); [congruence |].
      apply Hlen. eauto.
Qed.

Lemma search_inv p : forall s cap rest,
  search p s = Some (cap, rest) ->
  exists s', match_here p s' = Some (cap, rest).
Proof.
  induction s as [|c s IH]; intros cap rest H; simpl in H.
  - destruct (match_here p "") as [r|] eqn:Hm; [| discriminate].
    injection H as ->. eauto.
  - destruct (match_here p (String c s)) as [r|] eqn:Hm.
    + injection H as ->. eauto.
    + eauto.
Qed.

Lemma findall_inv p : forall fuel s r,
  In r (findall_from fuel p s) ->
  exists s' rest, match_here p s' = Some (r, rest).
Proof.
  induction fuel as [|fuel IH]; intros s r H; simpl in H; [destruct H |].
  destruct (search p s) as [[cap rest]|] eqn:Hs; [| destruct H].
  destruct H as [<- | H].
  - destruct (search_inv _ _ _ _ Hs) as (s' & Hm). eauto.
  - destruct (String.length rest <? String.length s); [eauto | destruct H].
Qed.

(** Every item [findall] returns for a pattern whose group captures
    digits is accepted by [str.isdigit]. *)
Lemma findall_digits p s r :
  captures_digits p -> In r (findall p s) -> Py.isdecimal r = true.
Proof.
  intros [Hcls Hone] Hin. apply findall_inv in Hin as (s' & rest & Hm).
  destruct (match_here_capture Py.isdigit_char _ _ _ _ Hcls Hm) as [Hall Hlen].
  specialize (Hlen Hone). destruct r; [simpl in Hlen; lia | exact Hall].
Qed.

(** *** The parsers of the module *)

Ltac captures_digits_tac :=
  split;
  [ intros a Hin Hcap c Hc; simpl in Hin;
    repeat (destruct Hin as [<- | Hin]; [try discriminate; exact Hc |]);
    destruct Hin
  | exists digits_group; simpl; repeat split; auto 10 ].

Lemma _SnowflakeParser_captures_digits : captures_digits (@regex _SnowflakeParser).
Proof. captures_digits_tac. Qed.

Lemma _ChannelIDParser_captures_digits : captures_digits (@regex _ChannelIDParser).
Proof. captures_digits_tac. Qed.

Lemma _EmojiIDParser_captures_digits : captures_digits (@regex _EmojiIDParser).
Proof. captures_digits_tac. Qed.

Lemma _UserIDParser_captures_digits : captures_digits (@regex _UserIDParser).
Proof. captures_digits_tac. Qed.

Lemma Snowflake_digits s :
  Py.isdecimal s = true -> Snowflake s = Ok (Z.of_N (Py.decimal_value 0 s)).
Proof. intros H. unfold Snowflake. now rewrite (int_of_digits s H). Qed.

Lemma Snowflake_errors s e : Snowflake s = Err e -> exists m, e = ValueError m.
Proof.
  unfold Snowflake. destruct (Py.int s); [discriminate |].
  intros [= <-]. eauto.
Qed.

Lemma isdecimal_isdigit s : Py.isdecimal s = true -> Py.isdigit s = true.
Proof.
  destruct s as [|c s]; [discriminate |]. unfold Py.isdecimal, Py.isdigit.
  generalize (String c s). clear. intros s. induction s as [|d s IH]; simpl;
    [reflexivity |].
  intros H. apply andb_prop in H as [Hd Hs].
  unfold Py.isdigit_str_char. rewrite Hd. simpl. now apply IH.
Qed.

Lemma str_digit_not_space c :
  Py.isdigit_str_char c = true -> Py.isspace c = false.
Proof. destruct c as [[] [] [] [] [] [] [] []]; vm_compute; congruence. Qed.

Lemma strip_str_digits s :
  Py.all_chars Py.isdigit_str_char s = true -> Py.strip s = s.
Proof.
  assert (Hl : forall x, Py.all_chars Py.isdigit_str_char x = true ->
                         Py.lstrip x = x).
  { intros [|c x]; simpl; [reflexivity |].
    intros H. apply andb_prop in H as [Hc _].
    now rewrite (str_digit_not_space c Hc). }
  intros H. unfold Py.strip, Py.rstrip. rewrite (Hl s H).
  rewrite Hl by (now rewrite all_chars_rev).
  apply rev_string_involutive.
Qed.

Lemma superscript_not_underscore c :
  Py.isdigit_str_char c = true -> Py.isdigit_char c = false ->
  (nat_of_ascii c =? 95) = false.
Proof. destruct c as [[] [] [] [] [] [] [] []]; vm_compute; congruence. Qed.

Lemma int_digits_superscript : forall s acc prev,
  Py.all_chars Py.isdigit_str_char s = true ->
  Py.all_chars Py.isdigit_char s = false ->
  Py.int_digits acc prev s = None.
Proof.
  induction s as [|c s IH]; intros acc prev Hall Hnot; simpl in *;
    [discriminate |].
  apply andb_prop in Hall as [Hc Hs].
  destruct (Py.isdigit_char c) eqn:Hd; simpl in Hnot.
  - now apply IH.
  - now rewrite (superscript_not_underscore c Hc Hd).
Qed.

(** [int] raises on a string that [str.isdigit] accepts and
    [str.isdecimal] does not: a superscript digit is no digit of a
    literal. *)
Lemma int_of_superscript s :
  Py.isdigit s = true -> Py.isdecimal s = false -> Py.int s = None.
Proof.
  intros H Hn. destruct s as [|c s]; [discriminate |].
  unfold Py.isdigit in H. unfold Py.isdecimal in Hn.
  unfold Py.int. rewrite (strip_str_digits _ H).
  pose proof (int_digits_superscript (String c s) 0%N false H Hn) as Hd.
  simpl in H. apply andb_prop in H as [Hc _].
  destruct c as [[] [] [] [] [] [] [] []]; try (vm_compute in Hc; discriminate);
    rewrite Hd; reflexivity.
Qed.

(** C9: for every parser and every string over the code points 0 to
    255, [match_id] returns what
    [Snowflake] makes of the string when [str.isdigit] accepts it: the
    snowflake of its decimal value when its characters are decimal
    digits, and the [ValueError] of [int] when one of them is a
    superscript digit.  Otherwise it returns what [Snowflake] makes of the
    first capture of the parser's regex when there is one, and raises
    [ValueError] when there is none.  It never fails with another
    exception, and with a regex whose group captures decimal digits, as in
    the four parsers of the module, the capture does yield a snowflake.
    The two statements that promise a snowflake are made for at most 4300
    digits, the length up to which [int] converts under every
    configuration of the interpreter. *)
Theorem match_id_outcomes (P : SnowflakeParser) (value : string) :
  (Py.isdigit value = true -> match_id P value = Snowflake value)
  /\ (Py.isdecimal value = true -> String.length value <= 4300 ->
      match_id P value = Ok (Z.of_N (Py.decimal_value 0 value)))
  /\ (Py.isdigit value = true -> Py.isdecimal value = false ->
      exists m, match_id P value = Err (ValueError m))
  /\ (Py.isdigit value = false ->
      forall r rs, findall (@regex P) value = r :: rs ->
                   match_id P value = Snowflake r)
  /\ (Py.isdigit value = false ->
      findall (@regex P) value = [] ->
      match_id P value = Err (ValueError "No valid mention or ID found"))
  /\ (forall e, match_id P value = Err e -> exists m, e = ValueError m)
  /\ (captures_digits (@regex P) ->
      Py.isdigit value = false ->
      forall r rs, findall (@regex P) value = r :: rs ->
                   String.length r <= 4300 ->
                   match_id P value = Ok (Z.of_N (Py.decimal_value 0 r))).
Proof.
  unfold match_id. repeat split.
  - intros H. now rewrite H.
  - intros H _. rewrite (isdecimal_isdigit _ H). now apply Snowflake_digits.
  - intros H Hn. rewrite H. unfold Snowflake.
    rewrite (int_of_superscript _ H Hn). eauto.
  - intros H r rs Hf. now rewrite H, Hf.
  - intros H Hf. now rewrite H, Hf.
  - intros e. destruct (Py.isdigit value).
    + apply Snowflake_errors.
    + destruct (findall (@regex P) value) as [|r rs].
      * intros [= <-]. eauto.
      * apply Snowflake_errors.
  - intros Hp H r rs Hf _. rewrite H, Hf. apply Snowflake_digits.
    apply (findall_digits _ value r Hp). rewrite Hf. now left.
Qed.

Lemma match_id_outcomes_witness :
  match_id _UserIDParser "0123" = Ok 123%Z
  /\ match_id _UserIDParser "hi <@!1234> and <@77>" = Ok 1234%Z
  /\ match_id _ChannelIDParser "<@!1234>"
     = Err (ValueError "No valid mention or ID found")
  /\ exists m, match_id _UserIDParser (String "178" "2") = Err (ValueError m).
Proof.
  destruct (match_id_outcomes _UserIDParser "0123") as (_ & H1 & _).
  destruct (match_id_outcomes _UserIDParser "hi <@!1234> and <@77>")
    as (_ & _ & _ & _ & _ & _ & H2).
  destruct (match_id_outcomes _ChannelIDParser "<@!1234>")
    as (_ & _ & _ & _ & H3 & _).
  destruct (match_id_outcomes _UserIDParser (String "178" "2"))
    as (_ & _ & H4 & _).
  split; [| split; [| split]].
  - apply H1; [reflexivity | simpl; lia].
  - apply (H2 _UserIDParser_captures_digits eq_refl "1234" ["77"] eq_refl).
    simpl. lia.
  - exact (H3 eq_refl eq_refl).
  - exact (H4 eq_refl eq_refl).
Defined.

End ConversionFacts.

(** ** Mentions and the parsers that read them *)

Module MentionFacts.

Import Conversion Numerals NumeralFacts.

(** *** Steps of the matcher *)

Lemma append_cons c s r : String c s +:+ r = String c (s +:+ r).
Proof. reflexivity. Qed.

Lemma append_nil r : "" +:+ r = r.
Proof. reflexivity. Qed.

Lemma append_empty_r s : s +:+ "" = s.
Proof.
  induction s as [|c s IH]; [reflexivity |]. now rewrite append_cons, IH.
Qed.

Lemma drop_append s r : Py.drop (String.length s) (s +:+ r) = r.
Proof.
  induction s as [|c s IH]; [reflexivity |]. rewrite append_cons. exact IH.
Qed.

Lemma take_append s r : Py.take (String.length s) (s +:+ r) = s.
Proof.
  induction s as [|c s IH]; [destruct r; reflexivity |].
  rewrite append_cons. simpl. now rewrite IH.
Qed.

Lemma run_length_run p s c r :
  Py.all_chars p s = true -> p c = false ->
  run_length p None (s +:+ String c r) = String.length s.
Proof.
  intros Hs Hc. induction s as [|d s IH].
  - rewrite append_nil. simpl. now rewrite Hc.
  - simpl in Hs. apply andb_prop in Hs as [Hd Hs].
    rewrite append_cons. simpl. rewrite Hd, IH; auto.
Qed.

(** The atom takes [k] characters and the rest of the pattern matches
    what follows. *)
Lemma give_back_first a rest_match s k cap rest :
  lo a <= k -> rest_match (Py.drop k s) = Some (cap, rest) ->
  give_back a rest_match s k
  = Some (if captured a then Py.take k s +:+ cap else cap, rest).
Proof.
  intros Hk Hr. rewrite ConversionFacts.give_back_eq.
  apply Nat.ltb_ge in Hk. rewrite Hk, Hr. reflexivity.
Qed.

Lemma give_back_none a rest_match s : forall k,
  (forall j, j <= k -> lo a <= j -> rest_match (Py.drop j s) = None) ->
  give_back a rest_match s k = None.
Proof.
  induction k as [|k IH]; intros H; rewrite ConversionFacts.give_back_eq.
  - destruct (0 <? lo a) eqn:Hlo; [reflexivity |].
    apply Nat.ltb_ge in Hlo. now rewrite H.
  - destruct (S k <? lo a) eqn:Hlo.
    + apply IH. intros j Hj. apply H. lia.
    + apply Nat.ltb_ge in Hlo. rewrite H by auto. apply IH.
      intros j Hj. apply H. lia.
Qed.

Lemma match_here_cons a p s :
  match_here (a :: p) s
  = give_back a (match_here p) s (run_length (cls a) (hi a) s).
Proof. reflexivity. Qed.

Lemma run_length_lit_hit c s :
  run_length (cls (lit c)) (hi (lit c)) (String c s) = 1.
Proof. unfold lit. cbn. rewrite Ascii.eqb_refl. now destruct s. Qed.

Lemma run_length_lit_miss c s :
  match s with String d _ => Ascii.eqb d c = false | EmptyString => True end ->
  run_length (cls (lit c)) (hi (lit c)) s = 0.
Proof. unfold lit. destruct s as [|d s]; cbn; [reflexivity | now intros ->]. Qed.

Lemma match_lit p c s r :
  match_here p s = Some r -> match_here (lit c :: p) (String c s) = Some r.
Proof.
  intros H. rewrite match_here_cons, run_length_lit_hit. destruct r as [cap rest].
  rewrite (give_back_first _ _ _ 1 cap rest); [reflexivity | simpl; lia | exact H].
Qed.

Lemma match_lit_miss p c s :
  match s with String d _ => Ascii.eqb d c = false | EmptyString => True end ->
  match_here (lit c :: p) s = None.
Proof.
  intros H. rewrite match_here_cons, (run_length_lit_miss _ _ H).
  apply give_back_none. intros j Hj Hlo. simpl in Hlo. lia.
Qed.

Lemma match_lit_fail p c s :
  match_here p s = None -> match_here (lit c :: p) (String c s) = None.
Proof.
  intros H. rewrite match_here_cons, run_length_lit_hit.
  apply give_back_none. intros j Hj Hlo. simpl in Hlo.
  assert (j = 1) as -> by lia. exact H.
Qed.

(** The digits group followed by a closing literal. *)
Lemma match_digits p ds c r cap rest :
  Py.isdecimal ds = true -> Py.isdigit_char c = false ->
  match_here p (String c r) = Some (cap, rest) ->
  match_here (digits_group :: p) (ds +:+ String c r) = Some (ds +:+ cap, rest).
Proof.
  intros Hd Hc Hm. rewrite match_here_cons.
  assert (Hall : Py.all_chars Py.isdigit_char ds = true)
    by (destruct ds; [discriminate | exact Hd]).
  change (cls digits_group) with Py.isdigit_char.
  change (hi digits_group) with (@None nat).
  rewrite (run_length_run _ _ _ _ Hall Hc).
  rewrite (give_back_first _ _ _ _ cap rest).
  - simpl. now rewrite take_append.
  - simpl. destruct ds; [discriminate | simpl; lia].
  - now rewrite drop_append.
Qed.

Lemma search_here p s r : match_here p s = Some r -> search p s = Some r.
Proof. intros H. destruct s; simpl; now rewrite H. Qed.

(** No match starts at a character other than the first literal. *)
Lemma search_no_opening p c s :
  Py.all_chars (fun d => negb (Ascii.eqb d c)) s = true ->
  search (lit c :: p) s = None.
Proof.
  induction s as [|d s IH]; intros H.
  - cbn [search]. rewrite match_lit_miss; [reflexivity | exact I].
  - simpl in H. apply andb_prop in H as [Hd Hs].
    cbn [search]. rewrite match_lit_miss.
    + apply IH, Hs.
    + now apply negb_true_iff.
Qed.

(** An atom that is not captured takes [k] characters. *)
Lemma match_atom_take a p s k r :
  captured a = false -> run_length (cls a) (hi a) s = k -> lo a <= k ->
  match_here p (Py.drop k s) = Some r ->
  match_here (a :: p) s = Some r.
Proof.
  intros Hc Hrun Hlo Hm. rewrite match_here_cons, Hrun. destruct r as [cap rest].
  rewrite (give_back_first _ _ _ k cap rest Hlo Hm), Hc. reflexivity.
Qed.

(** An optional atom that finds nothing to take is skipped. *)
Lemma match_atom_skip a p s :
  captured a = false -> lo a = 0 -> run_length (cls a) (hi a) s = 0 ->
  match_here (a :: p) s = match_here p s.
Proof.
  intros Hc Hlo Hrun.
  rewrite match_here_cons, Hrun, ConversionFacts.give_back_eq, Hlo, Hc.
  simpl. destruct (match_here p s) as [[cap rest]|]; reflexivity.
Qed.

Lemma findall_single p s cap :
  s <> "" -> match_here p s = Some (cap, "") -> match_here p "" = None ->
  findall p s = [cap].
Proof.
  intros Hs Hm He. unfold findall. cbn [findall_from].
  rewrite (search_here _ _ _ Hm).
  destruct s as [|c s]; [congruence |]. simpl String.length.
  cbn [findall_from Nat.ltb Nat.leb]. cbn [search]. now rewrite He.
Qed.

Lemma findall_nothing p s : search p s = None -> findall p s = [].
Proof. intros H. unfold findall. cbn [findall_from]. now rewrite H. Qed.

Ltac digit_char d H :=
  destruct d as [[] [] [] [] [] [] [] []];
  try (vm_compute in H; discriminate); reflexivity.

Lemma digit_not_bang d : Py.isdigit_char d = true -> Ascii.eqb d "!" = false.
Proof. intros H. digit_char d H. Qed.

Lemma digit_not_opening d : Py.isdigit_char d = true -> Ascii.eqb d "<" = false.
Proof. intros H. digit_char d H. Qed.

Lemma digit_not_marker d :
  Py.isdigit_char d = true -> one_of ["@"; "&"; "?"; "!"; "#"]%char d = false.
Proof. intros H. digit_char d H. Qed.

Lemma digits_no_opening ds :
  Py.all_chars Py.isdigit_char ds = true ->
  Py.all_chars (fun d => negb (Ascii.eqb d "<")) (ds +:+ ">") = true.
Proof.
  induction ds as [|d ds IH]; intros H; [reflexivity |].
  simpl in H. apply andb_prop in H as [Hd Hs].
  rewrite append_cons. simpl. now rewrite (digit_not_opening d Hd), IH.
Qed.

Lemma run_one_marker d r :
  Py.isdigit_char d = true ->
  run_length (one_of ["@"; "&"; "?"; "!"; "#"]%char) (Some 3)
             (String "@" (String d r)) = 1.
Proof. intros H. digit_char d H. Qed.

Lemma run_two_markers d r :
  Py.isdigit_char d = true ->
  run_length (one_of ["@"; "&"; "?"; "!"; "#"]%char) (Some 3)
             (String "@" (String "!" (String d r))) = 2.
Proof. intros H. digit_char d H. Qed.

(** What follows the markers of a mention: the digits and the closing
    bracket. *)
Lemma match_id_digits ds :
  Py.isdecimal ds = true ->
  match_here [digits_group; lit ">"] (ds +:+ ">") = Some (ds, "").
Proof.
  intros H.
  rewrite (match_digits [lit ">"] ds ">" "" "" "" H eq_refl).
  - now rewrite append_empty_r.
  - now apply match_lit.
Qed.

(** *** The mentions of a user *)

Section Mention.

Variable ds : string.
Hypothesis ds_digits : Py.isdecimal ds = true.

Let plain : string := String "<" (String "@" (ds +:+ ">")).
Let bang : string := String "<" (String "@" (String "!" (ds +:+ ">"))).

Lemma ds_head : exists d ds', ds = String d ds' /\ Py.isdigit_char d = true.
Proof.
  destruct ds as [|d ds']; [discriminate |]. exists d, ds'.
  split; [reflexivity |]. simpl in ds_digits.
  now apply andb_prop in ds_digits as [Hd _].
Qed.

Lemma user_plain : match_here (@regex _UserIDParser) plain = Some (ds, "").
Proof.
  unfold plain. cbn [regex _UserIDParser]. do 2 apply match_lit.
  rewrite match_atom_skip; [now apply match_id_digits | reflexivity | reflexivity |].
  destruct ds_head as (d & ds' & -> & Hd). rewrite append_cons. cbn.
  now rewrite (digit_not_bang d Hd).
Qed.

Lemma user_bang : match_here (@regex _UserIDParser) bang = Some (ds, "").
Proof.
  unfold bang. cbn [regex _UserIDParser]. do 2 apply match_lit.
  apply (match_atom_take _ _ _ 1); [reflexivity | | simpl; lia |].
  - cbn. now destruct (ds +:+ ">").
  - now apply match_id_digits.
Qed.

Lemma snowflake_plain : match_here (@regex _SnowflakeParser) plain = Some (ds, "").
Proof.
  unfold plain. cbn [regex _SnowflakeParser]. apply match_lit.
  apply (match_atom_take _ _ _ 1); [reflexivity | | simpl; lia |].
  - destruct ds_head as (d & ds' & -> & Hd). rewrite append_cons.
    now apply run_one_marker.
  - now apply match_id_digits.
Qed.

Lemma snowflake_bang : match_here (@regex _SnowflakeParser) bang = Some (ds, "").
Proof.
  unfold bang. cbn [regex _SnowflakeParser]. apply match_lit.
  apply (match_atom_take _ _ _ 2); [reflexivity | | simpl; lia |].
  - destruct ds_head as (d & ds' & -> & Hd). rewrite append_cons.
    now apply run_two_markers.
  - now apply match_id_digits.
Qed.

Lemma channel_rejects_plain : search (@regex _ChannelIDParser) plain = None.
Proof.
  unfold plain. cbn [regex _ChannelIDParser search].
  rewrite match_lit_fail by (now apply match_lit_miss).
  rewrite match_lit_miss by reflexivity.
  apply search_no_opening, digits_no_opening.
  destruct ds; [discriminate | exact ds_digits].
Qed.

Lemma channel_rejects_bang : search (@regex _ChannelIDParser) bang = None.
Proof.
  unfold bang. cbn [regex _ChannelIDParser search].
  rewrite match_lit_fail by (now apply match_lit_miss).
  rewrite match_lit_miss by reflexivity.
  rewrite match_lit_miss by reflexivity.
  apply search_no_opening, digits_no_opening.
  destruct ds; [discriminate | exact ds_digits].
Qed.

Lemma match_id_found (P : SnowflakeParser) value :
  Py.isdigit value = false -> value <> "" ->
  match_here (@regex P) value = Some (ds, "") ->
  match_here (@regex P) "" = None ->
  match_id P value = Ok (Z.of_N (Py.decimal_value 0 ds)).
Proof.
  intros Hv Hne Hm He. unfold match_id.
  rewrite Hv, (findall_single _ _ _ Hne Hm He).
  now apply ConversionFacts.Snowflake_digits.
Qed.

End Mention.

(** X1: the two mention prefixes that [Client.open] builds for a user
    id are read back to that id by [_UserIDParser.match_id] and by
    [_SnowflakeParser.match_id], and [_ChannelIDParser.match_id] raises
    [ValueError] on both. *)
Theorem mention_prefixes_round_trip (id : N) :
  match_id _UserIDParser (fst (Clients.mention_prefixes id)) = Ok (Z.of_N id)
  /\ match_id _UserIDParser (snd (Clients.mention_prefixes id)) = Ok (Z.of_N id)
  /\ match_id _SnowflakeParser (fst (Clients.mention_prefixes id)) = Ok (Z.of_N id)
  /\ match_id _SnowflakeParser (snd (Clients.mention_prefixes id)) = Ok (Z.of_N id)
  /\ match_id _ChannelIDParser (fst (Clients.mention_prefixes id))
     = Err (ValueError "No valid mention or ID found")
  /\ match_id _ChannelIDParser (snd (Clients.mention_prefixes id))
     = Err (ValueError "No valid mention or ID found").
Proof.
  pose proof (str_of_N_digits id) as Hd.
  pose proof (str_of_N_value id) as Hv.
  unfold Clients.mention_prefixes. cbn [fst snd].
  change ("<@" +:+ Py.str_of_N id +:+ ">")
    with (String "<" (String "@" (Py.str_of_N id +:+ ">"))).
  change ("<@!" +:+ Py.str_of_N id +:+ ">")
    with (String "<" (String "@" (String "!" (Py.str_of_N id +:+ ">")))).
  rewrite <- Hv at 2 4 6 8.
  repeat split.
  - apply (match_id_found _ Hd);
      [reflexivity | discriminate | now apply user_plain | reflexivity].
  - apply (match_id_found _ Hd);
      [reflexivity | discriminate | now apply user_bang | reflexivity].
  - apply (match_id_found _ Hd);
      [reflexivity | discriminate | now apply snowflake_plain | reflexivity].
  - apply (match_id_found _ Hd);
      [reflexivity | discriminate | now apply snowflake_bang | reflexivity].
  - unfold match_id. change (Py.isdigit (String "<" ?s)) with false.
    now rewrite (findall_nothing _ _ (channel_rejects_plain _ Hd)).
  - unfold match_id. change (Py.isdigit (String "<" ?s)) with false.
    now rewrite (findall_nothing _ _ (channel_rejects_bang _ Hd)).
Qed.

End MentionFacts.

(** ** The lifecycle of a client *)

Module LifecycleFacts.

Import Clients Spec Lifecycle.

(** What [close] adds to the trace of a live client. *)
Lemma close_trace deregister_listener s :
  _is_alive (client s) = true ->
  exists r1 r2,
    dispatch CLOSING true (client s) = Some r1
    /\ dispatch CLOSED true (client s) = Some r2
    /\ close deregister_listener s
       = ({| client := client s;
             trace :=
               trace s
               ++ (Dispatched CLOSING true :: Loop.effects r1)
               ++ unlistening deregister_listener (client s)
               ++ (Dispatched CLOSED true :: Loop.effects r2);
             tasks := tasks s |}, Value tt).
Proof.
  intros H.
  destruct (ClientFacts.dispatch_returns CLOSING true (client s)) as (r1 & Hr1).
  destruct (ClientFacts.dispatch_returns CLOSED true (client s)) as (r2 & Hr2).
  destruct (ClientFacts.dispatch_suppressed _ _ _ Hr1) as (Hn1 & _).
  destruct (ClientFacts.dispatch_suppressed _ _ _ Hr2) as (Hn2 & _).
  exists r1, r2. split; [exact Hr1 |]. split; [exact Hr2 |].
  unfold close, dispatch_client_callback.
  unfold mbind, M_bind, this, emit, mret, M_ret, raise, suspend. cbn.
  rewrite H. cbn. rewrite Hr1. cbn. rewrite Hn1. cbn. unfold unlistening.
  destruct (deregister_listener && _events (client s));
    [destruct (get_event_type (_accepts (client s)));
     destruct (_server (client s)) |];
    cbn; rewrite Hr2; cbn; rewrite Hn2; cbn;
    repeat (rewrite <- ?app_assoc; cbn); reflexivity.
Qed.

Ltac open_unfold Halive Hr :=
  unfold run, open, dispatch_client_callback;
  unfold mbind, M_bind, this, emit, update, mret, M_ret, raise, suspend,
    create_task;
  cbn; rewrite Halive; cbn; rewrite Hr; cbn.

Lemma open_starting_failed env register_listener self r e :
  _is_alive self = false ->
  dispatch STARTING false self = Some r -> Loop.raised r = Some e ->
  run (open env register_listener) self
  = (at_trace self (Dispatched STARTING false :: Loop.effects r), Raised e).
Proof.
  intros Halive Hr He. open_unfold Halive Hr. rewrite He. reflexivity.
Qed.

Lemma open_plain env register_listener self r :
  _is_alive self = false -> _grab_mention_prefix self = false ->
  dispatch STARTING false self = Some r -> Loop.raised r = None ->
  run (open env register_listener) self
  = ({| client := set__is_alive true self;
        trace := (Dispatched STARTING false :: Loop.effects r)
                 ++ listening register_listener self;
        tasks := [DispatchTask STARTED false []] |}, Value tt).
Proof.
  intros Halive Hgrab Hr He. open_unfold Halive Hr. rewrite He, Hgrab. cbn.
  unfold listening.
  destruct (register_listener && _events self);
    [destruct (get_event_type (_accepts self)) |];
    destruct (_server self); cbn;
    repeat (rewrite <- ?app_assoc; cbn); rewrite ?app_nil_r; reflexivity.
Qed.

Lemma open_cached env register_listener self r id :
  _is_alive self = false -> _grab_mention_prefix self = true ->
  _cache self = Some (Some id) ->
  dispatch STARTING false self = Some r -> Loop.raised r = None ->
  run (open env register_listener) self
  = ({| client :=
          set__grab_mention_prefix false
            (set__prefixes
               ({[snd (mention_prefixes id)]}
                ∪ ({[fst (mention_prefixes id)]} ∪ _prefixes self))
               (set__prefixes ({[fst (mention_prefixes id)]} ∪ _prefixes self)
                  (set__is_alive true self)));
        trace := (Dispatched STARTING false :: Loop.effects r)
                 ++ [CacheAsked] ++ listening register_listener self;
        tasks := [DispatchTask STARTED false []] |}, Value tt).
Proof.
  intros Halive Hgrab Hcache Hr He. open_unfold Halive Hr.
  rewrite He, Hgrab. cbn. rewrite Hcache. cbn.
  unfold listening.
  destruct (register_listener && _events self);
    [destruct (get_event_type (_accepts self)) |];
    destruct (_server self); cbn;
    repeat (rewrite <- ?app_assoc; cbn); rewrite ?app_nil_r; reflexivity.
Qed.

Lemma open_fetch_failed env register_listener self r s2 e :
  _is_alive self = false -> _grab_mention_prefix self = true ->
  (_cache self = None \/ _cache self = Some None) ->
  dispatch STARTING false self = Some r -> Loop.raised r = None ->
  fetch_loop env (backoff_iterations env) 0
    {| client := set__is_alive true self;
       trace := (Dispatched STARTING false :: Loop.effects r)
                ++ cache_lookup self;
       tasks := [] |} = (s2, Raised e) ->
  run (open env register_listener) self = (s2, Raised e).
Proof.
  intros Halive Hgrab Hcache Hr He. open_unfold Halive Hr.
  rewrite He, Hgrab. cbn.
  unfold cache_lookup.
  destruct Hcache as [-> | ->]; cbn; rewrite ?app_nil_r; intros ->; reflexivity.
Qed.

(** When no callback registered under a name fails, the unsuppressed
    dispatch raises nothing. *)
Lemma dispatch_no_failure event_name self :
  (forall cb, In cb (get_client_callbacks event_name self) ->
              Loop.outcome (body cb) = None) ->
  exists r, dispatch event_name false self = Some r /\ Loop.raised r = None.
Proof.
  intros Hok.
  destruct (ClientFacts.dispatch_returns event_name false self) as (r & Hr).
  exists r. split; [exact Hr |].
  rewrite ClientFacts.dispatch_gather in Hr.
  apply (LoopFacts.gather_all_ok _ _ Hr).
  intros c Hc. apply in_map_iff in Hc as (cb & <- & Hcb).
  rewrite ClientFacts.wrap_outcome. auto.
Qed.

(** When one does, it raises. *)
Lemma dispatch_failure event_name self cb e :
  In cb (get_client_callbacks event_name self) ->
  Loop.outcome (body cb) = Some e ->
  exists r e', dispatch event_name false self = Some r
               /\ Loop.raised r = Some e'
               /\ exists cb', In cb' (get_client_callbacks event_name self)
                              /\ Loop.outcome (body cb') = Some e'.
Proof.
  intros Hin Hout.
  destruct (ClientFacts.dispatch_returns event_name false self) as (r & Hr).
  pose proof Hr as Hg. rewrite ClientFacts.dispatch_gather in Hg.
  destruct (LoopFacts.gather_failure_raised _ _ (_wrap_client_callback false cb) e Hg)
    as (e' & He').
  { apply in_map_iff. eauto. }
  { now rewrite ClientFacts.wrap_outcome. }
  exists r, e'. repeat split; auto.
  destruct (LoopFacts.gather_raised_origin _ _ _ Hg He') as (c & Hc & Ho).
  apply in_map_iff in Hc as (cb' & <- & Hcb').
  rewrite ClientFacts.wrap_outcome in Ho. eauto.
Qed.

(** X2: when a callback registered under STARTING fails, [open] raises
    the failure of one of the STARTING callbacks and leaves the client
    object as it was: not alive, the prefixes unchanged, nothing
    subscribed, no REST call made and no task created. *)
Theorem open_aborted_by_starting_callback env register_listener self cb e :
  _is_alive self = false ->
  In cb (get_client_callbacks STARTING self) ->
  Loop.outcome (body cb) = Some e ->
  let out := run (open env register_listener) self in
  (exists cb' e', In cb' (get_client_callbacks STARTING self)
                  /\ Loop.outcome (body cb') = Some e'
                  /\ snd out = Raised e')
  /\ client (fst out) = self
  /\ tasks (fst out) = []
  /\ forall ev, In ev (trace (fst out)) ->
       ev = Dispatched STARTING false \/ callback_event ev = true.
Proof.
  intros Halive Hin Hout out. subst out.
  destruct (dispatch_failure STARTING self cb e Hin Hout)
    as (r & e' & Hr & He' & cb' & Hcb' & Ho').
  rewrite (open_starting_failed env register_listener self r e' Halive Hr He').
  cbn [fst snd at_trace client trace tasks]. repeat split.
  - exists cb', e'. auto.
  - intros ev [<- | Hev]; [now left |]. right.
    eapply ClientFacts.dispatch_callback_events; eauto.
Qed.

Lemma open_aborted_by_starting_callback_witness :
  client (fst (run (open Examples.failing_rest true) Examples.starting_client))
  = Examples.starting_client
  /\ exists e, snd (run (open Examples.failing_rest true) Examples.starting_client)
               = Raised e.
Proof.
  destruct (open_aborted_by_starting_callback Examples.failing_rest true
              Examples.starting_client Examples.failing_callback
              (OtherError "boom"))
    as ((cb' & e' & _ & _ & Hr) & Hc & _).
  - reflexivity.
  - vm_compute. now left.
  - reflexivity.
  - split; [exact Hc | exists e'; exact Hr].
Defined.

(** The retry loop only calls REST and sets the next backoff. *)
Lemma fetch_loop_events env : forall iterations k s,
  exists t,
    fst (fetch_loop env iterations k s)
    = {| client := client s; trace := trace s ++ t; tasks := tasks s |}
    /\ forall ev, In ev t -> ev = Fetched \/ exists q, ev = NextBackoff q.
Proof.
  induction iterations as [|n IH]; intros k s; simpl;
    unfold mbind, M_bind, emit, mret, M_ret, raise; cbn.
  - exists [Fetched]. split; [destruct (fetch_my_user env k); reflexivity |].
    intros ev [<- | []]. now left.
  - destruct (fetch_my_user env k) as [id | ra | | e].
    + exists [Fetched]. split; [reflexivity |]. intros ev [<- | []]. now left.
    + destruct (Qle_bool ra 30).
      * cbn. destruct (IH (S k)
                 {| client := client s;
                    trace := (trace s ++ [Fetched]) ++ [NextBackoff ra];
                    tasks := tasks s |}) as (t & Ht & Hev).
        exists ([Fetched] ++ [NextBackoff ra] ++ t). split.
        -- rewrite Ht. cbn. rewrite <- !app_assoc. reflexivity.
        -- intros ev [<- | [<- | Hin]]; eauto.
      * exists [Fetched]. split; [reflexivity |]. intros ev [<- | []]. now left.
    + destruct (IH (S k)
                 {| client := client s; trace := trace s ++ [Fetched];
                    tasks := tasks s |}) as (t & Ht & Hev).
      exists ([Fetched] ++ t). split.
      * rewrite Ht. cbn. rewrite <- !app_assoc. reflexivity.
      * intros ev [<- | Hin]; eauto.
    + exists [Fetched]. split; [reflexivity |]. intros ev [<- | []]. now left.
Qed.

(** X3: when the mention prefix has to be fetched and the fetch ends in
    an error (an answer that is not retried, or the last answer the
    budget allows), [open] raises that error after it has marked the
    client alive: the client stays alive with its prefixes unchanged,
    nothing subscribed and no task created, so that a second [open]
    raises [RuntimeError]. *)
Theorem failed_fetch_leaves_client_alive env register_listener self j e :
  _is_alive self = false -> _grab_mention_prefix self = true ->
  (_cache self = None \/ _cache self = Some None) ->
  (forall cb, In cb (get_client_callbacks STARTING self) ->
              Loop.outcome (body cb) = None) ->
  j <= backoff_iterations env ->
  (forall i, i < j -> retryable (fetch_my_user env i) = true) ->
  (retryable (fetch_my_user env j) = false \/ j = backoff_iterations env) ->
  reply_error (fetch_my_user env j) = Some e ->
  let out := run (open env register_listener) self in
  snd out = Raised e
  /\ _is_alive (client (fst out)) = true
  /\ _prefixes (client (fst out)) = _prefixes self
  /\ tasks (fst out) = []
  /\ (forall ev, In ev (trace (fst out)) ->
        (forall t, ev <> Subscribed t) /\ (forall b, ev <> ListenerSet b))
  /\ snd (open env register_listener (fst out))
     = Raised (RuntimeError "Client is already alive").
Proof.
  intros Halive Hgrab Hcache Hok Hj Hretry Hstop Herr out. subst out.
  destruct (dispatch_no_failure STARTING self Hok) as (r & Hr & Hn).
  set (s1 := {| client := set__is_alive true self;
                trace := (Dispatched STARTING false :: Loop.effects r)
                         ++ cache_lookup self;
                tasks := [] |}).
  pose proof (ClientFacts.fetch_loop_decides env (backoff_iterations env) j 0 s1
                Hj Hretry Hstop) as Hd.
  destruct (fetch_loop_events env (backoff_iterations env) 0 s1) as (t & Ht & Hev).
  destruct (fetch_loop env (backoff_iterations env) 0 s1) as [s2 c] eqn:Hf.
  cbn [fst snd] in Hd, Ht. simpl in Hd.
  assert (Hc : c = Raised e).
  { rewrite Hd. destruct (fetch_my_user env j); simpl in Herr;
      try discriminate; now injection Herr as <-. }
  clear Hd. subst c.
  rewrite (open_fetch_failed env register_listener self r s2 e
             Halive Hgrab Hcache Hr Hn Hf).
  cbn [fst snd]. subst s2. cbn [client trace tasks].
  split; [reflexivity |]. split; [reflexivity |]. split; [reflexivity |].
  split; [reflexivity |]. split.
  - intros ev H. subst s1. cbn [trace] in H. rewrite !in_app_iff in H.
    assert (Hkind : ev = Dispatched STARTING false \/ callback_event ev = true
                    \/ ev = CacheAsked \/ ev = Fetched
                    \/ exists q, ev = NextBackoff q).
    { destruct H as [[[<- | H] | H] | H].
      - now left.
      - right. left. eapply ClientFacts.dispatch_callback_events; eauto.
      - unfold cache_lookup in H. destruct (_cache self); simpl in H.
        + destruct H as [<- | []]. auto.
        + destruct H.
      - do 3 right. exact (Hev ev H). }
    destruct Hkind as [-> | [Hk | [-> | [-> | (q & ->)]]]];
      split; intros x Hx; try discriminate; subst ev; discriminate.
  - rewrite ClientFacts.open_alive_raises; reflexivity.
Qed.

Lemma failed_fetch_leaves_client_alive_witness :
  let out := run (open Samples.refusing_rest true) Examples.mention_client in
  snd out = Raised (OtherError "ForbiddenError")
  /\ _is_alive (client (fst out)) = true.
Proof.
  intros out.
  destruct (failed_fetch_leaves_client_alive Samples.refusing_rest true
              Examples.mention_client 0 (OtherError "ForbiddenError"))
    as (Hr & Ha & _).
  - reflexivity.
  - reflexivity.
  - now left.
  - intros cb Hin. vm_compute in Hin. destruct Hin.
  - simpl. lia.
  - intros i Hi. lia.
  - now left.
  - reflexivity.
  - split; [exact Hr | exact Ha].
Defined.


(** *** What a successful [open] leaves behind *)

Lemma callback_event_preparing ev : callback_event ev = true -> preparing ev = true.
Proof. destruct ev; simpl; congruence. Qed.

Lemma callback_event_dispatching ev :
  callback_event ev = true -> dispatching ev = true.
Proof. destruct ev; simpl; congruence. Qed.

Lemma fetch_loop_preparing env iterations k s :
  exists t,
    fst (fetch_loop env iterations k s)
    = {| client := client s; trace := trace s ++ t; tasks := tasks s |}
    /\ forall ev, In ev t -> preparing ev = true.
Proof.
  destruct (fetch_loop_events env iterations k s) as (t & Ht & Hev).
  exists t. split; [exact Ht |].
  intros ev Hin. destruct (Hev ev Hin) as [-> | (q & ->)]; reflexivity.
Qed.

Lemma open_fetched env register_listener self r s2 id :
  _is_alive self = false -> _grab_mention_prefix self = true ->
  (_cache self = None \/ _cache self = Some None) ->
  dispatch STARTING false self = Some r -> Loop.raised r = None ->
  fetch_loop env (backoff_iterations env) 0
    {| client := set__is_alive true self;
       trace := (Dispatched STARTING false :: Loop.effects r)
                ++ cache_lookup self;
       tasks := [] |} = (s2, Value id) ->
  run (open env register_listener) self
  = ({| client :=
          set__grab_mention_prefix false
            (set__prefixes
               ({[snd (mention_prefixes id)]}
                ∪ ({[fst (mention_prefixes id)]} ∪ _prefixes (client s2)))
               (set__prefixes
                  ({[fst (mention_prefixes id)]} ∪ _prefixes (client s2))
                  (client s2)));
        trace := trace s2 ++ listening register_listener self;
        tasks := tasks s2 ++ [DispatchTask STARTED false []] |}, Value tt).
Proof.
  intros Halive Hgrab Hcache Hr He. open_unfold Halive Hr.
  rewrite He, Hgrab. cbn.
  unfold cache_lookup.
  destruct Hcache as [-> | ->]; cbn; rewrite ?app_nil_r; intros ->; cbn;
    unfold listening;
    (destruct (register_listener && _events self);
     [destruct (get_event_type (_accepts self)) |]);
    destruct (_server self); cbn;
    repeat (rewrite <- ?app_assoc; cbn); rewrite ?app_nil_r; reflexivity.
Qed.

Lemma open_fetch_suspended env register_listener self r s2 :
  _is_alive self = false -> _grab_mention_prefix self = true ->
  (_cache self = None \/ _cache self = Some None) ->
  dispatch STARTING false self = Some r -> Loop.raised r = None ->
  fetch_loop env (backoff_iterations env) 0
    {| client := set__is_alive true self;
       trace := (Dispatched STARTING false :: Loop.effects r)
                ++ cache_lookup self;
       tasks := [] |} = (s2, Suspended) ->
  run (open env register_listener) self = (s2, Suspended).
Proof.
  intros Halive Hgrab Hcache Hr He. open_unfold Halive Hr.
  rewrite He, Hgrab. cbn.
  unfold cache_lookup.
  destruct Hcache as [-> | ->]; cbn; rewrite ?app_nil_r; intros ->; reflexivity.
Qed.

(** A call of [open] that returns has marked the client alive, created
    the STARTED task, and ends its trace with the registration of the
    listeners; the event manager, the accepted messages, the server and
    the callbacks of the client are what they were. *)
Lemma open_ok env register_listener self s :
  run (open env register_listener) self = (s, Value tt) ->
  _is_alive self = false
  /\ exists t0,
       trace s = t0 ++ listening register_listener self
       /\ (forall ev, In ev t0 -> preparing ev = true)
       /\ _events (client s) = _events self
       /\ _accepts (client s) = _accepts self
       /\ _server (client s) = _server self
       /\ _client_callbacks (client s) = _client_callbacks self
       /\ _is_alive (client s) = true
       /\ tasks s = [DispatchTask STARTED false []].
Proof.
  intros Hrun. destruct (_is_alive self) eqn:Halive.
  { unfold run in Hrun. rewrite ClientFacts.open_alive_raises in Hrun by exact Halive.
    discriminate. }
  split; [reflexivity |].
  destruct (ClientFacts.dispatch_returns STARTING false self) as (r & Hr).
  assert (Hstart : forall ev, In ev (Dispatched STARTING false :: Loop.effects r) ->
                              preparing ev = true).
  { intros ev [<- | Hin]; [reflexivity |].
    apply callback_event_preparing.
    eapply ClientFacts.dispatch_callback_events; eauto. }
  destruct (Loop.raised r) as [e|] eqn:He.
  { rewrite (open_starting_failed env register_listener self r e Halive Hr He) in Hrun.
    discriminate. }
  destruct (_grab_mention_prefix self) eqn:Hgrab.
  - assert (Hfetch : (_cache self = None \/ _cache self = Some None) ->
              exists t0,
                trace s = t0 ++ listening register_listener self
                /\ (forall ev, In ev t0 -> preparing ev = true)
                /\ _events (client s) = _events self
                /\ _accepts (client s) = _accepts self
                /\ _server (client s) = _server self
                /\ _client_callbacks (client s) = _client_callbacks self
                /\ _is_alive (client s) = true
                /\ tasks s = [DispatchTask STARTED false []]).
    { intros Hcache.
      set (s1 := {| client := set__is_alive true self;
                    trace := (Dispatched STARTING false :: Loop.effects r)
                             ++ cache_lookup self;
                    tasks := [] |}).
      destruct (fetch_loop_preparing env (backoff_iterations env) 0 s1)
        as (t & Ht & Hev).
      destruct (fetch_loop env (backoff_iterations env) 0 s1) as [s2 c] eqn:Hf.
      cbn [fst] in Ht. destruct c as [id | e |].
      - rewrite (open_fetched env register_listener self r s2 id
                   Halive Hgrab Hcache Hr He Hf) in Hrun.
        injection Hrun as <-. subst s2. cbn.
        exists ((Dispatched STARTING false :: Loop.effects r)
                ++ cache_lookup self ++ t).
        split; [now rewrite <- !app_assoc |].
        split; [| repeat split].
        intros ev Hin. rewrite !in_app_iff in Hin.
        destruct Hin as [Hin | [Hin | Hin]]; auto.
        unfold cache_lookup in Hin. destruct (_cache self); simpl in Hin.
        + destruct Hin as [<- | []]. reflexivity.
        + destruct Hin.
      - rewrite (open_fetch_failed env register_listener self r s2 e
                   Halive Hgrab Hcache Hr He Hf) in Hrun.
        discriminate.
      - rewrite (open_fetch_suspended env register_listener self r s2
                   Halive Hgrab Hcache Hr He Hf) in Hrun.
        discriminate. }
    destruct (_cache self) as [[id|]|] eqn:Hcache; auto.
    rewrite (open_cached env register_listener self r id
               Halive Hgrab Hcache Hr He) in Hrun.
    injection Hrun as <-. cbn.
    exists ((Dispatched STARTING false :: Loop.effects r) ++ [CacheAsked]).
    split; [now rewrite <- !app_assoc |].
    split; [| repeat split].
    intros ev Hin. rewrite in_app_iff in Hin.
    destruct Hin as [Hin | [<- | []]]; auto.
  - rewrite (open_plain env register_listener self r Halive Hgrab Hr He) in Hrun.
    injection Hrun as <-. cbn.
    exists (Dispatched STARTING false :: Loop.effects r).
    split; [reflexivity |]. split; [exact Hstart | repeat split].
Qed.


Lemma fetches_listening register_listener self :
  fetches (listening register_listener self) = 0.
Proof.
  unfold listening.
  destruct (register_listener && _events self);
    [destruct (get_event_type (_accepts self)) |];
    destruct (_server self); reflexivity.
Qed.

Lemma fetches_dispatch event_name b self r :
  dispatch event_name b self = Some r -> fetches (Loop.effects r) = 0.
Proof.
  intros Hr. apply ClientFacts.fetches_callback_events. intros e He.
  eapply ClientFacts.dispatch_callback_events; eauto.
Qed.

(** X4: when the cache knows the bot's user, [open] takes the id from
    it and never calls REST: it returns normally whatever the REST client
    would answer, adds exactly the two mention prefixes of the cached id
    and clears the flag that asks for them. *)
Theorem open_takes_user_from_cache env register_listener self id :
  _is_alive self = false -> _grab_mention_prefix self = true ->
  _cache self = Some (Some id) ->
  (forall cb, In cb (get_client_callbacks STARTING self) ->
              Loop.outcome (body cb) = None) ->
  let out := run (open env register_listener) self in
  snd out = Value tt
  /\ fetches (trace (fst out)) = 0
  /\ In CacheAsked (trace (fst out))
  /\ (forall p, p ∈ _prefixes (client (fst out)) <->
                p = fst (mention_prefixes id)
                \/ p = snd (mention_prefixes id)
                \/ p ∈ _prefixes self)
  /\ _grab_mention_prefix (client (fst out)) = false
  /\ forall env', run (open env' register_listener) self = out.
Proof.
  intros Halive Hgrab Hcache Hok out. subst out.
  destruct (dispatch_no_failure STARTING self Hok) as (r & Hr & Hn).
  rewrite (open_cached env register_listener self r id Halive Hgrab Hcache Hr Hn).
  cbn [fst snd client trace tasks].
  split; [reflexivity |]. split; [| split; [| split; [| split]]].
  - rewrite !ClientFacts.fetches_app, fetches_listening. simpl.
    rewrite (fetches_dispatch _ _ _ _ Hr). reflexivity.
  - rewrite !in_app_iff. right. left. now left.
  - intros p. cbn. rewrite !elem_of_union, !elem_of_singleton. tauto.
  - reflexivity.
  - intros env'.
    apply (open_cached env' register_listener self r id Halive Hgrab Hcache Hr Hn).
Qed.

Lemma open_takes_user_from_cache_witness :
  let out := run (open Samples.refusing_rest true) Samples.cached_client in
  snd out = Value tt
  /\ fetches (trace (fst out)) = 0
  /\ run (open Examples.recovering_rest true) Samples.cached_client = out.
Proof.
  intros out.
  destruct (open_takes_user_from_cache Samples.refusing_rest true
              Samples.cached_client 42%N)
    as (Hv & Hf & _ & _ & _ & Henv).
  - reflexivity.
  - reflexivity.
  - reflexivity.
  - intros cb Hin. vm_compute in Hin. destruct Hin.
  - split; [exact Hv |]. split; [exact Hf |]. apply Henv.
Defined.

(** X5: on a client without an event manager, [close] never removes
    the listener that [open] installed on the interaction server: the
    removal sits inside the branch guarded by the event manager. *)
Theorem close_keeps_server_listener env register_listener deregister_listener
    self s :
  run (open env register_listener) self = (s, Value tt) ->
  _events self = false -> _server self = true ->
  let closed := close deregister_listener s in
  In (ListenerSet true) (trace s)
  /\ snd closed = Value tt
  /\ forall ev, In ev (trace (fst closed)) -> ev <> ListenerSet false.
Proof.
  intros Hrun Hevents Hserver closed. subst closed.
  destruct (open_ok env register_listener self s Hrun)
    as (_ & t0 & Ht & Hprep & Hev' & _ & Hsrv' & _ & Halive' & _).
  unfold listening in Ht.
  rewrite Hevents, andb_false_r, Hserver in Ht. cbn in Ht.
  destruct (close_trace deregister_listener s Halive')
    as (r1 & r2 & Hr1 & Hr2 & Hclose).
  rewrite Hclose. cbn [fst snd trace].
  split; [rewrite Ht, in_app_iff; right; now left |].
  split; [reflexivity |].
  unfold unlistening. rewrite Hev', Hevents, andb_false_r. cbn [app].
  intros ev Hin. rewrite Ht in Hin. rewrite !in_app_iff in Hin. simpl in Hin.
  rewrite in_app_iff in Hin. simpl in Hin.
  destruct Hin as [[Hin | [<- | []]] | [<- | [Hin | [<- | Hin]]]];
    try discriminate.
  - apply Hprep in Hin. intros ->. discriminate.
  - apply (ClientFacts.dispatch_callback_events _ _ _ _ _ Hr1) in Hin.
    intros ->. discriminate.
  - apply (ClientFacts.dispatch_callback_events _ _ _ _ _ Hr2) in Hin.
    intros ->. discriminate.
Qed.

Lemma close_keeps_server_listener_witness :
  let s := fst (run (open Samples.refusing_rest true) Samples.rest_only_client) in
  In (ListenerSet true) (trace s)
  /\ snd (close true s) = Value tt
  /\ ~ In (ListenerSet false) (trace (fst (close true s))).
Proof.
  intros s.
  destruct (close_keeps_server_listener Samples.refusing_rest true true
              Samples.rest_only_client s)
    as (Hin & Hv & Hnot).
  - reflexivity.
  - reflexivity.
  - reflexivity.
  - split; [exact Hin |]. split; [exact Hv |].
    intros H. exact (Hnot _ H eq_refl).
Defined.

Lemma in_listening register_listener self t :
  In (Subscribed t) (listening register_listener self)
  <-> register_listener && _events self = true
      /\ (get_event_type (_accepts self) = Some t \/ t = InteractionCreateEvent).
Proof.
  unfold listening. rewrite in_app_iff.
  assert (Hs : ~ In (Subscribed t) (if _server self then [ListenerSet true] else []))
    by (destruct (_server self); [intros [H | []]; discriminate | intros []]).
  destruct (register_listener && _events self).
  - rewrite in_app_iff. split.
    + intros [[H | [H | []]] | H]; [| injection H as <-; auto | contradiction].
      destruct (get_event_type (_accepts self)); [| destruct H].
      destruct H as [H | []]. injection H as <-. auto.
    + intros [_ [H | ->]].
      * left. left. rewrite H. now left.
      * left. right. now left.
  - split; [intros [[] | H]; contradiction | intros [H _]; discriminate].
Qed.

Lemma in_unlistening deregister_listener self t :
  In (Unsubscribed t) (unlistening deregister_listener self)
  <-> deregister_listener && _events self = true
      /\ (get_event_type (_accepts self) = Some t \/ t = InteractionCreateEvent).
Proof.
  unfold unlistening.
  assert (Hs : ~ In (Unsubscribed t) (if _server self then [ListenerSet false] else []))
    by (destruct (_server self); [intros [H | []]; discriminate | intros []]).
  destruct (deregister_listener && _events self).
  - rewrite !in_app_iff. split.
    + intros [H | [[H | []] | H]]; [| injection H as <-; auto | contradiction].
      destruct (get_event_type (_accepts self)); [| destruct H].
      destruct H as [H | []]. injection H as <-. auto.
    + intros [_ [H | ->]].
      * left. rewrite H. now left.
      * right. left. now left.
  - split; [intros [] | intros [H _]; discriminate].
Qed.


Lemma listening_no_unsubscribed register_listener self t :
  ~ In (Unsubscribed t) (listening register_listener self).
Proof.
  unfold listening.
  destruct (register_listener && _events self);
    [destruct (get_event_type (_accepts self)) |];
    destruct (_server self); simpl; intros H;
    repeat (destruct H as [H | H]; [discriminate |]); exact H.
Qed.

(** X6: [close] unsubscribes from the event manager exactly the event
    types [open] subscribed to, when it is asked to deregister as [open]
    was asked to register: the message event type of the accepted
    messages, if any, and the interaction event type, both only on a
    client with an event manager. *)
Theorem close_unsubscribes_what_open_subscribed env b self s t :
  run (open env b) self = (s, Value tt) ->
  In (Subscribed t) (trace s)
  <-> In (Unsubscribed t) (trace (fst (close b s))).
Proof.
  intros Hrun.
  destruct (open_ok env b self s Hrun)
    as (_ & t0 & Ht & Hprep & Hev' & Hacc' & _ & _ & Halive' & _).
  destruct (close_trace b s Halive') as (r1 & r2 & Hr1 & Hr2 & Hclose).
  rewrite Hclose. cbn [fst trace]. rewrite Ht.
  assert (Hsub : In (Subscribed t) (t0 ++ listening b self)
                 <-> In (Subscribed t) (listening b self)).
  { rewrite in_app_iff. split; [| auto].
    intros [H | H]; [| exact H]. apply Hprep in H. discriminate. }
  assert (Hunsub :
    In (Unsubscribed t)
       ((t0 ++ listening b self)
        ++ (Dispatched CLOSING true :: Loop.effects r1)
        ++ unlistening b (client s)
        ++ Dispatched CLOSED true :: Loop.effects r2)
    <-> In (Unsubscribed t) (unlistening b (client s))).
  { rewrite !in_app_iff. simpl. rewrite ?in_app_iff. simpl.
    split; [| tauto].
    intros [[H | H] | [[H | H] | [H | [H | H]]]]; try discriminate; auto.
    - apply Hprep in H. discriminate.
    - now apply listening_no_unsubscribed in H.
    - apply (ClientFacts.dispatch_callback_events _ _ _ _ _ Hr1) in H.
      discriminate.
    - apply (ClientFacts.dispatch_callback_events _ _ _ _ _ Hr2) in H.
      discriminate. }
  rewrite Hsub, Hunsub, in_listening, in_unlistening, Hev', Hacc'. reflexivity.
Qed.

Lemma close_unsubscribes_what_open_subscribed_witness :
  let s := fst (run (open Samples.refusing_rest true)
                    Samples.fresh_gateway_client) in
  In (Subscribed MessageCreateEvent) (trace s)
  /\ In (Unsubscribed MessageCreateEvent) (trace (fst (close true s))).
Proof.
  intros s.
  assert (Hin : In (Subscribed MessageCreateEvent) (trace s))
    by (vm_compute; auto).
  split; [exact Hin |].
  apply (close_unsubscribes_what_open_subscribed Samples.refusing_rest true
           Samples.fresh_gateway_client s MessageCreateEvent);
    [reflexivity | exact Hin].
Defined.

(** X7: [close] on a live client returns normally when each of its
    CLOSING and CLOSED callbacks returns or raises an instance of
    [Exception], which is what the values of [exn] are: such a failure is
    logged and stops neither the removal of the listeners nor the CLOSED
    dispatch.  CLOSING is dispatched, and its callbacks are through,
    before the first listener is removed; CLOSED is dispatched after the
    last one.  An exception that derives from [BaseException] only is not
    caught by [_wrap_client_callback] and is not covered. *)
Theorem close_survives_failing_callbacks deregister_listener s :
  _is_alive (client s) = true ->
  let closed := close deregister_listener s in
  snd closed = Value tt
  /\ (forall name cb e,
        name = CLOSING \/ name = CLOSED ->
        In cb (get_client_callbacks name (client s)) ->
        Loop.outcome (body cb) = Some e ->
        In (Logged (callback_id cb) e) (trace (fst closed)))
  /\ exists t1 t2,
       trace (fst closed)
       = trace s ++ Dispatched CLOSING true :: t1
         ++ unlistening deregister_listener (client s)
         ++ Dispatched CLOSED true :: t2
       /\ (forall ev, In ev t1 -> callback_event ev = true)
       /\ (forall ev, In ev t2 -> callback_event ev = true).
Proof.
  intros Halive closed. subst closed.
  destruct (close_trace deregister_listener s Halive)
    as (r1 & r2 & Hr1 & Hr2 & Hclose).
  rewrite Hclose. cbn [fst snd trace].
  split; [reflexivity |]. split.
  - intros name cb e Hname Hin Hout.
    apply in_app_iff. right. simpl. right. rewrite !in_app_iff. simpl.
    destruct Hname as [-> | ->].
    + left.
      now apply (proj2 (proj2 (ClientFacts.dispatch_suppressed _ _ _ Hr1)) cb e).
    + right. right. right.
      now apply (proj2 (proj2 (ClientFacts.dispatch_suppressed _ _ _ Hr2)) cb e).
  - exists (Loop.effects r1), (Loop.effects r2).
    split; [reflexivity |].
    split; intros ev Hin.
    + exact (ClientFacts.dispatch_callback_events _ _ _ _ _ Hr1 Hin).
    + exact (ClientFacts.dispatch_callback_events _ _ _ _ _ Hr2 Hin).
Qed.

Lemma close_survives_failing_callbacks_witness :
  let closed := run (close true) Samples.closing_client in
  snd closed = Value tt
  /\ In (Logged 5 (OtherError "late")) (trace (fst closed))
  /\ In (Dispatched CLOSED true) (trace (fst closed)).
Proof.
  intros closed.
  destruct (close_survives_failing_callbacks true
              {| client := Samples.closing_client; trace := []; tasks := [] |})
    as (Hv & Hlog & t1 & t2 & Ht & _).
  - reflexivity.
  - split; [exact Hv |]. split.
    + apply (Hlog CLOSING Samples.late_failing_callback (OtherError "late")).
      * now left.
      * vm_compute. now left.
      * reflexivity.
    + subst closed. unfold run. rewrite Ht.
      apply in_app_iff. right. simpl. right.
      rewrite !in_app_iff. right. right. now left.
Defined.

End LifecycleFacts.

(** ** Callbacks, prefixes and accepted messages *)

Module RegistryFacts.

Import Clients Lifecycle Registry.

Lemma filter_keeps_all {A : Type} (f : A -> bool) (l : list A) :
  existsb f l = false -> List.filter (fun x => negb (f x)) l = l.
Proof.
  induction l as [|a l IH]; simpl; [reflexivity |].
  intros H. apply orb_false_iff in H as [Ha Hl]. rewrite Ha. simpl.
  now rewrite IH.
Qed.

Lemma same_callback_refl cb : same_callback cb cb = true.
Proof. apply Nat.eqb_refl. Qed.

(** X8: [remove_client_callback] either removes the callback from the
    set registered under the name, which held it, and leaves every other
    name alone, or raises [KeyError], which it does exactly when the
    callback is not registered under the name. *)
Theorem remove_client_callback_outcome name cb self :
  match remove_client_callback name cb self with
  | Ok self' =>
      existsb (same_callback cb) (get_client_callbacks name self) = true
      /\ get_client_callbacks name self'
         = List.filter (fun x => negb (same_callback cb x))
                       (get_client_callbacks name self)
      /\ (forall other,
            Py.lower other <> Py.lower name ->
            get_client_callbacks other self' = get_client_callbacks other self)
  | Err e =>
      (exists key, e = KeyError key)
      /\ existsb (same_callback cb) (get_client_callbacks name self) = false
  end.
Proof.
  unfold remove_client_callback, get_client_callbacks.
  destruct (_client_callbacks self !! Py.lower name) as [cbs|] eqn:Hk; simpl.
  - destruct (existsb (same_callback cb) cbs) eqn:Hex.
    + split; [reflexivity |].
      destruct (List.filter _ cbs) as [|c cbs'] eqn:Hf; simpl.
      * split; [now rewrite lookup_delete_eq |].
        intros other Hne. rewrite lookup_delete_ne by congruence. reflexivity.
      * split; [now rewrite lookup_insert_eq |].
        intros other Hne. rewrite lookup_insert_ne by congruence. reflexivity.
    + split; [eauto | reflexivity].
  - split; [eauto | reflexivity].
Qed.

Lemma remove_client_callback_outcome_witness :
  exists self',
    remove_client_callback "CLOSED" RegistrySamples.first_callback
      RegistrySamples.one_callback_client = Ok self'
    /\ get_client_callbacks "closed" self' = [].
Proof.
  pose proof (remove_client_callback_outcome "CLOSED"
                RegistrySamples.first_callback
                RegistrySamples.one_callback_client) as H.
  destruct (remove_client_callback "CLOSED" RegistrySamples.first_callback
              RegistrySamples.one_callback_client) as [self' | e].
  - exists self'. split; [reflexivity |].
    destruct H as (_ & Hg & _).
    change (get_client_callbacks "closed" self')
      with (get_client_callbacks "CLOSED" self').
    rewrite Hg. reflexivity.
  - destruct H as [_ H]. discriminate.
Defined.

(** X9: removing a callback right after it was added, under any
    spelling of the name, succeeds and gives back the callbacks the
    client had under every name. *)
Theorem remove_client_callback_undoes_add name name' cb self :
  Py.lower name' = Py.lower name ->
  existsb (same_callback cb) (get_client_callbacks name self) = false ->
  exists self',
    remove_client_callback name' cb (add_client_callback name cb self) = Ok self'
    /\ forall other,
         get_client_callbacks other self' = get_client_callbacks other self.
Proof.
  intros Hl Hnew.
  unfold remove_client_callback, add_client_callback, get_client_callbacks in *.
  rewrite Hl.
  destruct (_client_callbacks self !! Py.lower name) as [cbs|] eqn:Hk;
    simpl in Hnew.
  - change (fun x : Callback => callback_id x =? callback_id cb)
      with (same_callback cb).
    rewrite Hnew. simpl. rewrite lookup_insert_eq.
    rewrite existsb_app. simpl. rewrite same_callback_refl, orb_true_r.
    rewrite List.filter_app, (filter_keeps_all _ _ Hnew). simpl.
    rewrite same_callback_refl. simpl. rewrite app_nil_r.
    eexists. split; [reflexivity |].
    intros other. destruct cbs as [|c cbs]; simpl.
    + destruct (decide (Py.lower other = Py.lower name)) as [-> | Hne].
      * now rewrite lookup_delete_eq, Hk.
      * rewrite lookup_delete_ne, lookup_insert_ne by congruence. reflexivity.
    + destruct (decide (Py.lower other = Py.lower name)) as [-> | Hne].
      * now rewrite lookup_insert_eq, Hk.
      * rewrite !lookup_insert_ne by congruence. reflexivity.
  - simpl. rewrite lookup_insert_eq. simpl. rewrite same_callback_refl. simpl.
    eexists. split; [reflexivity |].
    intros other. simpl.
    destruct (decide (Py.lower other = Py.lower name)) as [-> | Hne].
    + now rewrite lookup_delete_eq, Hk.
    + rewrite lookup_delete_ne, lookup_insert_ne by congruence. reflexivity.
Qed.

Lemma remove_client_callback_undoes_add_witness :
  exists self',
    remove_client_callback "CLOSED" RegistrySamples.second_callback
      (add_client_callback "closed" RegistrySamples.second_callback
         RegistrySamples.one_callback_client) = Ok self'
    /\ get_client_callbacks "Closed" self' = [RegistrySamples.first_callback].
Proof.
  destruct (remove_client_callback_undoes_add "closed" "CLOSED"
              RegistrySamples.second_callback RegistrySamples.one_callback_client)
    as (self' & Hr & Hg).
  - reflexivity.
  - reflexivity.
  - exists self'. split; [exact Hr |]. rewrite Hg. reflexivity.
Defined.

(** X10: after [add_prefix], a message whose content starts with one
    of the prefixes given is never left without a prefix: [_check_prefix]
    returns a prefix the content starts with. *)
Theorem added_prefix_is_matched arg p self ctx :
  In p (prefixes_of arg) -> Py.startswith (content ctx) p = true ->
  exists q, _check_prefix (add_prefix arg self) ctx = Some q
            /\ Py.startswith (content ctx) q = true.
Proof.
  intros Hin Hs.
  assert (Hmem : p ∈ _prefixes (add_prefix arg self)).
  { destruct arg as [q | ps]; simpl in *.
    - destruct Hin as [<- | []]. apply elem_of_union. left.
      now apply elem_of_singleton.
    - apply elem_of_union. left. apply elem_of_list_to_set.
      now apply list_elem_of_In. }
  destruct (_check_prefix (add_prefix arg self) ctx) as [q|] eqn:Hc.
  - exists q. split; [reflexivity |].
    now apply (ClientFacts._check_prefix_some _ _ _ Hc).
  - exfalso. unfold _check_prefix in Hc.
    destruct (match _prefix_getter (add_prefix arg self) with
              | Some getter => List.find (Py.startswith (content ctx)) (getter ctx)
              | None => None
              end); [discriminate |].
    pose proof (find_none _ _ Hc p) as Hp.
    rewrite Hp in Hs; [discriminate |].
    apply list_elem_of_In, elem_of_elements, Hmem.
Qed.

Lemma added_prefix_is_matched_witness :
  exists q, _check_prefix (add_prefix (Many ["?"; "!"]) new_client)
              {| content := "!ping"; triggering_prefix := None |} = Some q
            /\ Py.startswith "!ping" q = true.
Proof.
  apply (added_prefix_is_matched (Many ["?"; "!"]) "!" new_client
           {| content := "!ping"; triggering_prefix := None |}).
  - simpl. auto.
  - reflexivity.
Defined.

(** X11: [remove_prefix] raises [KeyError] exactly on a prefix that is
    not in the set; otherwise it takes out that prefix and no other, and
    the prefix is not matched again for any context for which the prefix
    getter, if there is one, does not return it.  Removing a prefix that
    [add_prefix] has just added to a set that did not hold it gives the
    set back. *)
Theorem remove_prefix_outcome p self :
  match remove_prefix p self with
  | Ok self' =>
      p ∈ _prefixes self
      /\ (forall q, q ∈ _prefixes self' <-> q ∈ _prefixes self /\ q <> p)
      /\ (forall ctx,
            (forall getter, _prefix_getter self = Some getter ->
                            ~ In p (getter ctx)) ->
            _check_prefix self' ctx <> Some p)
  | Err e => e = KeyError p /\ p ∉ _prefixes self
  end
  /\ (p ∉ _prefixes self ->
      exists self', remove_prefix p (add_prefix (One p) self) = Ok self'
                    /\ _prefixes self' = _prefixes self).
Proof.
  split.
  - unfold remove_prefix. destruct (bool_decide (p ∈ _prefixes self)) eqn:Hb.
    + apply bool_decide_eq_true in Hb. split; [exact Hb |]. split.
      * intros q. simpl. rewrite elem_of_difference, elem_of_singleton. tauto.
      * intros ctx Hg Hc.
        apply ClientFacts._check_prefix_some in Hc as [_ [(g & Hg' & Hp) | Hin]].
        -- simpl in Hg'. exact (Hg g Hg' Hp).
        -- simpl in Hin. apply elem_of_difference in Hin as [_ Hn].
           apply Hn. now apply elem_of_singleton.
    + apply bool_decide_eq_false in Hb. split; [reflexivity | exact Hb].
  - intros Hnot. unfold remove_prefix, add_prefix. simpl.
    rewrite bool_decide_eq_true_2
      by (apply elem_of_union; left; now apply elem_of_singleton).
    eexists. split; [reflexivity |]. simpl.
    apply set_eq. intros q.
    rewrite elem_of_difference, elem_of_union, elem_of_singleton.
    split; [intros [[-> | H] Hn]; [contradiction | exact H] |].
    intros H. split; [now right |]. intros ->. contradiction.
Qed.

Lemma remove_prefix_outcome_witness :
  remove_prefix "!" new_client = Err (KeyError "!")
  /\ (exists self', remove_prefix "!" (add_prefix (One "!") new_client) = Ok self'
                    /\ _prefixes self' = _prefixes new_client)
  /\ exists self',
       remove_prefix "!" RegistrySamples.question_getter_client = Ok self'
       /\ _check_prefix self' {| content := "!ping"; triggering_prefix := None |}
          <> Some "!".
Proof.
  destruct (remove_prefix_outcome "!" new_client) as [Hout Hround].
  split; [| split].
  - destruct (remove_prefix "!" new_client) as [self' | e] eqn:Hr.
    + destruct Hout as [Hin _]. vm_compute in Hr. discriminate.
    + destruct Hout as [-> _]. reflexivity.
  - apply Hround. apply not_elem_of_empty.
  - destruct (remove_prefix_outcome "!" RegistrySamples.question_getter_client)
      as [Hgetter _].
    destruct (remove_prefix "!" RegistrySamples.question_getter_client)
      as [self' | e] eqn:Hr.
    + exists self'. split; [reflexivity |].
      destruct Hgetter as (_ & _ & Hnever). apply Hnever.
      intros getter [= <-] [Hq | []]. discriminate.
    + vm_compute in Hr. discriminate.
Defined.


Lemma set_message_accepts_ok accepts self self' :
  set_message_accepts accepts self = Ok self' -> self' = set__accepts accepts self.
Proof.
  unfold set_message_accepts.
  destruct (get_event_type accepts); [destruct (negb (_events self)) |];
    congruence.
Qed.

Lemma message_event_type accepts t :
  get_event_type accepts = Some t -> t <> InteractionCreateEvent.
Proof. destruct accepts; simpl; congruence. Qed.

(** X12: when the accepted messages are changed between [open] and
    [close], [close] does not unsubscribe the message event type [open]
    subscribed to: it looks the event type up again from the new setting,
    so the listener of the old type stays subscribed. *)
Theorem accepts_change_leaks_listener env self s accepts self' t :
  run (open env true) self = (s, Value tt) ->
  _events self = true ->
  get_event_type (_accepts self) = Some t ->
  set_message_accepts accepts (client s) = Ok self' ->
  get_event_type accepts <> Some t ->
  In (Subscribed t) (trace s)
  /\ snd (run (close true) self') = Value tt
  /\ ~ In (Unsubscribed t) (trace (fst (run (close true) self'))).
Proof.
  intros Hrun Hevents Htype Hset Hother.
  destruct (LifecycleFacts.open_ok env true self s Hrun)
    as (_ & t0 & Ht & _ & _ & _ & _ & _ & Halive' & _).
  apply set_message_accepts_ok in Hset. subst self'.
  split.
  { rewrite Ht. apply in_app_iff. right.
    apply LifecycleFacts.in_listening. rewrite Hevents. auto. }
  unfold run.
  destruct (LifecycleFacts.close_trace true
              {| client := set__accepts accepts (client s);
                 trace := []; tasks := [] |} Halive')
    as (r1 & r2 & Hr1 & Hr2 & Hclose).
  rewrite Hclose. cbn [fst snd trace client].
  split; [reflexivity |].
  simpl. rewrite !in_app_iff. simpl.
  intros [H | [H | [H | [H | H]]]]; try discriminate.
  - apply (ClientFacts.dispatch_callback_events _ _ _ _ _ Hr1) in H.
    discriminate.
  - apply LifecycleFacts.in_unlistening in H as [_ [H | H]].
    + simpl in H. contradiction.
    + exact (message_event_type _ _ Htype H).
  - apply (ClientFacts.dispatch_callback_events _ _ _ _ _ Hr2) in H.
    discriminate.
Qed.

Lemma accepts_change_leaks_listener_witness :
  let s := fst (run (open Samples.refusing_rest true)
                    Samples.fresh_gateway_client) in
  In (Subscribed MessageCreateEvent) (trace s)
  /\ ~ In (Unsubscribed MessageCreateEvent)
          (trace (fst (run (close true) (set__accepts DM_ONLY (client s))))).
Proof.
  intros s.
  destruct (accepts_change_leaks_listener Samples.refusing_rest
              Samples.fresh_gateway_client s DM_ONLY
              (set__accepts DM_ONLY (client s)) MessageCreateEvent)
    as (Hin & _ & Hnot).
  - reflexivity.
  - reflexivity.
  - reflexivity.
  - reflexivity.
  - discriminate.
  - split; [exact Hin | exact Hnot].
Defined.


(** *** Matching and taking off the prefix *)

Lemma find_first {A : Type} (f : A -> bool) (before after : list A) (x : A) :
  (forall y, In y before -> f y = false) -> f x = true ->
  List.find f (before ++ x :: after) = Some x.
Proof.
  intros Hb Hx. induction before as [|y before IH]; simpl.
  - now rewrite Hx.
  - rewrite (Hb y) by now left. apply IH. intros z Hz. apply Hb. now right.
Qed.

(** X13: a prefix returned by the prefix getter takes precedence over
    the static prefixes, and among the getter's prefixes the first one
    the content starts with is the one returned. *)
Theorem getter_prefix_takes_precedence self getter ctx before p after :
  _prefix_getter self = Some getter ->
  getter ctx = before ++ p :: after ->
  (forall q, In q before -> Py.startswith (content ctx) q = false) ->
  Py.startswith (content ctx) p = true ->
  _check_prefix self ctx = Some p.
Proof.
  intros Hg Hl Hb Hp. unfold _check_prefix.
  now rewrite Hg, Hl, (find_first _ _ _ _ Hb Hp).
Qed.

Lemma getter_prefix_takes_precedence_witness :
  _check_prefix
    (set__prefixes {["!"]}
       {| _accepts := NONE; _auto_defer_after := None; _cache := None;
          _checks := []; _client_callbacks := ∅; _components := [];
          _events := false; _grab_mention_prefix := false; _hooks := None;
          _interaction_not_found := None; _slash_hooks := None;
          _is_alive := false; _message_hooks := None;
          _prefix_getter := Some (fun _ => ["?"; "!p"; "!"]);
          _prefixes := ∅; _server := false |})
    {| content := "!ping"; triggering_prefix := None |} = Some "!p".
Proof.
  apply (getter_prefix_takes_precedence _ (fun _ => ["?"; "!p"; "!"]) _
           ["?"] "!p" ["!"]).
  - reflexivity.
  - reflexivity.
  - intros q [<- | []]. reflexivity.
  - reflexivity.
Defined.

Lemma startswith_split s : forall p,
  Py.startswith s p = true -> exists rest, s = p +:+ rest.
Proof.
  unfold Py.startswith. induction s as [|c s IH]; intros [|d p] H; simpl in H.
  - now exists "".
  - discriminate.
  - now exists (String c s).
  - destruct (Ascii.ascii_dec d c) as [-> | Hne]; [| discriminate].
    destruct (IH p H) as (rest & ->). now exists rest.
Qed.

(** X14: when the matched prefix starts with a character that is not
    white space, the content of the context handed to the checks and the
    components is what followed the prefix, without its leading white
    space, and the prefix is recorded as the triggering prefix. *)
Theorem after_prefix_strips c p' ctx :
  Py.isspace c = false ->
  Py.startswith (content ctx) (String c p') = true ->
  exists rest,
    content ctx = String c p' +:+ rest
    /\ content (after_prefix (String c p') ctx) = Py.lstrip rest
    /\ triggering_prefix (after_prefix (String c p') ctx) = Some (String c p').
Proof.
  intros Hc Hs. destruct (startswith_split _ _ Hs) as (rest & Hrest).
  exists rest. split; [exact Hrest |]. split; [| reflexivity].
  unfold after_prefix. cbn [content set_triggering_prefix set_content].
  rewrite Hrest.
  replace (Py.lstrip (String c p' +:+ rest)) with (String c p' +:+ rest)
    by (rewrite MentionFacts.append_cons; simpl; now rewrite Hc).
  now rewrite MentionFacts.drop_append.
Qed.

Lemma after_prefix_strips_witness :
  content (after_prefix "!" {| content := "!  ping me"; triggering_prefix := None |})
  = "ping me".
Proof.
  destruct (after_prefix_strips "!" ""
              {| content := "!  ping me"; triggering_prefix := None |})
    as (rest & Hrest & Hc & _).
  - reflexivity.
  - reflexivity.
  - rewrite Hc. cbn [content] in Hrest.
    rewrite MentionFacts.append_cons, MentionFacts.append_nil in Hrest.
    injection Hrest as <-. reflexivity.
Defined.

End RegistryFacts.

(** ** Interactions received as gateway events *)

Module InteractionFacts.

Import Clients Interactions.

Section WithFutures.

Variable await_future : Component -> SlashContext -> list nat * option exn.

Lemma event_loop_none ctx hooks : forall cs s,
  (forall c, In c cs -> snd (execute_interaction c ctx hooks) = Ok false) ->
  exists t,
    execute_interaction_event_loop await_future cs ctx hooks s
    = ({| client := client s; trace := trace s ++ t; tasks := tasks s |},
       Value false)
    /\ forall e, In e t -> component_event e = true.
Proof.
  induction cs as [|c cs IH]; intros s Hnone; simpl.
  - exists []. split; [| intros e []].
    unfold mret, M_ret. rewrite app_nil_r. destruct s; reflexivity.
  - pose proof (Hnone c (or_introl eq_refl)) as Hc.
    destruct (execute_interaction c ctx hooks) as [tags r]. simpl in Hc. subst r.
    unfold mbind, M_bind, emit. cbn.
    match goal with
    | |- context [execute_interaction_event_loop _ cs ctx hooks ?s'] =>
        destruct (IH s' (fun x Hx => Hnone x (or_intror Hx))) as (t & -> & Ht)
    end.
    cbn. eexists. split; [rewrite <- app_assoc; reflexivity |].
    intros e He. rewrite !in_app_iff in He.
    destruct He as [[He | [<- | []]] | He]; auto.
    apply in_map_iff in He as (tag & <- & _). reflexivity.
Qed.

(** X15: when a component finds the command of an interaction received
    as a gateway event and the future it returned completes, the handler
    returns without dispatching SLASH_COMMAND_NOT_FOUND and without
    marking the context as not found; the components after the one that
    found the command are not asked. *)
Theorem interaction_event_found self interaction before c after :
  let ctx := {| interaction := interaction;
                not_found_message := _interaction_not_found self |} in
  let hooks := combine_hooks (_hooks self) (_slash_hooks self) in
  _components self = before ++ c :: after ->
  (forall x, In x before -> snd (execute_interaction x ctx hooks) = Ok false) ->
  snd (execute_interaction c ctx hooks) = Ok true ->
  snd (await_future c ctx) = None ->
  let out := run (on_interaction_create_event await_future (Some interaction))
                 self in
  snd out = Value tt
  /\ tasks (fst out) = []
  /\ (forall e, In e (trace (fst out)) -> component_event e = true)
  /\ (forall x, In x after ->
        (forall y, In y (before ++ [c]) -> component_id y <> component_id x) ->
        forall r, ~ In (ExecuteInteraction (component_id x) r) (trace (fst out))).
Proof.
  intros ctx hooks Hcs Hnone Hc Hf out. subst out.
  unfold run, on_interaction_create_event.
  unfold mbind, M_bind, this, emit, attempt, mret, M_ret. cbn.
  rewrite Hcs.
  assert (Hshape : forall s,
    exists t,
      execute_interaction_event_loop await_future (before ++ c :: after)
        ctx hooks s
      = ({| client := client s; trace := trace s ++ t; tasks := tasks s |},
         Value true)
      /\ (forall e, In e t -> component_event e = true)
      /\ forall x, In x after ->
           (forall y, In y (before ++ [c]) -> component_id y <> component_id x) ->
           forall r, ~ In (ExecuteInteraction (component_id x) r) t).
  { clear Hcs. revert Hnone. induction before as [|x before IH];
      intros Hnone s; simpl.
    - destruct (execute_interaction c ctx hooks) as [tags r]. simpl in Hc.
      subst r.
      destruct (await_future c ctx) as [tags' failure]. simpl in Hf.
      subst failure.
      unfold mbind, M_bind, emit, mret, M_ret. cbn.
      eexists. split; [rewrite <- app_assoc; reflexivity |]. split.
      + intros e He. rewrite !in_app_iff in He.
        destruct He as [[He | [<- | []]] | He]; auto;
          apply in_map_iff in He as (tag & <- & _); reflexivity.
      + intros x Hx Hid r He. rewrite !in_app_iff in He.
        destruct He as [[He | [He | []]] | He].
        * apply in_map_iff in He as (tag & Htag & _). discriminate.
        * injection He as Hi _. apply (Hid c); [now left | exact Hi].
        * apply in_map_iff in He as (tag & Htag & _). discriminate.
    - pose proof (Hnone x (or_introl eq_refl)) as Hx.
      destruct (execute_interaction x ctx hooks) as [tags r]. simpl in Hx.
      subst r.
      unfold mbind, M_bind, emit. cbn.
      match goal with
      | |- context [execute_interaction_event_loop _ _ ctx hooks ?s'] =>
          destruct (IH (fun y Hy => Hnone y (or_intror Hy)) s')
            as (t & -> & Ht & Hafter)
      end.
      cbn. eexists. split; [rewrite <- app_assoc; reflexivity |]. split.
      + intros e He. rewrite !in_app_iff in He.
        destruct He as [[He | [<- | []]] | He]; auto.
        apply in_map_iff in He as (tag & <- & _). reflexivity.
      + intros z Hz Hid r He. rewrite !in_app_iff in He.
        destruct He as [[He | [He | []]] | He].
        * apply in_map_iff in He as (tag & Htag & _). discriminate.
        * injection He as Hi _. apply (Hid x); [now left | exact Hi].
        * apply (Hafter z Hz) with (r := r); [| exact He].
          intros y Hy. apply Hid. now right. }
  destruct (_auto_defer_after self) as [q|]; cbn;
    match goal with
    | |- context [execute_interaction_event_loop _ _ _ _ ?s'] =>
        destruct (Hshape s') as (t & Hloop & Ht & Hafter)
    end; subst ctx hooks; rewrite Hloop; cbn;
    (split; [reflexivity |]); (split; [reflexivity |]); split.
  - intros e [<- | He]; [reflexivity | auto].
  - intros x Hx Hid r [He | He]; [discriminate | exact (Hafter x Hx Hid r He)].
  - exact Ht.
  - exact Hafter.
Qed.

(** X16: when no component finds the command of an interaction
    received as a gateway event, the handler dispatches
    SLASH_COMMAND_NOT_FOUND, waits for its callbacks, then marks the
    context as not found and cancels the deferral, once each and in this
    order, and returns. *)
Theorem interaction_event_not_found self interaction :
  (forall c, In c (_components self) ->
     snd (execute_interaction c
            {| interaction := interaction;
               not_found_message := _interaction_not_found self |}
            (combine_hooks (_hooks self) (_slash_hooks self))) = Ok false) ->
  let out := run (on_interaction_create_event await_future (Some interaction))
                 self in
  snd out = Value tt
  /\ tasks (fst out) = []
  /\ exists t r,
       dispatch SLASH_COMMAND_NOT_FOUND true self = Some r
       /\ trace (fst out)
          = t ++ [Dispatched SLASH_COMMAND_NOT_FOUND true] ++ Loop.effects r
            ++ [OnContext MarkNotFound; OnContext CancelDefer]
       /\ (forall e, In e t -> component_event e = true)
       /\ (forall e, In e (Loop.effects r) -> callback_event e = true).
Proof.
  intros Hnone out. subst out.
  unfold run, on_interaction_create_event.
  unfold mbind, M_bind, this, emit, attempt, mret, M_ret. cbn.
  destruct (_auto_defer_after self) as [q|]; cbn;
    match goal with
    | |- context [execute_interaction_event_loop _ ?cs ?ctx ?hooks ?s'] =>
        destruct (event_loop_none ctx hooks cs s' Hnone) as (t & -> & Ht)
    end; cbn;
    match goal with
    | |- context [dispatch_client_callback SLASH_COMMAND_NOT_FOUND true ?s'] =>
        destruct (ClientFacts.dispatch_client_callback_suppressed
                    SLASH_COMMAND_NOT_FOUND s') as (r & Hr & ->)
    end; cbn in *;
    (split; [reflexivity |]); (split; [reflexivity |]).
  - exists (OnContext (StartDeferTimer q) :: t), r.
    split; [exact Hr |]. split.
    + cbn. rewrite <- !app_assoc. reflexivity.
    + split.
      * intros e [<- | He]; [reflexivity | auto].
      * intros e He. eapply ClientFacts.dispatch_callback_events; eauto.
  - exists t, r.
    split; [exact Hr |]. split.
    + cbn. rewrite <- !app_assoc. reflexivity.
    + split; [exact Ht |].
      intros e He. eapply ClientFacts.dispatch_callback_events; eauto.
Qed.

(** X29: a command error raised by the first component that does not
    return a falsy value, or by the future that component returned, is
    answered with [ctx.respond] of its message: the handler returns,
    SLASH_COMMAND_NOT_FOUND is not dispatched and the context is not
    marked as not found. *)
Theorem interaction_event_command_error self interaction before c after message :
  let ctx := {| interaction := interaction;
                not_found_message := _interaction_not_found self |} in
  let hooks := combine_hooks (_hooks self) (_slash_hooks self) in
  _components self = before ++ c :: after ->
  (forall x, In x before -> snd (execute_interaction x ctx hooks) = Ok false) ->
  (snd (execute_interaction c ctx hooks) = Err (CommandError message)
   \/ (snd (execute_interaction c ctx hooks) = Ok true
       /\ snd (await_future c ctx) = Some (CommandError message))) ->
  let out := run (on_interaction_create_event await_future (Some interaction))
                 self in
  snd out = Value tt
  /\ tasks (fst out) = []
  /\ exists t,
       trace (fst out) = t ++ [OnContext (Respond message)]
       /\ forall e, In e t -> component_event e = true.
Proof.
  intros ctx hooks Hcs Hnone Hc out. subst out.
  unfold run, on_interaction_create_event.
  unfold mbind, M_bind, this, emit, attempt, mret, M_ret. cbn.
  rewrite Hcs.
  assert (Hshape : forall s,
    exists t,
      execute_interaction_event_loop await_future (before ++ c :: after)
        ctx hooks s
      = ({| client := client s; trace := trace s ++ t; tasks := tasks s |},
         Raised (CommandError message))
      /\ forall e, In e t -> component_event e = true).
  { clear Hcs. revert Hnone. induction before as [|x before IH];
      intros Hnone s; simpl.
    - destruct (execute_interaction c ctx hooks) as [tags r]. simpl in Hc.
      destruct Hc as [-> | [-> Hf]].
      + unfold mbind, M_bind, emit, raise. cbn.
        eexists. split; [reflexivity |].
        intros e He. rewrite !in_app_iff in He.
        destruct He as [He | [<- | []]]; auto.
        apply in_map_iff in He as (tag & <- & _). reflexivity.
      + destruct (await_future c ctx) as [tags' failure]. simpl in Hf.
        subst failure.
        unfold mbind, M_bind, emit, raise. cbn.
        eexists. split; [rewrite <- app_assoc; reflexivity |].
        intros e He. rewrite !in_app_iff in He.
        destruct He as [[He | [<- | []]] | He]; auto;
          apply in_map_iff in He as (tag & <- & _); reflexivity.
    - pose proof (Hnone x (or_introl eq_refl)) as Hx.
      destruct (execute_interaction x ctx hooks) as [tags r]. simpl in Hx.
      subst r.
      unfold mbind, M_bind, emit. cbn.
      match goal with
      | |- context [execute_interaction_event_loop _ _ ctx hooks ?s'] =>
          destruct (IH (fun y Hy => Hnone y (or_intror Hy)) s')
            as (t & -> & Ht)
      end.
      cbn. eexists. split; [rewrite <- app_assoc; reflexivity |].
      intros e He. rewrite !in_app_iff in He.
      destruct He as [[He | [<- | []]] | He]; auto.
      apply in_map_iff in He as (tag & <- & _). reflexivity. }
  destruct (_auto_defer_after self) as [q|]; cbn;
    match goal with
    | |- context [execute_interaction_event_loop _ _ _ _ ?s'] =>
        destruct (Hshape s') as (t & Hloop & Ht)
    end; subst ctx hooks; rewrite Hloop; cbn;
    (split; [reflexivity |]); (split; [reflexivity |]).
  - exists (OnContext (StartDeferTimer q) :: t). split; [reflexivity |].
    intros e [<- | He]; [reflexivity | auto].
  - exists t. split; [reflexivity | exact Ht].
Qed.

End WithFutures.

Lemma interaction_event_found_witness :
  let out := run (on_interaction_create_event prompt_future (Some 0))
                 slash_client in
  snd out = Value tt
  /\ ~ In (Dispatched SLASH_COMMAND_NOT_FOUND true) (trace (fst out)).
Proof.
  intros out.
  destruct (interaction_event_found prompt_future slash_client 0
              [blind_component] finding_component [blind_component])
    as (Hv & _ & Hev & _).
  - reflexivity.
  - intros x [<- | []]. reflexivity.
  - reflexivity.
  - reflexivity.
  - split; [exact Hv |]. intros H. apply Hev in H. discriminate.
Defined.

Lemma interaction_event_not_found_witness :
  let out := run (on_interaction_create_event prompt_future (Some 0))
                 blind_client in
  snd out = Value tt /\ tasks (fst out) = [].
Proof.
  intros out.
  destruct (interaction_event_not_found prompt_future blind_client 0)
    as (Hv & Ht & _).
  - intros c [<- | [<- | []]]; reflexivity.
  - split; [exact Hv | exact Ht].
Defined.

Lemma interaction_event_command_error_witness :
  let out := run (on_interaction_create_event failing_future (Some 0))
                 finding_client in
  snd out = Value tt
  /\ exists t, trace (fst out) = t ++ [OnContext (Respond "no permission")].
Proof.
  intros out.
  destruct (interaction_event_command_error failing_future finding_client 0
              [blind_component] finding_component [] "no permission")
    as (Hv & _ & t & Ht & _).
  - reflexivity.
  - intros x [<- | []]. reflexivity.
  - right. split; reflexivity.
  - split; [exact Hv | exists t; exact Ht].
Defined.

End InteractionFacts.

(** ** Executing and restarting a component *)

Module ExecutionFacts.

Import Components.

Lemma first_match_found ctx c f matches after : forall before,
  (forall x, In x before -> check_context_of x ctx = []) ->
  check_context_of c ctx = f :: matches ->
  first_match ctx (before ++ c :: after)
  = (List.map (fun x => CommandAsked (command_id x)) (before ++ [c]), Some f).
Proof.
  induction before as [|x before IH]; intros H Hc; simpl.
  - now rewrite Hc.
  - rewrite (H x) by now left.
    rewrite IH by (try (intros y Hy; apply H; now right); exact Hc).
    reflexivity.
Qed.

(** X17: when one of the checks of a started component refuses the
    context, [Component.execute] returns [False] after calling the checks
    only: no command is asked for a match, none is executed, and the
    context is left as it was. *)
Theorem execute_refused_by_check self ctx given chk :
  started self = true -> In chk (_checks self) -> check_fn chk ctx = false ->
  returned (execute self ctx given) = Ok false
  /\ context (execute self ctx given) = ctx
  /\ calls (execute self ctx given)
     = List.map (fun c => CheckCalled (check_id c)) (_checks self).
Proof.
  intros Hs Hin Hf. unfold execute, check_context, gather_checks.
  rewrite Hs. simpl.
  assert (Hall : forallb (fun c => check_fn c ctx) (_checks self) = false).
  { destruct (forallb _ (_checks self)) eqn:Hb; [| reflexivity].
    rewrite forallb_forall in Hb. rewrite (Hb chk Hin) in Hf. discriminate. }
  rewrite Hall. auto.
Qed.

Lemma execute_refused_by_check_witness :
  calls (execute ComponentSamples.guarded_component Examples.sample_context None)
  = [CheckCalled 3; CheckCalled 5].
Proof.
  apply (execute_refused_by_check ComponentSamples.guarded_component
           Examples.sample_context None ComponentSamples.refusing_check).
  - reflexivity.
  - simpl. auto.
  - reflexivity.
Defined.

(** X18: a started component whose checks pass asks its commands in
    order up to the first one that produces a match and executes the
    first match of that command: the later commands are not asked.  The
    command executes on the context with the command name sliced off the
    content and the leading white space removed, the name recorded as the
    triggering name, and with the component's hooks merged into the hooks
    it was given; [execute] returns [True], or raises what the command
    raised. *)
Theorem execute_first_match self ctx given before c f matches after :
  started self = true ->
  forallb (fun k => check_fn k ctx) (_checks self) = true ->
  _commands self = before ++ c :: after ->
  (forall x, In x before -> check_context_of x ctx = []) ->
  check_context_of c ctx = f :: matches ->
  let done := execute self ctx given in
  let merged := merge_hooks (hooks self) given in
  calls done
  = List.map (fun k => CheckCalled (check_id k)) (_checks self)
    ++ List.map (fun x => CommandAsked (command_id x)) (before ++ [c])
    ++ [CommandExecuted (exec_id (found f)) merged]
  /\ context done
     = {| content := Py.lstrip (Py.drop (String.length (name f)) (content ctx));
          triggering_name := Some (name f);
          command := Some (exec_id (found f)) |}
  /\ returned done
     = match exec_fn (found f) (context done) merged with
       | None => Ok true
       | Some e => Err e
       end.
Proof.
  intros Hs Hchecks Hcmds Hbefore Hc done merged. subst done merged.
  unfold execute, check_context, gather_checks. rewrite Hs. simpl.
  rewrite Hchecks, Hcmds, (first_match_found ctx c f matches after before Hbefore Hc).
  simpl. rewrite <- app_assoc. auto.
Qed.

Lemma execute_first_match_witness :
  let done := execute ComponentSamples.busy_component Examples.sample_context
                      (Some [8]) in
  calls done
  = [CheckCalled 3; CommandAsked 6; CommandAsked 4; CommandExecuted 4 (Some [8; 7])]
  /\ content (context done) = "me".
Proof.
  intros done.
  destruct (execute_first_match ComponentSamples.busy_component
              Examples.sample_context (Some [8])
              [ComponentSamples.silent_command] Examples.sample_command
              {| name := "ping";
                 found := {| exec_id := 4; exec_fn := fun _ _ => None |} |}
              [] [ComponentSamples.silent_command])
    as (Hcalls & Hctx & _).
  - reflexivity.
  - reflexivity.
  - reflexivity.
  - intros x [<- | []]. reflexivity.
  - reflexivity.
  - split; [exact Hcalls |]. subst done. rewrite Hctx. reflexivity.
Defined.

Section WithDispatcher.

Variable Dispatcher : Type.
Variable subscribe : Listener -> Dispatcher -> Dispatcher.
Variable unsubscribe : Listener -> Dispatcher -> result Dispatcher.

Lemma resubscribe_skips : forall ls d,
  (forall l, In l ls ->
     exists e, unsubscribe l d = Err e /\ is_lookup_failure e = true) ->
  resubscribe Dispatcher subscribe unsubscribe ls d = (d, None).
Proof.
  induction ls as [|l ls IH]; intros d H; simpl; [reflexivity |].
  destruct (H l (or_introl eq_refl)) as (e & -> & ->).
  apply IH. intros x Hx. apply H. now right.
Qed.

(** X19: [Component.open] subscribes no listener whose [unsubscribe]
    raises a lookup failure: the [continue] in the handler skips the
    [subscribe] that follows.  When that is so for every listener of the
    component, [open] marks the component started and leaves the
    dispatcher as it was. *)
Theorem open_skips_unsubscribed_listeners self d :
  started self = false ->
  (forall l, In l (_listeners self) ->
     exists e, unsubscribe l d = Err e /\ is_lookup_failure e = true) ->
  open Dispatcher subscribe unsubscribe self d = (set_started true self, d, None).
Proof.
  intros Hs H. unfold open. rewrite Hs.
  destruct (_client self); [| reflexivity].
  now rewrite (resubscribe_skips _ _ H).
Qed.

Lemma unsubscribe_all_stops after l e : forall before d d1,
  unsubscribe_all Dispatcher unsubscribe before d = (d1, None) ->
  unsubscribe l d1 = Err e ->
  unsubscribe_all Dispatcher unsubscribe (before ++ l :: after) d = (d1, Some e).
Proof.
  induction before as [|x before IH]; intros d d1 Hb Hl; simpl in *.
  - injection Hb as ->. now rewrite Hl.
  - destruct (unsubscribe x d) as [d' | e']; [| discriminate].
    now apply IH.
Qed.

(** X20: when [unsubscribe] raises for one of the listeners,
    [Component.close] raises that exception with the component already
    marked as not started and the listeners from that one on still
    subscribed; a second [close] is then a no-op, so they stay
    subscribed. *)
Theorem close_failure_leaves_listeners self d client before l after e d1 :
  started self = true -> _client self = Some client ->
  _listeners self = before ++ l :: after ->
  unsubscribe_all Dispatcher unsubscribe before d = (d1, None) ->
  unsubscribe l d1 = Err e ->
  close Dispatcher unsubscribe self d = (set_started false self, d1, Some e)
  /\ close Dispatcher unsubscribe (set_started false self) d1
     = (set_started false self, d1, None).
Proof.
  intros Hs Hc Hl Hb He. split.
  - unfold close. rewrite Hs, Hc, Hl. simpl.
    now rewrite (unsubscribe_all_stops after l e before d d1 Hb He).
  - reflexivity.
Qed.

End WithDispatcher.

(** A closed component is opened again: none of its listeners is
    subscribed by [open]. *)
Lemma open_skips_unsubscribed_listeners_witness :
  open (list Listener) ComponentSamples.list_subscribe
       ComponentSamples.list_unsubscribe (Examples.sample_component false) []
  = (Examples.sample_component true, [], None).
Proof.
  apply (open_skips_unsubscribed_listeners (list Listener)
           ComponentSamples.list_subscribe ComponentSamples.list_unsubscribe
           (Examples.sample_component false) []).
  - reflexivity.
  - intros l Hl. exists (ValueError "not subscribed"). split; reflexivity.
Defined.

(** The second listener of a component is not subscribed when the
    component is closed. *)
Lemma close_failure_leaves_listeners_witness :
  close (list Listener) ComponentSamples.list_unsubscribe
        ComponentSamples.busy_component [(2, 2); (0, 0)]
  = (set_started false ComponentSamples.busy_component, [(2, 2)],
     Some (ValueError "not subscribed")).
Proof.
  apply (close_failure_leaves_listeners (list Listener)
           ComponentSamples.list_unsubscribe ComponentSamples.busy_component
           [(2, 2); (0, 0)] 0 [(0, 0)] (1, 1) [] (ValueError "not subscribed")
           [(2, 2)]); reflexivity.
Defined.

End ExecutionFacts.

(** ** What the parsers accept *)

Module ParserFacts.

Import Conversion Converters NumeralFacts MentionFacts.

Lemma no_opening_rejected (P : SnowflakeParser) p value :
  @regex P = lit "<" :: p ->
  Py.isdigit value = false ->
  Py.all_chars (fun d => negb (Ascii.eqb d "<")) value = true ->
  match_id P value = Err (ValueError "No valid mention or ID found").
Proof.
  intros Hp Hd Hno. unfold match_id.
  rewrite Hd, Hp, (findall_nothing _ _ (search_no_opening p "<" value Hno)).
  reflexivity.
Qed.

(** X21: a string that is not made of digits only and holds no ["<"]
    is refused with [ValueError] by each of the four parsers: signs,
    white space around the digits and the empty string are not accepted,
    although [int] would accept some of them. *)
Theorem match_id_needs_opening value :
  Py.isdigit value = false ->
  Py.all_chars (fun d => negb (Ascii.eqb d "<")) value = true ->
  match_id _SnowflakeParser value = Err (ValueError "No valid mention or ID found")
  /\ match_id _ChannelIDParser value = Err (ValueError "No valid mention or ID found")
  /\ match_id _EmojiIDParser value = Err (ValueError "No valid mention or ID found")
  /\ match_id _UserIDParser value = Err (ValueError "No valid mention or ID found").
Proof.
  intros Hd Hno. repeat split; eapply no_opening_rejected; eauto; reflexivity.
Qed.

Lemma match_id_needs_opening_witness :
  match_id _SnowflakeParser " 42" = Err (ValueError "No valid mention or ID found")
  /\ Py.int " 42" = Some 42%Z.
Proof.
  split; [| reflexivity].
  apply (match_id_needs_opening " 42"); reflexivity.
Defined.

Lemma run_hash d r :
  Py.isdigit_char d = true ->
  run_length (one_of ["@"; "&"; "?"; "!"; "#"]%char) (Some 3)
             (String "#" (String d r)) = 1.
Proof. intros H. digit_char d H. Qed.

Lemma run_role d r :
  Py.isdigit_char d = true ->
  run_length (one_of ["@"; "&"; "?"; "!"; "#"]%char) (Some 3)
             (String "@" (String "&" (String d r))) = 2.
Proof. intros H. digit_char d H. Qed.

Lemma digits_head ds :
  Py.isdecimal ds = true ->
  exists d ds', ds = String d ds' /\ Py.isdigit_char d = true.
Proof.
  intros H. destruct ds as [|d ds']; [discriminate |]. exists d, ds'.
  split; [reflexivity |]. simpl in H. now apply andb_prop in H as [Hd _].
Qed.

Lemma word_not_colon c : Py.isword_char c = true -> Ascii.eqb c ":" = false.
Proof.
  intros H. destruct c as [[] [] [] [] [] [] [] []];
    try (vm_compute in H; discriminate); reflexivity.
Qed.

Section Forms.

Variable ds : string.
Hypothesis ds_digits : Py.isdecimal ds = true.

Lemma channel_form :
  match_here (@regex _ChannelIDParser) (String "<" (String "#" (ds +:+ ">")))
  = Some (ds, "").
Proof.
  cbn [regex _ChannelIDParser]. do 2 apply match_lit.
  now apply match_id_digits.
Qed.

Lemma snowflake_channel_form :
  match_here (@regex _SnowflakeParser) (String "<" (String "#" (ds +:+ ">")))
  = Some (ds, "").
Proof.
  cbn [regex _SnowflakeParser]. apply match_lit.
  apply (match_atom_take _ _ _ 1); [reflexivity | | simpl; lia |].
  - destruct (digits_head ds ds_digits) as (d & ds' & -> & Hd).
    rewrite append_cons. now apply run_hash.
  - now apply match_id_digits.
Qed.

Lemma snowflake_role_form :
  match_here (@regex _SnowflakeParser)
             (String "<" (String "@" (String "&" (ds +:+ ">"))))
  = Some (ds, "").
Proof.
  cbn [regex _SnowflakeParser]. apply match_lit.
  apply (match_atom_take _ _ _ 2); [reflexivity | | simpl; lia |].
  - destruct (digits_head ds ds_digits) as (d & ds' & -> & Hd).
    rewrite append_cons. now apply run_role.
  - now apply match_id_digits.
Qed.

Variable name : string.
Hypothesis name_word : Py.all_chars Py.isword_char name = true.
Hypothesis name_not_empty : name <> "".

Lemma emoji_tail :
  match_here
    [ {| cls := Py.isword_char; lo := 1; hi := None; captured := false |};
      lit ":"; digits_group; lit ">" ]
    (name +:+ String ":" (ds +:+ ">"))
  = Some (ds, "").
Proof.
  apply (match_atom_take _ _ _ (String.length name)); [reflexivity | | |].
  - cbn [cls hi]. now apply run_length_run.
  - cbn [lo]. destruct name; [congruence | simpl; lia].
  - rewrite drop_append. apply match_lit. now apply match_id_digits.
Qed.

Lemma emoji_form :
  match_here (@regex _EmojiIDParser)
             (String "<" (String ":" (name +:+ String ":" (ds +:+ ">"))))
  = Some (ds, "").
Proof.
  cbn [regex _EmojiIDParser]. apply match_lit.
  rewrite match_atom_skip; [| reflexivity | reflexivity | reflexivity].
  apply match_lit. exact emoji_tail.
Qed.

Lemma animated_emoji_form :
  match_here (@regex _EmojiIDParser)
             (String "<" (String "a" (String ":"
                (name +:+ String ":" (ds +:+ ">")))))
  = Some (ds, "").
Proof.
  cbn [regex _EmojiIDParser]. apply match_lit.
  apply (match_atom_take _ _ _ 1); [reflexivity | reflexivity | simpl; lia |].
  cbn [Py.drop]. apply match_lit. exact emoji_tail.
Qed.

End Forms.

(** X22: each parser reads the id out of the mention forms its pattern
    describes: [_ChannelIDParser] out of a channel mention,
    [_SnowflakeParser] out of a channel and a role mention,
    [_EmojiIDParser] out of a custom emoji, animated or not, whatever its
    name; [_UserIDParser] raises [ValueError] on a channel mention. *)
Theorem mention_forms_round_trip (id : N) (name : string) :
  name <> "" -> Py.all_chars Py.isword_char name = true ->
  let digits := Py.str_of_N id in
  match_id _ChannelIDParser ("<#" +:+ digits +:+ ">") = Ok (Z.of_N id)
  /\ match_id _SnowflakeParser ("<#" +:+ digits +:+ ">") = Ok (Z.of_N id)
  /\ match_id _SnowflakeParser ("<@&" +:+ digits +:+ ">") = Ok (Z.of_N id)
  /\ match_id _EmojiIDParser ("<:" +:+ name +:+ ":" +:+ digits +:+ ">")
     = Ok (Z.of_N id)
  /\ match_id _EmojiIDParser ("<a:" +:+ name +:+ ":" +:+ digits +:+ ">")
     = Ok (Z.of_N id)
  /\ match_id _UserIDParser ("<#" +:+ digits +:+ ">")
     = Err (ValueError "No valid mention or ID found").
Proof.
  intros Hne Hword digits. subst digits.
  pose proof (str_of_N_digits id) as Hd.
  pose proof (str_of_N_value id) as Hv.
  change ("<#" +:+ Py.str_of_N id +:+ ">")
    with (String "<" (String "#" (Py.str_of_N id +:+ ">"))).
  change ("<@&" +:+ Py.str_of_N id +:+ ">")
    with (String "<" (String "@" (String "&" (Py.str_of_N id +:+ ">")))).
  change ("<:" +:+ name +:+ ":" +:+ Py.str_of_N id +:+ ">")
    with (String "<" (String ":" (name +:+ String ":" (Py.str_of_N id +:+ ">")))).
  change ("<a:" +:+ name +:+ ":" +:+ Py.str_of_N id +:+ ">")
    with (String "<" (String "a" (String ":"
            (name +:+ String ":" (Py.str_of_N id +:+ ">"))))).
  rewrite <- Hv at 2 4 6 8 10.
  repeat split.
  - apply (match_id_found _ Hd);
      [reflexivity | discriminate | now apply channel_form | reflexivity].
  - apply (match_id_found _ Hd);
      [reflexivity | discriminate | now apply snowflake_channel_form
      | reflexivity].
  - apply (match_id_found _ Hd);
      [reflexivity | discriminate | now apply snowflake_role_form | reflexivity].
  - apply (match_id_found _ Hd);
      [reflexivity | discriminate | now apply emoji_form | reflexivity].
  - apply (match_id_found _ Hd);
      [reflexivity | discriminate | now apply animated_emoji_form | reflexivity].
  - unfold match_id. change (Py.isdigit (String "<" ?s)) with false.
    rewrite findall_nothing; [reflexivity |].
    cbn [regex _UserIDParser search].
    rewrite match_lit_fail by (now apply match_lit_miss).
    rewrite match_lit_miss by reflexivity.
    apply search_no_opening, digits_no_opening.
    destruct (Py.str_of_N id); [discriminate | exact Hd].
Qed.

Lemma mention_forms_round_trip_witness :
  match_id _EmojiIDParser "<a:party_parrot:7>" = Ok 7%Z
  /\ match_id _ChannelIDParser "<#7>" = Ok 7%Z.
Proof.
  destruct (mention_forms_round_trip 7 "party_parrot") as (Hc & _ & _ & _ & He & _).
  - discriminate.
  - reflexivity.
  - split; [exact He | exact Hc].
Defined.

(** *** Converters *)

Lemma user_parser_reads (id : N) :
  match_id _UserIDParser (Py.str_of_N id) = Ok (Z.of_N id)
  /\ match_id _UserIDParser (fst (Clients.mention_prefixes id)) = Ok (Z.of_N id)
  /\ match_id _UserIDParser (snd (Clients.mention_prefixes id)) = Ok (Z.of_N id).
Proof.
  pose proof (str_of_N_digits id) as Hd.
  pose proof (str_of_N_value id) as Hv.
  unfold Clients.mention_prefixes. cbn [fst snd].
  change ("<@" +:+ Py.str_of_N id +:+ ">")
    with (String "<" (String "@" (Py.str_of_N id +:+ ">"))).
  change ("<@!" +:+ Py.str_of_N id +:+ ">")
    with (String "<" (String "@" (String "!" (Py.str_of_N id +:+ ">")))).
  rewrite <- Hv at 2 4 6.
  repeat split.
  - unfold match_id. rewrite (ConversionFacts.isdecimal_isdigit _ Hd).
    now apply ConversionFacts.Snowflake_digits.
  - apply (match_id_found _ Hd);
      [reflexivity | discriminate | now apply user_plain | reflexivity].
  - apply (match_id_found _ Hd);
      [reflexivity | discriminate | now apply user_bang | reflexivity].
Qed.

(** X23: with a cache that holds a user under an id,
    [UserConverter.convert] returns that user for the decimal id and for
    both mention forms of the id, in a guild or not. *)
Theorem user_converter_reads_mentions c guild (id : N) user :
  get_user c (Z.of_N id) = Some user ->
  let ctx := {| cache := Some c; guild_id := guild |} in
  UserConverter.convert ctx (Py.str_of_N id) = Ok user
  /\ UserConverter.convert ctx (fst (Clients.mention_prefixes id)) = Ok user
  /\ UserConverter.convert ctx (snd (Clients.mention_prefixes id)) = Ok user.
Proof.
  intros Hu ctx. subst ctx. unfold UserConverter.convert. cbn [cache].
  destruct (user_parser_reads id) as (-> & -> & ->). rewrite Hu. auto.
Qed.

Lemma user_converter_reads_mentions_witness :
  UserConverter.convert sample_context "<@!42>" = Ok 1.
Proof.
  apply (user_converter_reads_mentions sample_cache (Some 7%Z) 42 1).
  reflexivity.
Defined.

Lemma match_id_errors (P : SnowflakeParser) value e :
  match_id P value = Err e -> exists m, e = ValueError m.
Proof.
  unfold match_id. destruct (Py.isdigit value).
  - apply ConversionFacts.Snowflake_errors.
  - destruct (findall (@regex P) value) as [|r rs].
    + intros [= <-]. eauto.
    + apply ConversionFacts.Snowflake_errors.
Qed.

(** X24: [MemberConverter.convert] returns only a member the cache
    holds, in the guild of the message, under an id parsed from the
    argument.  Without a cache it raises [RuntimeError] and in a DM
    [ValueError], in this order and before the argument is looked at;
    every other failure is a [ValueError]. *)
Theorem member_converter_outcomes ctx argument :
  match MemberConverter.convert ctx argument with
  | Ok member =>
      exists c guild id,
        cache ctx = Some c /\ guild_id ctx = Some guild
        /\ match_id _UserIDParser argument = Ok id
        /\ get_member c guild id = Some member
  | Err e =>
      (cache ctx = None /\ e = cacheless)
      \/ (cache ctx <> None /\ guild_id ctx = None
          /\ e = ValueError "Cannot get a member from a DM channel")
      \/ (cache ctx <> None /\ guild_id ctx <> None
          /\ exists m, e = ValueError m)
  end.
Proof.
  unfold MemberConverter.convert.
  destruct (cache ctx) as [c|]; [| now left].
  destruct (guild_id ctx) as [guild|]; [| right; left; repeat split; congruence].
  destruct (match_id _UserIDParser argument) as [id | e] eqn:Hm.
  - destruct (get_member c guild id) as [member|] eqn:Hg.
    + exists c, guild, id. auto.
    + right. right. repeat split; try congruence. eauto.
  - right. right. repeat split; try congruence.
    eapply match_id_errors; eauto.
Qed.

End ParserFacts.

(** ** Declaring the global slash commands *)

Module GlobalCommandFacts.

Import GlobalCommands.

Lemma scan_builders : forall commands found conflicts builders,
  snd (scan commands found conflicts builders)
  = builders ++ List.map command_id (List.filter is_global commands).
Proof.
  induction commands as [|c commands IH]; intros found conflicts builders; simpl.
  - now rewrite app_nil_r.
  - destruct (is_global c); simpl; [| apply IH].
    rewrite IH, <- app_assoc. reflexivity.
Qed.

Lemma union_singleton_not_empty (x : string) (X : gset string) : {[x]} ∪ X <> ∅.
Proof.
  intros H. assert (Hx : x ∈ ({[x]} ∪ X : gset string))
    by (apply elem_of_union; left; now apply elem_of_singleton).
  rewrite H in Hx. now apply elem_of_empty in Hx.
Qed.

(** No name is recorded as a conflict exactly when the names of the
    global commands are pairwise distinct and new. *)
Lemma scan_conflicts : forall commands found conflicts builders,
  snd (fst (scan commands found conflicts builders)) = ∅
  <-> conflicts = ∅
      /\ NoDup (List.map name (List.filter is_global commands))
      /\ forall n, In n (List.map name (List.filter is_global commands)) ->
                   n ∉ found.
Proof.
  induction commands as [|c commands IH]; intros found conflicts builders; simpl.
  - split; [intros H; repeat split; [exact H | constructor | intros n []] |].
    now intros [H _].
  - destruct (is_global c); simpl; [| apply IH].
    rewrite IH. clear IH.
    destruct (bool_decide (name c ∈ found)) eqn:Hb.
    + apply bool_decide_eq_true in Hb. split.
      * intros [H _]. now apply union_singleton_not_empty in H.
      * intros (_ & _ & H). exfalso. apply (H (name c)); [now left | exact Hb].
    + apply bool_decide_eq_false in Hb. split.
      * intros (Hc & Hnd & Hnew). split; [exact Hc |]. split.
        -- constructor; [| exact Hnd]. intros Hin.
           apply list_elem_of_In in Hin.
           apply (Hnew _ Hin). apply elem_of_union. left.
           now apply elem_of_singleton.
        -- intros n [<- | Hin]; [exact Hb |].
           intros Hf. apply (Hnew _ Hin). apply elem_of_union. now right.
      * intros (Hc & Hnd & Hnew). apply NoDup_cons in Hnd as [Hn Hnd].
        split; [exact Hc |]. split; [exact Hnd |].
        intros n Hin Hf. apply elem_of_union in Hf as [Hf | Hf].
        -- apply elem_of_singleton in Hf. subst n.
           apply Hn. now apply list_elem_of_In.
        -- apply (Hnew n); [now right | exact Hf].
Qed.

Lemma scan_no_conflict components :
  snd (fst (scan (concat components) ∅ ∅ [])) = ∅
  <-> NoDup (List.map name (global_commands components)).
Proof.
  rewrite scan_conflicts. unfold global_commands. split.
  - now intros (_ & H & _).
  - intros H. split; [reflexivity |]. split; [exact H |].
    intros n _. apply not_elem_of_empty.
Qed.

Lemma fetch_makes_no_update rest cached c :
  In c (calls (fetch_rest_application_id rest cached)) -> is_update c = false.
Proof.
  unfold fetch_rest_application_id.
  destruct (truthy cached); [intros [] |].
  destruct (token_type_is_bot rest);
    [destruct (fetch_application rest) | destruct (fetch_authorization rest)];
    simpl; intros [<- | []]; reflexivity.
Qed.

(** X25: when two global commands of the loaded components bear the
    same name, [set_global_commands] raises and changes nothing: neither
    the commands registered with Discord nor the tracked command of any
    command.  With the application given, the exception is the
    [RuntimeError] that lists the conflicts and no call is made at all. *)
Theorem conflicting_global_commands rest application cached components :
  ~ NoDup (List.map name (global_commands components)) ->
  let out := set_global_commands rest application cached components in
  exists e,
    returned out = Err e
    /\ (forall c, In c (calls out) -> is_update c = false)
    /\ (forall id, truthy application = Some id ->
          calls out = [] /\ exists message, e = RuntimeError message).
Proof.
  intros Hdup out. subst out. unfold set_global_commands.
  set (resolved := match truthy application with
                   | Some id => _
                   | None => _
                   end).
  assert (Hcalls : forall c, In c (calls resolved) -> is_update c = false).
  { subst resolved. destruct (truthy application); [intros c [] |].
    destruct (truthy cached); [intros c [] |].
    intros c. apply fetch_makes_no_update. }
  assert (Hgiven : forall id, truthy application = Some id ->
                     calls resolved = [] /\ returned resolved = Ok id).
  { subst resolved. intros id ->. split; reflexivity. }
  destruct (returned resolved) as [app | e] eqn:Hres.
  - destruct (scan (concat components) ∅ ∅ []) as [[found conflicts] builders]
      eqn:Hscan.
    assert (Hc : conflicts <> ∅).
    { intros Hc. apply Hdup. apply scan_no_conflict. now rewrite Hscan. }
    rewrite bool_decide_eq_false_2 by exact Hc. simpl.
    eexists. split; [reflexivity |]. split; [exact Hcalls |].
    intros id Hid. destruct (Hgiven id Hid) as [Hno _]. split; [exact Hno | eauto].
  - exists e. split; [reflexivity |]. split; [exact Hcalls |].
    intros id Hid. destruct (Hgiven id Hid) as [_ Hok]. congruence.
Qed.

Lemma conflicting_global_commands_witness :
  let out := set_global_commands echo_rest (Some 9) None
               [[ping; guild_ping]; [pong; other_ping]] in
  calls out = [] /\ exists message, returned out = Err (RuntimeError message).
Proof.
  intros out.
  destruct (conflicting_global_commands echo_rest (Some 9) None
              [[ping; guild_ping]; [pong; other_ping]])
    as (e & He & _ & Hgiven).
  - intros H. inversion H as [|x l Hnot Hrest]. apply Hnot.
    apply list_elem_of_In. simpl. auto.
  - destruct (Hgiven 9 eq_refl) as (Hno & message & ->).
    split; [exact Hno | exists message; exact He].
Defined.

Lemma track_ok by_name : forall commands tracked,
  track by_name commands = (tracked, None) ->
  forall c, In c (List.filter is_global commands) ->
    exists id, In (SetTrackedCommand (command_id c) id) tracked
               /\ by_name !! name c = Some id.
Proof.
  induction commands as [|x commands IH]; intros tracked Ht c Hin; simpl in *.
  - destruct Hin.
  - destruct (is_global x); [| now apply IH].
    destruct (by_name !! name x) as [id|] eqn:Hl; [| discriminate].
    destruct (track by_name commands) as [cs r] eqn:Hrest.
    injection Ht as <- ->.
    destruct Hin as [<- | Hin].
    + exists id. split; [now left | exact Hl].
    + destruct (IH cs eq_refl c Hin) as (id' & Hin' & Hl').
      exists id'. split; [now right | exact Hl'].
Qed.

Lemma track_calls by_name : forall commands c,
  In c (fst (track by_name commands)) ->
  exists command tracked, c = SetTrackedCommand command tracked.
Proof.
  induction commands as [|x commands IH]; intros c; simpl; [tauto |].
  destruct (is_global x); [| apply IH].
  destruct (by_name !! name x) as [id|]; [| intros []].
  destruct (track by_name commands) as [cs r]. simpl in *.
  intros [<- | Hin]; eauto.
Qed.

(** X26: when [set_global_commands] returns, whether the application
    was given, was cached or had to be fetched, the names of the global
    commands are pairwise distinct, the REST client was asked once to set
    the builders of exactly the global commands, in the order of the
    components, for the application given or else cached or else fetched,
    nothing was set before that call, and after it every global command
    was given as tracked command the command of the answer that bears its
    name. *)
Theorem global_commands_set rest application cached components commands :
  let out := set_global_commands rest application cached components in
  returned out = Ok commands ->
  NoDup (List.map name (global_commands components))
  /\ exists id before tracked,
       set_application_commands rest id
         (List.map command_id (global_commands components)) = Ok commands
       /\ calls out
          = before
            ++ SetApplicationCommands id
                 (List.map command_id (global_commands components)) :: tracked
       /\ (forall c, In c before -> is_update c = false)
       /\ (forall c, In c tracked ->
             exists command t, c = SetTrackedCommand command t)
       /\ (forall given, truthy application = Some given ->
             id = given /\ before = [])
       /\ (truthy application = None ->
           forall known, truthy cached = Some known -> id = known /\ before = [])
       /\ (truthy application = None -> truthy cached = None ->
           returned (fetch_rest_application_id rest cached) = Ok id
           /\ before = calls (fetch_rest_application_id rest cached))
       /\ forall c, In c (global_commands components) ->
            exists t, In (SetTrackedCommand (command_id c) t) tracked
                      /\ names_to_commands commands !! name c = Some t.
Proof.
  intros out. subst out. unfold set_global_commands.
  set (resolved := match truthy application with
                   | Some id => _
                   | None => _
                   end).
  assert (Hcalls : forall c, In c (calls resolved) -> is_update c = false).
  { subst resolved. destruct (truthy application); [intros c [] |].
    destruct (truthy cached); [intros c [] |].
    intros c. apply fetch_makes_no_update. }
  assert (Hgiven : forall given, truthy application = Some given ->
                     returned resolved = Ok given /\ calls resolved = []).
  { subst resolved. intros given ->. split; reflexivity. }
  assert (Hknown : truthy application = None ->
                   forall known, truthy cached = Some known ->
                     returned resolved = Ok known /\ calls resolved = []).
  { subst resolved. intros -> known ->. split; reflexivity. }
  assert (Hfetch : truthy application = None -> truthy cached = None ->
                   resolved = fetch_rest_application_id rest cached).
  { subst resolved. intros -> ->. reflexivity. }
  destruct (returned resolved) as [id | e] eqn:Hres; [| discriminate].
  pose proof (scan_builders (concat components) ∅ ∅ []) as Hb.
  pose proof (scan_no_conflict components) as Hn.
  destruct (scan (concat components) ∅ ∅ []) as [[found conflicts] builders].
  simpl in Hb, Hn. subst builders.
  destruct (bool_decide (conflicts = ∅)) eqn:Hc; simpl; [| discriminate].
  apply bool_decide_eq_true in Hc.
  fold (global_commands components).
  destruct (set_application_commands rest id _) as [answer | e] eqn:Hset;
    [| discriminate].
  pose proof (track_calls (names_to_commands answer) (concat components))
    as Htracked.
  destruct (track (names_to_commands answer) (concat components))
    as [tracked failure] eqn:Ht.
  simpl. destruct failure as [e|]; [discriminate |].
  intros [= ->].
  split; [now apply Hn |].
  exists id, (calls resolved), tracked.
  split; [exact Hset |]. split; [reflexivity |]. split; [exact Hcalls |].
  split; [exact Htracked |].
  split; [intros given Hg; destruct (Hgiven given Hg) as [Hr ->];
          split; [congruence | reflexivity] |].
  split; [intros Ha known Hk; destruct (Hknown Ha known Hk) as [Hr ->];
          split; [congruence | reflexivity] |].
  split; [intros Ha Hk; rewrite <- (Hfetch Ha Hk); split;
          [exact Hres | reflexivity] |].
  intros c Hin. exact (track_ok _ _ _ Ht c Hin).
Qed.

Lemma global_commands_set_witness :
  let out := set_global_commands echo_rest None None
               [[ping; guild_ping]; [pong]] in
  returned out = Ok [("ping", 101); ("pong", 102)]
  /\ calls out
     = [FetchApplication; SetApplicationCommands 9 [1; 2];
        SetTrackedCommand 1 101; SetTrackedCommand 2 102].
Proof.
  intros out. split; [reflexivity |].
  destruct (global_commands_set echo_rest None None
              [[ping; guild_ping]; [pong]] [("ping", 101); ("pong", 102)])
    as (_ & id & before & tracked & _ & Hcalls & _).
  - reflexivity.
  - reflexivity.
Defined.

(** X27: [fetch_rest_application_id] asks the REST client at most once:
    an id it has returned, unless it is zero, is cached, and the next
    call returns it without any call to the REST client. *)
Theorem application_id_is_cached rest cached id :
  let first := fetch_rest_application_id rest cached in
  returned first = Ok id -> id <> 0 ->
  let again := fetch_rest_application_id rest (cached_application_id first) in
  length (calls first) <= 1
  /\ returned again = Ok id
  /\ calls again = []
  /\ cached_application_id again = cached_application_id first.
Proof.
  intros first Hr Hid again. subst first again.
  unfold fetch_rest_application_id in *.
  destruct (truthy cached) as [known|] eqn:Hc; simpl in *.
  - injection Hr as ->. rewrite Hc. simpl. repeat split; lia.
  - destruct (token_type_is_bot rest);
      [destruct (fetch_application rest) as [app | e]
      | destruct (fetch_authorization rest) as [app | e]];
      simpl in *; try discriminate; injection Hr as ->;
      (destruct id as [|n]; [congruence |]); simpl; repeat split; lia.
Qed.

Lemma application_id_is_cached_witness :
  let first := fetch_rest_application_id echo_rest None in
  calls first = [FetchApplication]
  /\ calls (fetch_rest_application_id echo_rest (cached_application_id first)) = [].
Proof.
  intros first. split; [reflexivity |].
  destruct (application_id_is_cached echo_rest None 9) as (_ & _ & Hno & _).
  - reflexivity.
  - discriminate.
  - exact Hno.
Defined.

End GlobalCommandFacts.

(** ** Loading modules *)

Module LoadingFacts.

Import Clients Loading.



End LoadingFacts.
